(** * usbwallet: EIP-712 typed-data signing on Ledger and Trezor devices

    A shallow embedding of [data_type.go] (the type-expression parser) and of
    the two signing drivers (the Ledger driver, APDU framing, and the Trezor
    driver, device-driven queries), together with the properties of the
    package's specification that they decide.

    Conventions.
    - A Go [string] is a [string] of bytes; [[]byte] is a [list Z] of values
      in [0, 256).  Go's [int] is the 64-bit one; a [float64] is a primitive
      binary64 number.
    - A Go map is a [gmap]; a missing key and a stored nil slice both read as
      [None], a stored empty slice as [Some []].
    - A call that can fail returns a [result]: [Ok], the Go [error] value
      ([Err]) or a run-time panic ([Panic]); [Exhausted] is the embedding's
      own: a recursion or a loop was cut by its bound on the number of
      steps.
    - The transport is a parameter: a device state and an exchange function
      on it.  Every request handed to the transport is logged, so that
      "nothing was sent" is a statement on the log. *)

From Stdlib Require Import ZArith Lia Bool Ascii String.
From Stdlib Require Import Floats.PrimFloat Floats.SpecFloat Floats.FloatOps.
From stdpp Require Import base option list strings gmap.

Set Warnings "-register-all".
Local Open Scope string_scope.
Local Open Scope list_scope.
Local Open Scope Z_scope.

(** ** Outcomes of a call *)

(** Run-time panics of the Go code that the embedding keeps apart from
    returned errors. *)
Inductive panic : Type :=
| IndexOutOfRange      (* s[i] with i >= len(s) *)
| SliceOutOfRange      (* s[a:b] beyond len(s) *)
| NilDereference.      (* method call on a nil reflect.Type *)

(** What the transport itself can report.  [TrezorFailure] is the device's
    failure message with its optional code; anything else is opaque. *)
Inductive transportError : Type :=
| TrezorFailure (code : option Z) (message : string)
| TransportFault (what : string).

(** One constructor per [errors.New] / [fmt.Errorf] site of the three
    files; [Wrapf] is a [%w] wrapper with its context text. *)
Inductive error : Type :=
| ErrWalletClosed
| ErrUnknownType (fieldType : string)
| ErrInvalidLength (fieldType lengthStr : string)
| ErrInvalidType (fieldType : string)
| ErrLedgerVersion (major minor patch : Z)
| ErrReplyLacksSignature
| ErrInvalidSignatureLength (n : Z)
| ErrDomainTypeRequired
| ErrPrimaryTypeNotFound (primaryType : string)
| ErrNilValue (field : string)
| ErrExpectedArray (field : string)
| ErrExpectedStruct (field : string)
| ErrInvalidStringValue (field v : string)
| ErrUnsupportedValue (field : string)
| ErrHexDecode
| ErrNoFields (structName : string)
| ErrNoStructType
| ErrInvalidFieldIndex (p : nat)
| ErrExpectedArrayAt (path : list nat)
| ErrInvalidArrayIndex (p : nat) (path : list nat)
| ErrExpectedMapAt (path : list nat)
| ErrCannotEncodeCustom (name : string) (path : list nat)
| ErrValueTooLong (path : list nat) (len byteLength : Z)
| ErrExpectedBool (path : list nat)
| ErrExpectedString (path : list nat)
| ErrExpectedBytes (path : list nat)
| ErrTransport (e : transportError)
| Wrapf (context : string) (cause : error).

Inductive result (A : Type) : Type :=
| Ok (a : A)
| Err (e : error)
| Panic (p : panic)
| Exhausted.
Arguments Ok {A} a.
Arguments Err {A} e.
Arguments Panic {A} p.
Arguments Exhausted {A}.

Definition isErr {A} (r : result A) : bool :=
  match r with Err _ => true | _ => false end.

(** The specification's error taxonomy, as names for the messages above. *)
Inductive errorKind : Type :=
| ClosedDevice | UnsupportedFirmware | SchemaError
| UnknownType | InvalidLength | InvalidType
| ProtocolError | NestedArraysUnsupported | TransportError.

Definition nestedArraysContext : string :=
  "trezor: nested arrays are not supported by this firmware version".

Fixpoint kindOf (e : error) : errorKind :=
  match e with
  | ErrWalletClosed => ClosedDevice
  | ErrUnknownType _ => UnknownType
  | ErrInvalidLength _ _ => InvalidLength
  | ErrInvalidType _ => InvalidType
  | ErrLedgerVersion _ _ _ => UnsupportedFirmware
  | ErrReplyLacksSignature | ErrInvalidSignatureLength _ => ProtocolError
  | ErrDomainTypeRequired | ErrPrimaryTypeNotFound _ | ErrNoFields _
  | ErrNilValue _ | ErrExpectedArray _ | ErrExpectedStruct _
  | ErrInvalidStringValue _ _ | ErrUnsupportedValue _ | ErrHexDecode
  | ErrNoStructType | ErrInvalidFieldIndex _ | ErrExpectedArrayAt _
  | ErrInvalidArrayIndex _ _ | ErrExpectedMapAt _ | ErrCannotEncodeCustom _ _
  | ErrValueTooLong _ _ _ | ErrExpectedBool _ | ErrExpectedString _
  | ErrExpectedBytes _ => SchemaError
  | ErrTransport _ => TransportError
  | Wrapf ctx cause =>
      if String.eqb ctx nestedArraysContext then NestedArraysUnsupported
      else kindOf cause
  end.

(** ** Bytes and strings *)

Definition byteOf (c : ascii) : Z := Z.of_N (N_of_ascii c).

(** [[]byte(s)] *)
Definition bytesOf (s : string) : list Z := map byteOf (list_ascii_of_string s).

(** [byte(n)] for an [int] n: the low eight bits. *)
Definition toByte (n : Z) : Z := n mod 256.

(** [len(x)] as an [int]. *)
Definition len {A} (l : list A) : Z := Z.of_nat (length l).
Definition slen (s : string) : Z := Z.of_nat (String.length s).

(** [binary.BigEndian.AppendUint16([]byte{}, uint16(n))] *)
Definition appendUint16 (n : Z) : list Z :=
  let u := n mod 65536 in [u / 256; u mod 256].

(** [binary.BigEndian.PutUint32]: the four bytes of a [uint32]. *)
Definition putUint32 (n : Z) : list Z :=
  let u := n mod 4294967296 in
  [u / 16777216; (u / 65536) mod 256; (u / 256) mod 256; u mod 256].

Definition isDigit (c : ascii) : bool :=
  let n := byteOf c in (48 <=? n) && (n <=? 57).

Fixpoint allDigits (s : string) : bool :=
  match s with
  | EmptyString => true
  | String c r => isDigit c && allDigits r
  end.

(** The longest run of digits at the head of [s], and what follows it. *)
Fixpoint spanDigits (s : string) : string * string :=
  match s with
  | EmptyString => (EmptyString, EmptyString)
  | String c r =>
      if isDigit c then let '(d, t) := spanDigits r in (String c d, t)
      else (EmptyString, s)
  end.

Definition maxInt : Z := 9223372036854775807.

Fixpoint digitsValue (acc : Z) (s : string) : Z :=
  match s with
  | EmptyString => acc
  | String c r => digitsValue (10 * acc + (byteOf c - 48)) r
  end.

(** [n, _ := strconv.Atoi(s)] on a string of digits: the empty string gives
    0 (with an error that the callers drop) and a value beyond [int] gives
    the largest [int] (with a range error, dropped as well). *)
Definition Atoi (s : string) : Z := Z.min (digitsValue 0 s) maxInt.

(** *** [int64(v)] for a [float64]

    A [float64] is a primitive binary64 number.  The conversion discards the
    fraction.  When the integer does not fit an [int64], and for an
    infinity or a NaN, Go leaves the result to the implementation; the
    embedding takes the result of amd64, the smallest [int64]. *)
Definition minInt : Z := -9223372036854775808.

(** The integer part of a finite [float64]. *)
Definition truncate (v : float) : option Z :=
  match Prim2SF v with
  | S754_zero _ => Some 0
  | S754_finite s m e =>
      let magnitude :=
        if 0 <=? e then Z.pos m * 2 ^ e else Z.pos m / 2 ^ (- e) in
      Some (if s then - magnitude else magnitude)
  | S754_infinity _ | S754_nan => None
  end.

Definition int64 (v : float) : Z :=
  match truncate v with
  | Some n => if (minInt <=? n) && (n <=? maxInt) then n else minInt
  | None => minInt
  end.

(** *** [strings.TrimSpace]

    White space is Unicode's: the six ASCII ones and the UTF-8 encodings of
    U+0085, U+00A0, U+1680, U+2000..U+200A, U+2028, U+2029, U+202F, U+205F
    and U+3000. *)
Definition isAsciiSpace (n : Z) : bool :=
  ((9 <=? n) && (n <=? 13)) || (n =? 32).

(** Number of bytes of the white-space rune at the head of [l], 0 if none. *)
Definition spaceAtHead (l : list Z) : nat :=
  match l with
  | a :: r =>
      if isAsciiSpace a then 1%nat
      else match r with
      | b :: r' =>
          if (a =? 194) && ((b =? 133) || (b =? 160)) then 2%nat
          else match r' with
          | c :: _ =>
              if (a =? 225) && (b =? 154) && (c =? 128) then 3%nat
              else if (a =? 226) && (b =? 128) &&
                      (((128 <=? c) && (c <=? 138)) || (c =? 168) ||
                       (c =? 169) || (c =? 175)) then 3%nat
              else if (a =? 226) && (b =? 129) && (c =? 159) then 3%nat
              else if (a =? 227) && (b =? 128) && (c =? 128) then 3%nat
              else 0%nat
          | [] => 0%nat
          end
      | [] => 0%nat
      end
  | [] => 0%nat
  end.

(** The same, for the rune at the end of a string given reversed. *)
Definition spaceAtEnd (rl : list Z) : nat :=
  match rl with
  | c :: r =>
      if isAsciiSpace c then 1%nat
      else match r with
      | b :: r' =>
          if spaceAtHead [b; c] =? 2 then 2%nat
          else match r' with
          | a :: _ => if spaceAtHead [a; b; c] =? 3 then 3%nat else 0%nat
          | [] => 0%nat
          end
      | [] => 0%nat
      end
  | [] => 0%nat
  end%nat.

Fixpoint trimWith (at_ : list Z -> nat) (fuel : nat) (l : list Z) : list Z :=
  match fuel with
  | O => l
  | S fuel' =>
      match at_ l with
      | O => l
      | k => trimWith at_ fuel' (drop k l)
      end
  end.

Definition stringOf (l : list Z) : string :=
  string_of_list_ascii (map (fun n => ascii_of_N (Z.to_N n)) l).

Definition TrimSpace (s : string) : string :=
  let l := bytesOf s in
  let l1 := trimWith spaceAtHead (length l) l in
  let l2 := rev (trimWith spaceAtEnd (length l1) (rev l1)) in
  stringOf l2.

(** [strings.HasSuffix(t, "]")] *)
Fixpoint endsWithBracket (s : string) : bool :=
  match s with
  | EmptyString => false
  | String c EmptyString => Ascii.eqb c "]"
  | String _ r => endsWithBracket r
  end.

(** [strings.Index(s, "[")] and [strings.LastIndex(s, "[")], as the prefix
    of [s] before that position ([None] for -1). *)
Fixpoint beforeFirstBracket (s : string) : option string :=
  match s with
  | EmptyString => None
  | String c r =>
      if Ascii.eqb c "[" then Some EmptyString
      else String c <$> beforeFirstBracket r
  end.

Fixpoint beforeLastBracket (s : string) : option string :=
  match s with
  | EmptyString => None
  | String c r =>
      match beforeLastBracket r with
      | Some p => Some (String c p)
      | None => if Ascii.eqb c "[" then Some EmptyString else None
      end
  end.

(** ** The typed-data document (go-ethereum's [apitypes.TypedData]) *)

(** [apitypes.Type] *)
Record Type_ : Type := mkType { Name : string; Type' : string }.

(** A dynamically typed value (an [interface{}]) of a message: a JSON
    number is a [float64]; a [*math.HexOrDecimal256] is carried as the
    integer it holds, [None] for a nil pointer. *)
Inductive value : Type :=
| VNil
| VString (s : string)
| VBool (b : bool)
| VFloat (v : float)
| VHexOrDecimal (h : option Z)
| VArray (a : list value)
| VMap (m : gmap string value).

(** The number of arrays and structs nested in a value. *)
Fixpoint depth (v : value) : nat :=
  match v with
  | VArray a => S (foldr (fun x acc => Nat.max (depth x) acc) 0%nat a)
  | VMap m => S (map_fold (fun _ x acc => Nat.max (depth x) acc) 0%nat m)
  | _ => 0%nat
  end.

Record TypedData : Type := mkTypedData {
  Types : gmap string (list Type_);
  PrimaryType : string;
  (** the value of [data.Domain.Map()] *)
  DomainMap : gmap string value;
  Message : gmap string value
}.

(** ** data_type.go *)

Inductive dataType : Type :=
| CustomType | IntType | UintType | AddressType
| BoolType | StringType | FixedBytesType | BytesType.

(** [byte(dt)] *)
Definition dataTypeByte (dt : dataType) : Z :=
  match dt with
  | CustomType => 0 | IntType => 1 | UintType => 2 | AddressType => 3
  | BoolType => 4 | StringType => 5 | FixedBytesType => 6 | BytesType => 7
  end.

Definition nameToType (name : string) : option dataType :=
  if String.eqb name "int" then Some IntType
  else if String.eqb name "uint" then Some UintType
  else if String.eqb name "address" then Some AddressType
  else if String.eqb name "bool" then Some BoolType
  else if String.eqb name "string" then Some StringType
  else if String.eqb name "bytes" then Some BytesType
  else None.

(** [FindAllStringSubmatch(name, -1)] of the pattern bracket, group of
    digits (zero or more), closing bracket, as the
    list of the captured digit strings.  A match is an opening bracket, a
    longest run of digits and a closing bracket; the search goes on after
    it.  The matched text holds no further opening bracket, so going on
    right after the opening bracket finds the same matches. *)
Fixpoint findArrayLengths (s : string) : list string :=
  match s with
  | EmptyString => []
  | String c r =>
      if Ascii.eqb c "[" then
        match spanDigits r with
        | (d, String c' _) =>
            if Ascii.eqb c' "]" then d :: findArrayLengths r
            else findArrayLengths r
        | (_, EmptyString) => findArrayLengths r
        end
      else findArrayLengths r
  end.

(** [FindStringSubmatch(name)] of the anchored pattern made of a lazy group
    of one or more characters and a greedy group of digits: the lazy
    group takes one character, then one more at a time until the rest is all
    digits; [.] does not match a line feed.  [None] when nothing matches. *)
Fixpoint lazyUntilDigits (pre rest : string) : option (string * string) :=
  if allDigits rest then Some (pre, rest)
  else match rest with
       | EmptyString => None
       | String c r =>
           if Ascii.eqb c "010" then None
           else lazyUntilDigits (pre +:+ String c EmptyString) r
       end.

Definition splitDigits (name : string) : option (string * string) :=
  match name with
  | EmptyString => None
  | String c r =>
      if Ascii.eqb c "010" then None
      else lazyUntilDigits (String c EmptyString) r
  end.

(** What [parseType] returns when [err] is nil: [dt], [name], [byteLength]
    and [arrayLevels] ([None] for a dynamic dimension). *)
Record parsed : Type := mkParsed {
  dt : dataType;
  name : string;
  byteLength : Z;
  arrayLevels : list (option Z)
}.

Definition arrayLevel (d : string) : option Z :=
  if String.eqb d EmptyString then None else Some (Atoi d).

(** The first part of [parseType], on the trimmed type expression: the
    array dimensions and the name before the first opening bracket. *)
Definition stripArrays (name : string) : string * list (option Z) :=
  let arrayLengths := findArrayLengths name in
  let arrayLevels := arrayLevel <$> arrayLengths in
  match arrayLengths with
  | [] => (name, arrayLevels)
  | _ => (default name (beforeFirstBracket name), arrayLevels)
  end.

(** The second part of [parseType], for a name that is no declared struct:
    the elementary type and its width. *)
Definition parseElementary (fieldType name : string)
    (arrayLevels : list (option Z)) : result parsed :=
  match splitDigits name with
  | None => Panic IndexOutOfRange        (* matches[1] on a nil slice *)
  | Some (name, lengthStr) =>
      match nameToType name with
      | None => Err (ErrUnknownType fieldType)
      | Some dt =>
          let byteLength := Atoi lengthStr in
          let noDigits := String.eqb lengthStr EmptyString in
          (* the test on the width that ends the function *)
          let checked (dt : dataType) (byteLength : Z) :=
            if negb noDigits && ((byteLength <? 1) || (32 <? byteLength))
            then Err (ErrInvalidLength fieldType lengthStr)
            else Ok (mkParsed dt name byteLength arrayLevels) in
          match dt with
          | UintType | IntType =>
              if noDigits then checked dt 32
              else if negb (Z.rem byteLength 8 =? 0)
              then Err (ErrInvalidLength fieldType lengthStr)
              else checked dt (Z.quot byteLength 8)
          | _ =>
              if negb noDigits then
                match dt with
                | BytesType => checked FixedBytesType byteLength
                | _ => Err (ErrInvalidType fieldType)
                end
              else match dt with
                   | AddressType => checked dt 20
                   | _ => checked dt byteLength
                   end
          end
      end
  end.

Definition parseType (data : TypedData) (field : Type_) : result parsed :=
  let '(name, arrayLevels) := stripArrays (TrimSpace (Type' field)) in
  match Types data !! name with
  | Some _ => Ok (mkParsed CustomType name 0 arrayLevels)
  | None => parseElementary (Type' field) name arrayLevels
  end.

(** ** Encodings shared by the two drivers *)

(** [encoding/hex]: the value of one hexadecimal digit. *)
Definition fromHexChar (c : ascii) : option Z :=
  let n := byteOf c in
  if (48 <=? n) && (n <=? 57) then Some (n - 48)
  else if (97 <=? n) && (n <=? 102) then Some (n - 87)
  else if (65 <=? n) && (n <=? 70) then Some (n - 55)
  else None.

(** [hex.DecodeString]: the bytes decoded before the first bad digit or the
    dangling last digit, and whether [err] is nil. *)
Fixpoint hexDecodeString (s : string) : list Z * bool :=
  match s with
  | EmptyString => ([], true)
  | String _ EmptyString => ([], false)
  | String p (String q r) =>
      match fromHexChar p, fromHexChar q with
      | Some a, Some b =>
          let '(l, ok) := hexDecodeString r in ((16 * a + b) :: l, ok)
      | _, _ => ([], false)
      end
  end.

Definition has0xPrefix (s : string) : bool :=
  match s with
  | String a (String b _) =>
      Ascii.eqb a "0" && (Ascii.eqb b "x" || Ascii.eqb b "X")
  | _ => false
  end.

Definition dropPrefix2 (s : string) : string :=
  match s with String _ (String _ r) => r | _ => EmptyString end.

(** go-ethereum's [common.FromHex]: an optional 0x or 0X prefix, a leading
    zero for an odd number of digits, decoding errors dropped. *)
Definition FromHex (s : string) : list Z :=
  let s1 := if has0xPrefix s then dropPrefix2 s else s in
  let s2 := if Nat.odd (String.length s1) then String "0" s1 else s1 in
  fst (hexDecodeString s2).

Fixpoint beBytes (fuel : nat) (n : Z) (acc : list Z) : list Z :=
  match fuel with
  | O => acc
  | S fuel' =>
      if n =? 0 then acc else beBytes fuel' (n / 256) (n mod 256 :: acc)
  end.

(** [Bytes()] of a [big.Int]: the big-endian bytes of the absolute value, none
    for zero.  The bound on the number of steps is never reached
    ([beBytes_value] below). *)
Definition bigBytes (n : Z) : list Z :=
  let a := Z.abs n in beBytes (S (Z.to_nat (Z.log2 a))) a [].

(** The integer that big-endian bytes denote. *)
Definition beValue (l : list Z) : Z :=
  fold_left (fun acc b => 256 * acc + b) l 0.

(** [for len(value) < byteLength { value = append([]byte{0}, value...) }] *)
Definition padLeft (byteLength : Z) (v : list Z) : list Z :=
  replicate (Z.to_nat (byteLength - len v)) 0 ++ v.

(** [signature := append(reply[1:], reply[0])] *)
Definition rotateSignature (reply : list Z) : list Z :=
  match reply with
  | [] => []
  | v :: rs => rs ++ [v]
  end.

Definition SignatureLength : Z := 65.

(** ** Calls on a device *)

Section Transport.
Context {Dev Req : Type}.

(** The device and every request handed to it so far, oldest first. *)
Record world : Type := mkWorld { device : Dev; log : list Req }.

Definition M (A : Type) : Type := world -> result A * world.

Definition ret {A} (a : A) : M A := fun w => (Ok a, w).
Definition fail {A} (e : error) : M A := fun w => (Err e, w).
Definition lift {A} (r : result A) : M A := fun w => (r, w).

Definition bind {A B} (m : M A) (k : A -> M B) : M B :=
  fun w =>
    match m w with
    | (Ok a, w') => k a w'
    | (Err e, w') => (Err e, w')
    | (Panic p, w') => (Panic p, w')
    | (Exhausted, w') => (Exhausted, w')
    end.

(** [fmt.Errorf(context + ": %w", err)] on the error of [m]. *)
Definition wrapErr {A} (context : string) (m : M A) : M A :=
  fun w =>
    match m w with
    | (Err e, w') => (Err (Wrapf context e), w')
    | other => other
    end.

Fixpoint forEach {A} (l : list A) (f : A -> M unit) : M unit :=
  match l with
  | [] => ret tt
  | x :: r => bind (f x) (fun _ => forEach r f)
  end.
End Transport.

Arguments world : clear implicits.
Arguments M : clear implicits.

Notation "'let*' x ':=' m 'in' k" := (bind m (fun x => k))
  (at level 10, x name, m at level 100, k at level 200).
Notation "'do' m 'then' k" := (bind m (fun _ => k))
  (at level 10, m at level 100, k at level 200).

(** ** The Ledger driver *)

(** One call of [ledgerExchange]: opcode, the two parameters, the data. *)
Record apdu : Type := mkApdu { opcode : Z; p1 : Z; p2 : Z; payload : list Z }.

Definition ledgerOpSignPersonalMessage : Z := 0x08.
Definition ledgerOpEip712SendStructDef : Z := 0x1a.
Definition ledgerOpEip712SendStructImpl : Z := 0x1c.
Definition ledgerP1CompleteSend : Z := 0x00.
Definition ledgerP2StructName : Z := 0x00.
Definition ledgerP2RootStruct : Z := 0x00.
Definition ledgerP2Array : Z := 0x0f.
Definition ledgerP2StructField : Z := 0xff.
Definition ledgerP2FullImplementation : Z := 0x01.

(** The fields of [ledgerDriver] that the signing entry points read:
    the result of [w.offline()] and the firmware version [w.version]. *)
Record ledgerDriver : Type := mkLedgerDriver {
  offline : bool;
  version : Z * Z * Z
}.

(** The type switch of [sendValue] on a value that is neither an array to
    descend nor a struct: the bytes of a leaf. *)
Definition ledgerLeaf (t name : string) (v : value) : result (list Z) :=
  match v with
  | VString s =>
      if String.eqb t "string" then Ok (bytesOf s)
      else if String.prefix "0x" s then
        match hexDecodeString (dropPrefix2 s) with
        | (enc, true) => Ok enc
        | (_, false) =>
            Err (Wrapf ("failed to decode hex string for field " +:+ name)
                       ErrHexDecode)
        end
      else Err (ErrInvalidStringValue name s)
  | VBool b => Ok [if b then 1 else 0]
  | VFloat v => Ok (bigBytes (int64 v))
  | VHexOrDecimal None => Err (ErrNilValue name)
  | VHexOrDecimal (Some h) => Ok (bigBytes h)
  | _ => Err (ErrUnsupportedValue name)
  end.

(** The payload of a struct-field-value message: [uint16(len(enc))] in big
    endian, then [enc]. *)
Definition leafPayload (enc : list Z) : list Z := appendUint16 (len enc) ++ enc.

(** The payload of a struct-field definition, built by [sendField]. *)
Definition fieldPayload (p : parsed) (fieldName : string) : list Z :=
  let typeDesc := dataTypeByte (dt p) in
  let '(typeName, typeSize, typeDesc) :=
    match dt p with
    | CustomType =>
        (toByte (slen (name p)) :: bytesOf (name p), [], typeDesc)
    | IntType | UintType | FixedBytesType =>
        ([], [toByte (byteLength p)], Z.lor typeDesc 0x40)
    | _ => ([], [], typeDesc)
    end in
  let '(arrayLevels, typeDesc) :=
    if 0 <? len (arrayLevels p) then
      (toByte (len (arrayLevels p)) ::
         concat ((fun l => match l with
                           | None => [0]
                           | Some n => [1; toByte n]
                           end) <$> arrayLevels p),
       Z.lor typeDesc 0x80)
    else ([], typeDesc) in
  [typeDesc] ++ typeName ++ typeSize ++ arrayLevels
    ++ [toByte (slen fieldName)] ++ bytesOf fieldName.

Module Ledger.
Section Driver.
Context {Dev : Type}.

(** The transport: [w.ledgerExchange(opcode, p1, p2, data)]. *)
Variable ledgerExchange : Dev -> apdu -> (transportError + list Z) * Dev.

(** Two constants of the driver that are declared next to the
    transport. *)
Variables ledgerOpSignTypedMessage ledgerP1InitTransactionData : Z.

Abbreviation L := (M Dev apdu).

Definition exchange (op p1 p2 : Z) (data : list Z) : L (list Z) :=
  fun w =>
    let a := mkApdu op p1 p2 data in
    let '(r, d) := ledgerExchange (device w) a in
    (match r with
     | inl e => Err (ErrTransport e)
     | inr reply => Ok reply
     end,
     mkWorld d (log w ++ [a])).

(** [[len][4 bytes per component]] *)
Definition flattenPath (derivationPath : list Z) : list Z :=
  toByte (len derivationPath) :: concat (putUint32 <$> derivationPath).

Definition ledgerSignPersonalMessage
    (derivationPath : list Z) (text : list Z) : L (list Z) :=
  let path := flattenPath derivationPath ++ putUint32 (len text) in
  let payload := path ++ text in
  let* reply := exchange ledgerOpSignPersonalMessage
                  ledgerP1InitTransactionData 0 payload in
  if negb (len reply =? SignatureLength) then fail ErrReplyLacksSignature
  else ret (rotateSignature reply).

Section TypedData.
Variable data : TypedData.

Definition sendField (field : Type_) : L unit :=
  let* p := lift (parseType data field) in
  do exchange ledgerOpEip712SendStructDef 0 ledgerP2StructField
       (fieldPayload p (Name field)) then
  ret tt.

Fixpoint sendValue (fuel : nat) (t name : string) (v : value) : L unit :=
  match fuel with
  | O => lift Exhausted
  | S fuel' =>
      match v with
      | VNil => fail (ErrNilValue name)
      | _ =>
          if endsWithBracket t then
            match v with
            | VArray a =>
                do wrapErr "failed to send array length"
                     (exchange ledgerOpEip712SendStructImpl
                        ledgerP1CompleteSend ledgerP2Array
                        [toByte (len a)]) then
                match beforeLastBracket t with
                | None => lift (Panic SliceOutOfRange)
                | Some t' =>
                    forEach a (fun item =>
                      wrapErr "failed to send array item"
                        (sendValue fuel' t' name item))
                end
            | _ => fail (ErrExpectedArray name)
            end
          else
            match Types data !! t with
            | Some s =>
                match v with
                | VMap m =>
                    forEach s (fun field =>
                      wrapErr ("failed to send struct field " +:+ Name field)
                        (sendValue fuel' (Type' field) (Name field)
                           (default VNil (m !! Name field))))
                | _ => fail (ErrExpectedStruct name)
                end
            | None =>
                let* enc := lift (ledgerLeaf t name v) in
                do wrapErr ("failed to send domain field " +:+ name)
                     (exchange ledgerOpEip712SendStructImpl
                        ledgerP1CompleteSend ledgerP2StructField
                        (leafPayload enc)) then
                ret tt
            end
      end
  end.

(** Phase 1: every struct, its name and then its fields.  Go ranges over
    the map in an unspecified order; the embedding takes the map's
    listing. *)
Definition sendStructDefs : L unit :=
  forEach (map_to_list (Types data)) (fun '(name, fields) =>
    do wrapErr ("failed to send type name " +:+ name)
         (exchange ledgerOpEip712SendStructDef 0 ledgerP2StructName
            (bytesOf name)) then
    forEach fields (fun field =>
      wrapErr ("failed to send field " +:+ Name field) (sendField field))).

(** [sendValue] on a whole value: the recursion goes one level down the
    value at each call, so its depth bounds it ([sendValue_total]). *)
Definition sendValueOf (t name : string) (v : value) : L unit :=
  sendValue (S (depth v)) t name v.

(** Phase 2: the domain's values and the message's. *)
Definition sendStructImpls : L unit :=
  do wrapErr "failed to send domain type name"
       (exchange ledgerOpEip712SendStructImpl ledgerP1CompleteSend
          ledgerP2RootStruct (bytesOf "EIP712Domain")) then
  do wrapErr "failed to send domain fields"
       (sendValueOf "EIP712Domain" "domain" (VMap (DomainMap data))) then
  do wrapErr "failed to send primary type name"
       (exchange ledgerOpEip712SendStructImpl ledgerP1CompleteSend
          ledgerP2RootStruct (bytesOf (PrimaryType data))) then
  wrapErr "failed to send primary type fields"
    (sendValueOf (PrimaryType data) "message" (VMap (Message data))).

(** Phase 3: the signing request and the signature it brings back. *)
Definition requestSignature (derivationPath : list Z) : L (list Z) :=
  let* reply := exchange ledgerOpSignTypedMessage 0
                  ledgerP2FullImplementation
                  (flattenPath derivationPath) in
  if negb (len reply =? SignatureLength)
  then fail (ErrInvalidSignatureLength (len reply))
  else ret (rotateSignature reply).

Definition ledgerSignTypedData (derivationPath : list Z) : L (list Z) :=
  match Types data !! "EIP712Domain" with
  | None => fail ErrDomainTypeRequired
  | Some _ =>
      match Types data !! PrimaryType data with
      | None => fail (ErrPrimaryTypeNotFound (PrimaryType data))
      | Some _ =>
          do sendStructDefs then
          do sendStructImpls then
          requestSignature derivationPath
      end
  end.
End TypedData.

(** [w.version[0] < 1 && w.version[1] < 5] *)
Definition versionRejected (v : Z * Z * Z) : bool :=
  let '(major, minor, _) := v in (major <? 1) && (minor <? 5).

Definition versionError (v : Z * Z * Z) : error :=
  let '(major, minor, patch) := v in ErrLedgerVersion major minor patch.

Definition SignText
    (w : ledgerDriver) (path : list Z) (text : list Z) : L (list Z) :=
  if offline w then fail ErrWalletClosed
  else if versionRejected (version w) then fail (versionError (version w))
  else ledgerSignPersonalMessage path text.

Definition SignedTypedData
    (w : ledgerDriver) (path : list Z) (data : TypedData) : L (list Z) :=
  if offline w then fail ErrWalletClosed
  else if versionRejected (version w) then fail (versionError (version w))
  else ledgerSignTypedData data path.
End Driver.
End Ledger.
Import Ledger.

(** ** The Trezor driver *)

(** [trezor.EthereumTypedDataStructAck_EthereumDataType] *)
Inductive EthereumDataType : Type :=
| Ack_UINT | Ack_INT | Ack_BYTES | Ack_STRING
| Ack_BOOL | Ack_ADDRESS | Ack_ARRAY | Ack_STRUCT.

(** [trezor.EthereumTypedDataStructAck_EthereumFieldType] *)
Inductive EthereumFieldType : Type :=
| FieldType (DataType : EthereumDataType) (Size : option Z)
            (EntryType : option EthereumFieldType)
            (StructName : option string).

Record EthereumStructMember : Type := mkMember {
  memberName : string;
  memberType : EthereumFieldType
}.

(** What the host sends: the requests of the two signing calls and the two
    acknowledgements.  A member path is a list of [uint32] indices. *)
Inductive trezorRequest : Type :=
| EthereumSignMessage (AddressN : list Z) (Message : list Z)
| EthereumSignTypedData (AddressN : list Z) (PrimaryType : string)
                        (ShowMessageHash : list Z)
| EthereumTypedDataStructAck (Members : list EthereumStructMember)
| EthereumTypedDataValueAck (Value : list Z).

(** What [trezorExchange] hands back when it is given the three result
    slots of the typed-data loop: the index of the slot that was filled, with
    its content. *)
Inductive trezorReply : Type :=
| EthereumTypedDataSignature (Signature : list Z)          (* n = 0 *)
| EthereumTypedDataStructRequest (Name : string)           (* n = 1 *)
| EthereumTypedDataValueRequest (MemberPath : list nat).   (* n = 2 *)

Record trezorDriver : Type := mkTrezorDriver {
  hasDevice : bool;               (* w.device != nil *)
  trezorVersion : Z * Z * Z
}.

Definition uint32 (n : Z) : Z := n mod 4294967296.

(** The bind of [result], for the parts of the driver that send nothing. *)
Definition andThen {A B} (r : result A) (k : A -> result B) : result B :=
  match r with
  | Ok a => k a
  | Err e => Err e
  | Panic p => Panic p
  | Exhausted => Exhausted
  end.

Fixpoint mapResult {A B} (f : A -> result B) (l : list A) : result (list B) :=
  match l with
  | [] => Ok []
  | x :: r =>
      andThen (f x) (fun y => andThen (mapResult f r) (fun ys => Ok (y :: ys)))
  end.

(** [s[a:b]] *)
Definition slice (a b : nat) (s : list Z) : result (list Z) :=
  if (b <=? length s)%nat then Ok (take (b - a) (drop a s))
  else Panic SliceOutOfRange.

(** The nest of ARRAY types around a field's type: the loop runs from the
    last dimension to the first, so the last one is outermost. *)
Fixpoint wrapArrays (dims : list (option Z)) (inner : EthereumFieldType)
    : EthereumFieldType :=
  match dims with
  | [] => inner
  | d :: r =>
      FieldType Ack_ARRAY (uint32 <$> d) (Some (wrapArrays r inner)) None
  end.

Section TrezorQueries.
Variable data : TypedData.

Definition fieldTypeOf (p : parsed) : EthereumFieldType :=
  let ubyteLength := uint32 (byteLength p) in
  let inner :=
    match dt p with
    | CustomType =>
        FieldType Ack_STRUCT
          (Some (uint32 (len (default [] (Types data !! name p)))))
          None (Some (name p))
    | IntType => FieldType Ack_INT (Some ubyteLength) None None
    | UintType => FieldType Ack_UINT (Some ubyteLength) None None
    | AddressType => FieldType Ack_ADDRESS None None None
    | BoolType => FieldType Ack_BOOL None None None
    | StringType => FieldType Ack_STRING None None None
    | FixedBytesType => FieldType Ack_BYTES (Some ubyteLength) None None
    | BytesType => FieldType Ack_BYTES None None None
    end in
  wrapArrays (rev (arrayLevels p)) inner.

(** [case 1]: the answer to a struct-type query. *)
Definition structAck (structName : string) : result trezorRequest :=
  let fields := default [] (Types data !! structName) in
  if len fields =? 0 then Err (ErrNoFields structName)
  else
    andThen
      (mapResult (fun field =>
         andThen (parseType data field) (fun p =>
           Ok (mkMember (Name field) (fieldTypeOf p)))) fields)
      (fun members => Ok (EthereumTypedDataStructAck members)).

(** The encoding of the last value of a path, by the field's type. *)
Definition trezorLeaf (p : parsed) (nextValue : value) (at_ : list nat)
    : result (list Z) :=
  match dt p with
  | CustomType => Err (ErrCannotEncodeCustom (name p) at_)
  | IntType | UintType | AddressType | FixedBytesType =>
      let value :=
        match nextValue with
        | VString str => FromHex str
        | VFloat f => bigBytes (int64 f)
        | _ => []
        end in
      if byteLength p <? len value
      then Err (ErrValueTooLong at_ (len value) (byteLength p))
      else Ok (padLeft (byteLength p) value)
  | BoolType =>
      match nextValue with
      | VBool b => Ok [if b then 1 else 0]
      | _ => Err (ErrExpectedBool at_)
      end
  | StringType =>
      match nextValue with
      | VString str => Ok (bytesOf str)
      | _ => Err (ErrExpectedString at_)
      end
  | BytesType =>
      match nextValue with
      | VString str => Ok (FromHex str)
      | _ => Err (ErrExpectedBytes at_)
      end
  end.

Section Path.
Variable MemberPath : list nat.

(** [i < len(valueRequest.MemberPath)-1] *)
Definition beforeLast (i : nat) : bool :=
  Z.of_nat i <? len MemberPath - 1.

(** The inner loop, [for j := 0; j < len(arrays) && i < len(path)-1;
    i, j = i+1, j+1]: [dims] is [len(arrays) - j].  It returns the new
    [i] and [nextValue]. *)
Fixpoint descend (dims i : nat) (nextValue : value) : result (nat * value) :=
  match dims with
  | O => Ok (i, nextValue)
  | S dims' =>
      if beforeLast i then
        match nextValue with
        | VNil => Panic NilDereference
        | VArray a =>
            match MemberPath !! S i with
            | None => Panic IndexOutOfRange
            | Some p =>
                match a !! p with
                | None =>
                    Err (ErrInvalidArrayIndex p (take (S i) MemberPath))
                | Some item => descend dims' (S i) item
                end
            end
        | _ => Err (ErrExpectedArrayAt (take (S i) MemberPath))
        end
      else Ok (i, nextValue)
  end.

(** The end of the body of the outer loop, after the inner loop: the kind
    of [nextValue] decides between going on inside a struct, the length of
    an array and the encoding of a leaf.  [continue] is the loop itself,
    entered again at its test after [i++]. *)
Definition afterArrays
    (continue : nat -> option (list Type_) -> gmap string value ->
                list Z -> bool -> result (list Z * bool))
    (ps : parsed) (i : nat) (nextValue : value)
    (structType : option (list Type_)) (structValue : gmap string value)
    (value : list Z) (nestedArray : bool) : result (list Z * bool) :=
  match nextValue with
  | VNil => Panic NilDereference
  | VMap m =>
      if beforeLast i then
        continue (S i) (Types data !! name ps) m value nestedArray
      else
        andThen (trezorLeaf ps nextValue (take (S i) MemberPath))
          (fun value => continue (S i) structType structValue value nestedArray)
  | VArray a =>
      if beforeLast i then Err (ErrExpectedMapAt (take (S i) MemberPath))
      else
        continue (S i) structType structValue (appendUint16 (len a))
          nestedArray
  | _ =>
      if beforeLast i then Err (ErrExpectedMapAt (take (S i) MemberPath))
      else
        andThen (trezorLeaf ps nextValue (take (S i) MemberPath))
          (fun value => continue (S i) structType structValue value nestedArray)
  end.

(** The outer loop, [for i := 1; i < len(path); i++], from its state at
    the test of the condition.  It returns [value] and [nestedArray].
    Every turn advances [i], so [length MemberPath] turns are enough. *)
Fixpoint walk (fuel i : nat) (structType : option (list Type_))
    (structValue : gmap string value) (value : list Z)
    (nestedArray : bool) : result (list Z * bool) :=
  if negb (i <? length MemberPath)%nat then Ok (value, nestedArray)
  else
    match fuel with
    | O => Exhausted
    | S fuel' =>
        match MemberPath !! i, structType with
        | None, _ => Panic IndexOutOfRange
        | Some _, None => Err ErrNoStructType
        | Some p, Some fields =>
            match fields !! p with
            | None => Err (ErrInvalidFieldIndex p)
            | Some field =>
                let nextValue := default VNil (structValue !! Name field) in
                andThen (parseType data field) (fun ps =>
                let nestedArray :=
                  nestedArray || (1 <? len (arrayLevels ps)) in
                andThen (descend (length (arrayLevels ps)) i nextValue)
                  (fun '(i, nextValue) =>
                     afterArrays (walk fuel') ps i nextValue structType
                       structValue value nestedArray))
            end
        end
    end.

(** [case 2]: the answer to a value query, with the flag it leaves. *)
Definition valueAck : result (list Z * bool) :=
  match MemberPath !! 0%nat with
  | None => Panic IndexOutOfRange
  | Some p0 =>
      let '(structType, structValue) :=
        if (p0 =? 0)%nat
        then (Types data !! "EIP712Domain", DomainMap data)
        else (Types data !! PrimaryType data, Message data) in
      walk (length MemberPath) 1 structType structValue [] false
  end.
End Path.
End TrezorQueries.

(** ** The value query, in the words of the specification

    The first index selects the domain or the message; every further index
    selects a field by its declared position in the current struct, or an
    element of the current array; a path that ends at an array is answered
    with the number of its elements, one that ends at a leaf with its
    encoding.  A position is the current struct, or the value of a selected
    field with the number of its array dimensions that are still to
    descend. *)
Inductive position : Type :=
| AtStruct (fields : option (list Type_)) (members : gmap string value)
| AtValue (ps : parsed) (dims : nat) (v : value).

(** What an index selected: a field, with its resolved type, or an element
    of an array. *)
Inductive step : Type :=
| FieldStep (ps : parsed)
| ElementStep.

Section Resolve.
Variable data : TypedData.

Definition selectField (fields : option (list Type_))
    (members : gmap string value) (p : nat) : result (position * step) :=
  match fields with
  | None => Err ErrNoStructType
  | Some fs =>
      match fs !! p with
      | None => Err (ErrInvalidFieldIndex p)
      | Some field =>
          andThen (parseType data field) (fun ps =>
            Ok (AtValue ps (length (arrayLevels ps))
                  (default VNil (members !! Name field)),
                FieldStep ps))
      end
  end.

(** One more index [p], after the indices [done]. *)
Definition select (done : list nat) (pos : position) (p : nat)
    : result (position * step) :=
  match pos with
  | AtStruct fields members => selectField fields members p
  | AtValue ps dims v =>
      match v, dims with
      | VNil, _ => Panic NilDereference
      | VArray a, S dims' =>
          match a !! p with
          | None => Err (ErrInvalidArrayIndex p done)
          | Some item => Ok (AtValue ps dims' item, ElementStep)
          end
      | _, S _ => Err (ErrExpectedArrayAt done)
      | VMap members, O => selectField (Types data !! name ps) members p
      | _, O => Err (ErrExpectedMapAt done)
      end
  end.

(** The reply when the path ends at [pos]. *)
Definition answer (done : list nat) (pos : position) : result (list Z) :=
  match pos with
  | AtStruct _ _ => Ok []
  | AtValue ps _ v =>
      match v with
      | VNil => Panic NilDereference
      | VArray a => Ok (appendUint16 (len a))
      | _ => trezorLeaf ps v done
      end
  end.

(** The position that the indices [path] lead to from [pos], with the
    steps taken. *)
Fixpoint reach (path done : list nat) (pos : position)
    : result (position * list step) :=
  match path with
  | [] => Ok (pos, [])
  | p :: rest =>
      andThen (select done pos p) (fun '(pos', s) =>
        andThen (reach rest (done ++ [p]) pos') (fun '(pos'', steps) =>
          Ok (pos'', s :: steps)))
  end.

Definition root (p0 : nat) : position :=
  if (p0 =? 0)%nat
  then AtStruct (Types data !! "EIP712Domain") (DomainMap data)
  else AtStruct (Types data !! PrimaryType data) (Message data).

(** The reply to the member path [p0 :: rest] and the steps taken. *)
Definition resolve (p0 : nat) (rest : list nat) : result (list Z * list step) :=
  andThen (reach rest [p0] (root p0)) (fun '(pos, steps) =>
    andThen (answer (p0 :: rest) pos) (fun v => Ok (v, steps))).
End Resolve.

(** A field was selected whose type is declared with more than one array
    dimension. *)
Definition declaresNested (steps : list step) : bool :=
  existsb (fun s => match s with
                    | FieldStep ps => 1 <? len (arrayLevels ps)
                    | ElementStep => false
                    end) steps.


Module Trezor.
Section Driver.
Context {Dev : Type}.

(** The transport.  [trezorExchange] stands for the call with the three
    result slots of the typed-data loop, [trezorExchangeMessage] for the
    call of [SignText], whose only slot is the message signature. *)
Variable trezorExchange :
  Dev -> trezorRequest -> (transportError + trezorReply) * Dev.
Variable trezorExchangeMessage :
  Dev -> trezorRequest -> (transportError + list Z) * Dev.

(** [trezor.Failure_Failure_FirmwareError], a constant of the protocol
    package. *)
Variable Failure_FirmwareError : Z.

(** go-ethereum's [apitypes.TypedDataAndHash], of which the driver keeps
    the second result (the raw digest) and the error. *)
Variable TypedDataAndHash : TypedData -> error + list Z.

Abbreviation T := (M Dev trezorRequest).

(** [w.SignTypedHash(path, domainHash, messageHash)], the hash-signing
    entry point of the driver. *)
Variable SignTypedHash : list Z -> list Z -> list Z -> T (list Z).

Definition SignText
    (w : trezorDriver) (path : list Z) (text : list Z) : T (list Z) :=
  if negb (hasDevice w) then fail ErrWalletClosed
  else fun st =>
    let req := EthereumSignMessage path text in
    let '(r, d) := trezorExchangeMessage (device st) req in
    let st' := mkWorld d (log st ++ [req]) in
    match r with
    | inl e => (Err (ErrTransport e), st')
    | inr signature => (Ok signature, st')
    end.

(** [errors.As(err, &trezorFailure) && trezorFailure.Code != nil &&
    *trezorFailure.Code == trezor.Failure_Failure_FirmwareError] *)
Definition isFirmwareError (e : transportError) : bool :=
  match e with
  | TrezorFailure (Some code) _ => code =? Failure_FirmwareError
  | _ => false
  end.

(** The [for] loop of [SignedTypedData], entered with the request to send
    and the flag. *)
Fixpoint interact (data : TypedData) (fuel : nat) (req : trezorRequest)
    (nestedArray : bool) : T (list Z) :=
  match fuel with
  | O => lift Exhausted
  | S fuel' => fun st =>
      let '(r, d) := trezorExchange (device st) req in
      let st' := mkWorld d (log st ++ [req]) in
      match r with
      | inl e =>
          if nestedArray && isFirmwareError e
          then (Err (Wrapf nestedArraysContext (ErrTransport e)), st')
          else (Err (ErrTransport e), st')
      | inr (EthereumTypedDataSignature signature) => (Ok signature, st')
      | inr (EthereumTypedDataStructRequest structName) =>
          match structAck data structName with
          | Ok ack => interact data fuel' ack false st'
          | Err e => (Err e, st')
          | Panic p => (Panic p, st')
          | Exhausted => (Exhausted, st')
          end
      | inr (EthereumTypedDataValueRequest MemberPath) =>
          match valueAck data MemberPath with
          | Ok (value, nestedArray') =>
              interact data fuel' (EthereumTypedDataValueAck value)
                nestedArray' st'
          | Err e => (Err e, st')
          | Panic p => (Panic p, st')
          | Exhausted => (Exhausted, st')
          end
      end
  end.

Definition SignedTypedData
    (w : trezorDriver) (fuel : nat) (path : list Z) (data : TypedData)
    : T (list Z) :=
  if negb (hasDevice w) then fail ErrWalletClosed
  else
    match TypedDataAndHash data with
    | inl e => fail (Wrapf "trezor: error hashing typed data" e)
    | inr hashes =>
        let* domainHash := lift (slice 2 34 hashes) in
        let* messageHash := lift (slice 34 66 hashes) in
        if (trezorVersion w).1.1 =? 1
        then SignTypedHash path domainHash messageHash
        else interact data fuel
               (EthereumSignTypedData path (PrimaryType data) messageHash)
               false
    end.
End Driver.
End Trezor.
Import Trezor.

(** ** The device enumerators *)

(** *** hid.go and usb.go

    The two files hold the same code, over the packages [hid] and [usb];
    [hidEnumerator] below stands for [usbEnumerator] of usb.go as well. *)
Module Hid.

(** The fields of [hid.DeviceInfo] (and [usb.DeviceInfo]) that are read. *)
Record DeviceInfo : Type := mkDeviceInfo {
  Path : string;
  ProductID : Z;        (* uint16 *)
  UsagePage : Z;        (* uint16 *)
  Interface : Z         (* int *)
}.

Record hidEnumerator : Type := mkHidEnumerator {
  vendorID : Z;
  productIDs : list Z;
  usageID : Z;
  endpointID : Z
}.

Inductive enumError : Type :=
| UnsupportedPlatform
| EnumerateError (message : string).

Section Enumerate.
(** [hid.Supported()] and [hid.Enumerate(vendorID, productID)]. *)
Variable Supported : bool.
Variable Enumerate : Z -> Z -> enumError + list DeviceInfo.

(** The loop over [e.productIDs] for one device: [infos] after it. *)
Fixpoint scanProducts (e : hidEnumerator) (info : DeviceInfo) (ids : list Z)
    (infos : list DeviceInfo) : list DeviceInfo :=
  match ids with
  | [] => infos
  | id :: rest =>
      let mmOnly := Z.land (ProductID info) 0xff00 in
      if ((ProductID info =? id) || (mmOnly =? id)) &&
         ((UsagePage info =? usageID e) || (Interface info =? endpointID e))
      then infos ++ [info]                       (* append, break *)
      else scanProducts e info rest infos
  end.

(** The loop over the enumerated devices. *)
Fixpoint scanDevices (e : hidEnumerator) (i : list DeviceInfo)
    (infos : list DeviceInfo) : list DeviceInfo :=
  match i with
  | [] => infos
  | info :: rest =>
      scanDevices e rest (scanProducts e info (productIDs e) infos)
  end.

Definition Infos (e : hidEnumerator) : enumError + list DeviceInfo :=
  if negb Supported then inl UnsupportedPlatform
  else
    match Enumerate (vendorID e) 0 with
    | inl err => inl err
    | inr i => inr (scanDevices e i [])
    end.
End Enumerate.
End Hid.

(** *** The enumerator over gousb *)
Module Gousb.

(** The fields of [gousb.DeviceDesc] that are read. *)
Record DeviceDesc : Type := mkDeviceDesc {
  Vendor : Z;           (* gousb.ID, a uint16 *)
  Product : Z
}.

Record usbEnumerator : Type := mkUsbEnumerator {
  vendorID : Z;
  productIDs : list Z
}.

(** The loop of the opener over [e.productIDs]. *)
Fixpoint anyProduct (desc : DeviceDesc) (ids : list Z) : bool :=
  match ids with
  | [] => false
  | id :: rest => if Product desc =? id then true else anyProduct desc rest
  end.

(** The function handed to [OpenDevices] by [Infos]: whether to open the
    device described by [desc]. *)
Definition opener (e : usbEnumerator) (desc : DeviceDesc) : bool :=
  if Vendor desc =? vendorID e
  then (if anyProduct desc (productIDs e) then true else false)
  else false.
End Gousb.

(** ** Devices and documents used in examples *)

Definition emptyData : TypedData := mkTypedData ∅ EmptyString ∅ ∅.

(** A Ledger that accepts every message and answers with no data. *)
Definition acceptingLedger (d : unit) (a : apdu)
    : (transportError + list Z) * unit :=
  (inr [], d).

(** A Ledger that answers every message with the same bytes. *)
Definition constantLedger (reply : list Z) (d : unit) (a : apdu)
    : (transportError + list Z) * unit :=
  (inr reply, d).

(** A Trezor that answers every request with the same signature. *)
Definition signingTrezor (signature : list Z) (d : unit) (r : trezorRequest)
    : (transportError + trezorReply) * unit :=
  (inr (EthereumTypedDataSignature signature), d).

Definition signingTrezorMessage (signature : list Z) (d : unit)
    (r : trezorRequest) : (transportError + list Z) * unit :=
  (inr signature, d).

(** A Trezor driven by a script: the device state is the list of replies
    still to give; past its end the device reports a fault. *)
Definition scriptedTrezor (d : list (transportError + trezorReply))
    (r : trezorRequest)
    : (transportError + trezorReply) * list (transportError + trezorReply) :=
  match d with
  | [] => (inl (TransportFault "no reply"), [])
  | x :: d' => (x, d')
  end.

Definition zeroDigest (data : TypedData) : error + list Z :=
  inr (replicate 66 0).

Definition noHashSigning {Dev} (path domainHash messageHash : list Z)
    : M Dev trezorRequest (list Z) :=
  fail ErrWalletClosed.

Definition start {Dev Req} (d : Dev) : world Dev Req := mkWorld d [].

(** The struct [{a: uint8, b: string}] with the value [{a: 5, b: "hi"}]. *)
Definition pairData : TypedData :=
  mkTypedData {[ "S" := [mkType "a" "uint8"; mkType "b" "string"] ]} "S" ∅
    (<["a" := VFloat 5]> (<["b" := VString "hi"]> ∅)).

(** [Mail{from: string, to: string}] with [{from: "x", to: "y"}]. *)
Definition mailData : TypedData :=
  mkTypedData
    {[ "Mail" := [mkType "from" "string"; mkType "to" "string"] ]} "Mail" ∅
    (<["from" := VString "x"]> (<["to" := VString "y"]> ∅)).

(** A message with one field of two array dimensions. *)
Definition gridData : TypedData :=
  mkTypedData {[ "Grid" := [mkType "cells" "uint8[][]"] ]} "Grid" ∅
    {[ "cells" := VArray [VArray [VFloat 1]; VArray [VFloat 2; VFloat 3]] ]}.

(** A document that declares a struct called [uint]. *)
Definition shadowData : TypedData :=
  mkTypedData {[ "uint" := [mkType "x" "bool"] ]} "uint" ∅ ∅.

(** [pairData] with an empty domain struct declared. *)
Definition pairDomainData : TypedData :=
  mkTypedData
    {[ "EIP712Domain" := [];
       "S" := [mkType "a" "uint8"; mkType "b" "string"] ]} "S" ∅
    (<["a" := VFloat 5]> (<["b" := VString "hi"]> ∅)).

(** A struct named with a closing bracket and no opening one, and a field
    of that type holding an array. *)
Definition bracketData : TypedData :=
  mkTypedData
    {[ "EIP712Domain" := [];
       "M" := [mkType "f" "T]"];
       "T]" := [mkType "x" "uint8"] ]} "M" ∅
    (<["f" := VArray []]> ∅).

(** A domain whose chain id is declared [uint256]. *)
Definition chainData : TypedData :=
  mkTypedData
    {[ "EIP712Domain" := [mkType "name" "string"; mkType "chainId" "uint256"];
       "Mail" := [mkType "from" "string"] ]} "Mail"
    (<["chainId" := VHexOrDecimal (Some 8453)]> ∅)
    (<["from" := VString "x"]> ∅).

(** [pairDomainData] with the value of [b] left out of the message. *)
Definition partialData : TypedData :=
  mkTypedData
    {[ "EIP712Domain" := [];
       "S" := [mkType "a" "uint8"; mkType "b" "string"] ]} "S" ∅
    (<["a" := VFloat 5]> ∅).

(** ** Notions used in the statements *)

(** The device accepts every message. *)
Definition accepts {Dev : Type}
    (exch : Dev -> apdu -> (transportError + list Z) * Dev) : Prop :=
  forall d a, exists reply d', exch d a = (inr reply, d').

(** The request that asks a Ledger for the typed-data signature. *)
Definition signRequest (opSign : Z) (path : list Z) : apdu :=
  mkApdu opSign 0 ledgerP2FullImplementation
    (toByte (len path) :: concat (putUint32 <$> path)).

Definition personalRequest (p1Init : Z) (path text : list Z) : apdu :=
  mkApdu ledgerOpSignPersonalMessage p1Init 0
    ((toByte (len path) :: concat (putUint32 <$> path))
       ++ putUint32 (len text) ++ text).

(** A byte that neither is white space nor belongs to a longer rune. *)
Definition plainByte (n : Z) : bool := (n <? 128) && negb (isAsciiSpace n).

(** No opening bracket in [s]. *)
Fixpoint noOpening (s : string) : bool :=
  match s with
  | EmptyString => true
  | String c r => negb (Ascii.eqb c "[") && noOpening r
  end.

(** The flag that a step sets. *)
Definition stepNested (s : step) : bool :=
  match s with
  | FieldStep ps => 1 <? len (arrayLevels ps)
  | ElementStep => false
  end.

(** The reply of the specification's navigation and the steps it took, as
    the pair that the loop returns: the reply and the nested-array flag. *)
Definition withFlag (nestedArray : bool) (r : result (list Z * list step))
    : result (list Z * bool) :=
  andThen r (fun '(v, steps) => Ok (v, nestedArray || declaresNested steps)).

(** To go on from [pos] along [rest] and answer there. *)
Definition finishFrom (data : TypedData) (rest done : list nat)
    (pos : position) : result (list Z * list step) :=
  andThen (reach data rest done pos) (fun '(pos', steps) =>
    andThen (answer (done ++ rest) pos') (fun v => Ok (v, steps))).

(** The body of the loop after a field was selected, entered with [dims]
    array dimensions to go: the inner loop and the end of the body. *)
Definition visit (data : TypedData) (MemberPath : list nat)
    (fuel dims i : nat) (ps : parsed) (v : value)
    (structType : option (list Type_)) (structValue : gmap string value)
    (value : list Z) (nestedArray : bool) : result (list Z * bool) :=
  andThen (descend MemberPath dims i v) (fun '(i, nextValue) =>
    afterArrays data MemberPath (walk data MemberPath fuel) ps i nextValue
      structType structValue value nestedArray).

(** The fields of the struct that an index is looked up in at [pos]. *)
Definition currentStruct (data : TypedData) (pos : position)
    : option (list Type_) :=
  match pos with
  | AtStruct fields _ => fields
  | AtValue ps O (VMap _) => Types data !! name ps
  | AtValue _ _ _ => None
  end.


(** The outcome is the bound of the embedding. *)
Definition exhausted {A} (r : result A) : bool :=
  match r with
  | Exhausted => true
  | _ => false
  end.

(** A call that does not end on a bound, in any world. *)
Definition total {Dev A} (m : M Dev apdu A) : Prop :=
  forall w, exhausted (m w).1 = false.

(** A line feed occurs in [s]. *)
Fixpoint hasLineFeed (s : string) : bool :=
  match s with
  | EmptyString => false
  | String c r => Ascii.eqb c "010" || hasLineFeed r
  end.

(** The array suffixes [[d1][d2]...] for the digit strings [ds], an empty
    one for a dynamic dimension. *)
Fixpoint brackets (ds : list string) : string :=
  match ds with
  | [] => EmptyString
  | d :: r => String "[" (d +:+ String "]" (brackets r))
  end.

(** Every character of [s] is ASCII white space. *)
Fixpoint allSpaces (s : string) : bool :=
  match s with
  | EmptyString => true
  | String c r => isAsciiSpace (byteOf c) && allSpaces r
  end.

(** The result of [parseType] with other array dimensions. *)
Definition withLevels (ps : parsed) (levels : list (option Z)) : parsed :=
  mkParsed (dt ps) (name ps) (byteLength ps) levels.

(** [s] is not empty and its first and last bytes are plain. *)
Definition plainEnds (s : string) : bool :=
  match bytesOf s, rev (bytesOf s) with
  | a :: _, c :: _ => plainByte a && plainByte c
  | _, _ => false
  end.

(** Every character of [s] is a hexadecimal digit, in either case. *)
Fixpoint allHex (s : string) : bool :=
  match s with
  | EmptyString => true
  | String c r => bool_decide (is_Some (fromHexChar c)) && allHex r
  end.

(** The values of a byte. *)
Definition isByte (b : Z) : Prop := 0 <= b < 256.

(** *** Reading a struct-field definition back

    The layout that [sendField] writes, read from the left: the descriptor
    byte (bit 7: array levels follow, bit 6: a size follows, low four bits:
    the kind), the name of a custom type, the size, the array levels and
    the name of the field; names carry their length in one byte. *)
Record fieldDef : Type := mkFieldDef {
  defKind : Z;
  defTypeName : option string;
  defTypeSize : option Z;
  defLevels : list (option Z);
  defName : string
}.

Definition readString (l : list Z) : option (string * list Z) :=
  match l with
  | [] => None
  | n :: r =>
      if (Z.to_nat n <=? length r)%nat
      then Some (stringOf (take (Z.to_nat n) r), drop (Z.to_nat n) r)
      else None
  end.

Fixpoint readLevels (n : nat) (l : list Z)
    : option (list (option Z) * list Z) :=
  match n with
  | O => Some ([], l)
  | S n' =>
      match l with
      | [] => None
      | tag :: r =>
          if tag =? 0 then
            match readLevels n' r with
            | Some (ls, t) => Some (None :: ls, t)
            | None => None
            end
          else if tag =? 1 then
            match r with
            | [] => None
            | b :: r' =>
                match readLevels n' r' with
                | Some (ls, t) => Some (Some b :: ls, t)
                | None => None
                end
            end
          else None
      end
  end.

Definition readFieldDef (payload : list Z) : option fieldDef :=
  match payload with
  | [] => None
  | typeDesc :: r =>
      let kind := Z.land typeDesc 0x0f in
      match (if kind =? 0
             then match readString r with
                  | Some (s, r') => Some (Some s, r')
                  | None => None
                  end
             else Some (None, r)) with
      | None => None
      | Some (typeName, r) =>
          match (if Z.testbit typeDesc 6
                 then match r with
                      | [] => None
                      | b :: r' => Some (Some b, r')
                      end
                 else Some (None, r)) with
          | None => None
          | Some (typeSize, r) =>
              match (if Z.testbit typeDesc 7
                     then match r with
                          | [] => None
                          | c :: r' => readLevels (Z.to_nat c) r'
                          end
                     else Some ([], r)) with
              | None => None
              | Some (levels, r) =>
                  match readString r with
                  | Some (fieldName, []) =>
                      Some (mkFieldDef kind typeName typeSize levels fieldName)
                  | _ => None
                  end
              end
          end
      end
  end.

(** What a definition payload is expected to say about a resolved type. *)
Definition fieldDefOf (p : parsed) (fieldName : string) : fieldDef :=
  mkFieldDef (dataTypeByte (dt p))
    (match dt p with CustomType => Some (name p) | _ => None end)
    (match dt p with
     | IntType | UintType | FixedBytesType => Some (toByte (byteLength p))
     | _ => None
     end)
    ((fun l : option Z => toByte <$> l) <$> arrayLevels p)
    fieldName.

(** Every message that [m] hands to the device satisfies [P]. *)
Definition emits {Dev A} (P : apdu -> Prop) (m : M Dev apdu A) : Prop :=
  forall w, exists added,
    log (m w).2 = log w ++ added /\ Forall P added.

(** The messages of the first phase (struct definitions) and of the second
    (struct values), by their opcode and parameters. *)
Definition isDefinition (a : apdu) : Prop :=
  opcode a = 0x1a /\ p1 a = 0 /\ (p2 a = 0x00 \/ p2 a = 0xff).

Definition isImplementation (a : apdu) : Prop :=
  opcode a = 0x1c /\ p1 a = 0 /\ (p2 a = 0x00 \/ p2 a = 0x0f \/ p2 a = 0xff).

(** The array dimensions around a field type, outermost first, and the type
    of the elements inside them. *)
Fixpoint arrayDims (t : EthereumFieldType)
    : list (option Z) * EthereumFieldType :=
  match t with
  | FieldType Ack_ARRAY size (Some entry) _ =>
      let '(dims, leaf) := arrayDims entry in (size :: dims, leaf)
  | _ => ([], t)
  end.

(** The kinds whose values have a width: int, uint, address and fixed
    bytes. *)
Definition hasWidth (d : dataType) : bool :=
  match d with
  | IntType | UintType | AddressType | FixedBytesType => true
  | _ => false
  end.

(** The two acknowledgements of the Trezor conversation. *)
Definition isAck (req : trezorRequest) : Prop :=
  match req with
  | EthereumTypedDataStructAck _ | EthereumTypedDataValueAck _ => True
  | _ => False
  end.

(** The devices that [Infos] of hid.go and usb.go is to list: one of the
    product identifiers is the device's, or its model part (the upper
    byte), and the usage page or the interface is the enumerator's. *)
Definition wanted (e : Hid.hidEnumerator) (info : Hid.DeviceInfo) : bool :=
  existsb (fun id =>
             (Hid.ProductID info =? id) ||
             (Z.land (Hid.ProductID info) 0xff00 =? id))
          (Hid.productIDs e) &&
  ((Hid.UsagePage info =? Hid.usageID e) ||
   (Hid.Interface info =? Hid.endpointID e)).

(** The width of the type at a position is one that [parseType] returns. *)
Definition widthBound (pos : position) : Prop :=
  match pos with
  | AtStruct _ _ => True
  | AtValue ps _ _ => 0 <= byteLength ps <= 32
  end.

(** A member that the struct named [t] declares has no entry in [m]. *)
Definition missingMember (data : TypedData) (t : string)
    (m : gmap string value) : Prop :=
  exists fields field,
    Types data !! t = Some fields /\ field ∈ fields /\ m !! Name field = None.

(** The values that a value query does not encode: nil and arrays. *)
Definition isNilOrArray (v : value) : bool :=
  match v with
  | VNil | VArray _ => true
  | _ => false
  end.

(** * Properties *)

Example parse_uint256_3_dyn :
  parseType emptyData (mkType "x" "uint256[3][]")
  = Ok (mkParsed UintType "uint" 32 [Some 3; None]).
Proof. vm_compute. reflexivity. Qed.

(** ** The firmware gate of the Ledger driver *)

Lemma versionRejected_spec major minor patch :
  versionRejected (major, minor, patch) = true <-> major < 1 /\ minor < 5.
Proof.
  unfold versionRejected. rewrite andb_true_iff, !Z.ltb_lt. tauto.
Qed.

(** C1 (the code at the failing input).  Firmware 1.4.0 is below 1.5.0, yet
    the gate lets it through: both entry points go on to the signing
    protocol, and [SignText] hands a request to the device. *)
Theorem ledger_gate_admits_1_4_0 :
  forall (Dev : Type) (exch : Dev -> apdu -> (transportError + list Z) * Dev)
         (opSign p1Init : Z) (path text : list Z) (data : TypedData),
    let w := mkLedgerDriver false (1, 4, 0) in
    versionRejected (version w) = false /\
    Ledger.SignText exch p1Init w path text
      = ledgerSignPersonalMessage exch p1Init path text /\
    Ledger.SignedTypedData exch opSign w path data
      = ledgerSignTypedData exch opSign data path /\
    length (log (Ledger.SignText acceptingLedger 0 w [] [] (start tt)).2)
      = 1%nat.
Proof. intros. repeat split. Qed.

(** ** Schema checks and the transport *)

(** C6.  Schema errors leave the transport alone.  On the Ledger, a document
    without [EIP712Domain] or without the struct named by [PrimaryType] is
    refused with a schema error in the very world the call started in: no
    request is logged and the device is untouched.  On the Trezor, when the
    device asks for a struct that is not declared or has no fields, the
    call ends with a schema error and the log holds the request that brought
    the query as its last entry: nothing is sent after it. *)
Theorem schema_errors_before_transport :
  forall (DevL DevT : Type)
         (exchL : DevL -> apdu -> (transportError + list Z) * DevL) (opSign : Z)
         (exchT : DevT -> trezorRequest ->
                  (transportError + trezorReply) * DevT)
         (firmwareError : Z) (data : TypedData),
    (forall path (st : world DevL apdu),
        Types data !! "EIP712Domain" = None \/
        Types data !! PrimaryType data = None ->
        exists e,
          ledgerSignTypedData exchL opSign data path st = (Err e, st) /\
          kindOf e = SchemaError) /\
    (forall w path (st : world DevL apdu),
        Types data !! "EIP712Domain" = None \/
        Types data !! PrimaryType data = None ->
        exists e,
          Ledger.SignedTypedData exchL opSign w path data st = (Err e, st) /\
          (offline w = false -> versionRejected (version w) = false ->
           kindOf e = SchemaError)) /\
    (forall fuel req nestedArray (st : world DevT trezorRequest) structName d',
        exchT (device st) req
          = (inr (EthereumTypedDataStructRequest structName), d') ->
        Types data !! structName = None \/
        Types data !! structName = Some [] ->
        interact exchT firmwareError data (S fuel) req nestedArray st
          = (Err (ErrNoFields structName), mkWorld d' (log st ++ [req])) /\
        kindOf (ErrNoFields structName) = SchemaError).
Proof.
  intros.
  assert (HA : forall path (st : world DevL apdu),
             Types data !! "EIP712Domain" = None \/
             Types data !! PrimaryType data = None ->
             exists e,
               ledgerSignTypedData exchL opSign data path st
                 = (Err e, st) /\ kindOf e = SchemaError).
  { intros path st H. unfold ledgerSignTypedData.
    destruct (Types data !! "EIP712Domain") eqn:Hd.
    - destruct H as [H | H]; [discriminate |]. rewrite H.
      eexists; split; reflexivity.
    - eexists; split; reflexivity. }
  split; [exact HA |]. split.
  - intros w path st H. unfold Ledger.SignedTypedData.
    destruct (offline w); [eexists; split; [reflexivity | discriminate] |].
    destruct (versionRejected (version w));
      [eexists; split; [reflexivity | discriminate] |].
    destruct (HA path st H) as (e & He & Hk).
    exists e. split; [exact He | intros _ _; exact Hk].
  - intros fuel req nestedArray st structName d' Hx Hs. split; [| reflexivity].
    simpl. rewrite Hx. unfold structAck.
    destruct Hs as [-> | ->]; reflexivity.
Qed.

Lemma schema_errors_before_transport_witness :
  (exists e,
      ledgerSignTypedData acceptingLedger 12 emptyData [] (start tt)
        = (Err e, start tt) /\ kindOf e = SchemaError) /\
  interact
    (scriptedTrezor) 99 mailData 1 (EthereumTypedDataValueAck []) false
    (start [inr (EthereumTypedDataStructRequest "Person")])
  = (Err (ErrNoFields "Person"),
     mkWorld [] [EthereumTypedDataValueAck []]).
Proof.
  pose proof (schema_errors_before_transport unit
                (list (transportError + trezorReply))
                acceptingLedger 12 scriptedTrezor 99 emptyData) as [HA _].
  pose proof (schema_errors_before_transport unit
                (list (transportError + trezorReply))
                acceptingLedger 12 scriptedTrezor 99 mailData) as (_ & _ & HB).
  split.
  - apply HA. left. reflexivity.
  - apply (HB 0%nat (EthereumTypedDataValueAck []) false
              (start [inr (EthereumTypedDataStructRequest "Person")])
              "Person" []).
    + reflexivity.
    + left. reflexivity.
Defined.

(** ** The legacy fallback of the Trezor driver *)

(** C9.  On a device of major version 1 the typed-data call never enters
    the loop of queries: its outcome is the same whatever the transport of
    the loop is and whatever the bound on its turns.  With the device open
    and the 66-byte digest computed, the call is the hash-signing call on
    bytes 2..34 and 34..66 of the digest. *)
Theorem legacy_trezor_signs_hashes :
  forall (Dev : Type)
         (exch : Dev -> trezorRequest -> (transportError + trezorReply) * Dev)
         (firmwareError : Z) (hash : TypedData -> error + list Z)
         (signHash : list Z -> list Z -> list Z -> M Dev trezorRequest (list Z))
         (w : trezorDriver) (fuel : nat) (path : list Z) (data : TypedData),
    (trezorVersion w).1.1 = 1 ->
    (forall exch' firmwareError' fuel',
        Trezor.SignedTypedData exch firmwareError hash signHash w fuel path data
        = Trezor.SignedTypedData exch' firmwareError' hash signHash w fuel'
            path data) /\
    (forall D,
        hasDevice w = true -> hash data = inr D -> length D = 66%nat ->
        Trezor.SignedTypedData exch firmwareError hash signHash w fuel path data
        = signHash path (take 32 (drop 2 D)) (take 32 (drop 34 D)) /\
        length (take 32 (drop 2 D)) = 32%nat /\
        length (take 32 (drop 34 D)) = 32%nat).
Proof.
  intros Dev exch fe hash signHash w fuel path data Hv. split.
  - intros exch' fe' fuel'. unfold Trezor.SignedTypedData.
    rewrite Hv. reflexivity.
  - intros D Hdev Hh Hlen. split.
    + unfold Trezor.SignedTypedData. rewrite Hdev, Hh. simpl negb. cbv iota.
      unfold slice. rewrite Hlen. simpl Nat.leb. cbv iota.
      unfold bind, lift. rewrite Hv. reflexivity.
    + rewrite !length_take, !length_drop, Hlen. split; reflexivity.
Qed.

Lemma legacy_trezor_signs_hashes_witness :
  Trezor.SignedTypedData (signingTrezor []) 99 zeroDigest noHashSigning
    (mkTrezorDriver true (1, 8, 0)) 0 [] mailData
  = noHashSigning [] (replicate 32 0) (replicate 32 0).
Proof.
  exact (proj1 (proj2 (legacy_trezor_signs_hashes unit (signingTrezor []) 99
                  zeroDigest noHashSigning (mkTrezorDriver true (1, 8, 0))
                  0%nat [] mailData eq_refl)
                  (replicate 66 0) eq_refl eq_refl eq_refl)).
Defined.

(** ** The empty member path *)

(** C10.  A value query with an empty member path is not answered with an
    error: reading its first index panics, in the handler, in the loop, and
    so in the signing call, which a device can drive there with its first
    reply. *)
Theorem empty_member_path_panics :
  forall (Dev : Type)
         (exch : Dev -> trezorRequest -> (transportError + trezorReply) * Dev)
         (firmwareError : Z) (hash : TypedData -> error + list Z)
         (signHash : list Z -> list Z -> list Z -> M Dev trezorRequest (list Z))
         (data : TypedData),
    valueAck data [] = Panic IndexOutOfRange /\
    isErr (valueAck data []) = false /\
    (forall fuel req nestedArray (st : world Dev trezorRequest) d',
        exch (device st) req = (inr (EthereumTypedDataValueRequest []), d') ->
        interact exch firmwareError data (S fuel) req nestedArray st
          = (Panic IndexOutOfRange, mkWorld d' (log st ++ [req]))) /\
    (forall w fuel path (st : world Dev trezorRequest) D d',
        hasDevice w = true -> (trezorVersion w).1.1 <> 1 ->
        hash data = inr D -> length D = 66%nat ->
        let req :=
          EthereumSignTypedData path (PrimaryType data)
            (take 32 (drop 34 D)) in
        exch (device st) req = (inr (EthereumTypedDataValueRequest []), d') ->
        Trezor.SignedTypedData exch firmwareError hash signHash w (S fuel)
          path data st
        = (Panic IndexOutOfRange, mkWorld d' (log st ++ [req]))).
Proof.
  intros. repeat split.
  - intros fuel req nestedArray st d' Hx. simpl. rewrite Hx. reflexivity.
  - intros w fuel path st D d' Hdev Hv Hh Hlen req Hx.
    unfold Trezor.SignedTypedData, bind, lift, slice.
    rewrite Hdev, Hh, Hlen.
    destruct (Z.eqb_spec (trezorVersion w).1.1 1); [contradiction |].
    subst req. cbn [negb Nat.leb Nat.sub interact]. rewrite Hx. reflexivity.
Qed.

Lemma empty_member_path_panics_witness :
  Trezor.SignedTypedData scriptedTrezor 99 zeroDigest noHashSigning
    (mkTrezorDriver true (2, 7, 0)) 1 [] mailData
    (start [inr (EthereumTypedDataValueRequest [])])
  = (Panic IndexOutOfRange,
     mkWorld [] [EthereumSignTypedData [] "Mail" (replicate 32 0)]).
Proof.
  pose proof (empty_member_path_panics
                (list (transportError + trezorReply)) scriptedTrezor 99
                zeroDigest noHashSigning mailData) as (_ & _ & _ & H).
  apply (H (mkTrezorDriver true (2, 7, 0)) 0%nat []
           (start [inr (EthereumTypedDataValueRequest [])])
           (replicate 66 0) []).
  - reflexivity.
  - discriminate.
  - reflexivity.
  - reflexivity.
  - reflexivity.
Defined.

(** ** Value emission on the Ledger *)

Section LedgerSteps.
Context {Dev : Type}.
Variable exch : Dev -> apdu -> (transportError + list Z) * Dev.


Lemma exchange_accepted op p1 p2 payload (w : world Dev apdu) :
  accepts exch ->
  exists reply d',
    exchange exch op p1 p2 payload w
    = (Ok reply, mkWorld d' (log w ++ [mkApdu op p1 p2 payload])).
Proof.
  intros H. destruct (H (device w) (mkApdu op p1 p2 payload)) as (r & d' & E).
  exists r, d'. unfold exchange. rewrite E. reflexivity.
Qed.

Lemma sendValue_struct data fuel t name m s :
  endsWithBracket t = false ->
  Types data !! t = Some s ->
  sendValue exch data (S fuel) t name (VMap m)
  = forEach s (fun field =>
      wrapErr ("failed to send struct field " +:+ Name field)
        (sendValue exch data fuel (Type' field) (Name field)
           (default VNil (m !! Name field)))).
Proof. intros Hb Ht. simpl. rewrite Hb, Ht. reflexivity. Qed.

(** A leaf that the device accepts: one struct-field-value message. *)
Lemma sendValue_leaf data fuel t name v enc (w : world Dev apdu) :
  accepts exch ->
  endsWithBracket t = false ->
  Types data !! t = None ->
  ledgerLeaf t name v = Ok enc ->
  exists d',
    sendValue exch data (S fuel) t name v w
    = (Ok tt,
       mkWorld d'
         (log w ++ [mkApdu ledgerOpEip712SendStructImpl ledgerP1CompleteSend
                      ledgerP2StructField (leafPayload enc)])).
Proof.
  intros Ha Hb Ht He.
  destruct (exchange_accepted ledgerOpEip712SendStructImpl
              ledgerP1CompleteSend ledgerP2StructField (leafPayload enc) w Ha)
    as (r & d' & E).
  exists d'.
  assert (Hv : v <> VNil) by (intros ->; discriminate).
  destruct v; try congruence; cbn [sendValue]; rewrite Hb, Ht;
    unfold bind, lift, wrapErr; rewrite He, E; reflexivity.
Qed.
End LedgerSteps.

(** C7.  Sending the value [{a: 5, b: "hi"}] of a struct declared as
    [{a: uint8, b: string}] to a device that accepts every message logs two
    messages and no more: struct-field values with payloads [00 01 05] and
    [00 02 68 69], in this order; none of them is an array-length message. *)
Theorem ledger_pair_value_messages :
  forall (Dev : Type) (exch : Dev -> apdu -> (transportError + list Z) * Dev)
         (data : TypedData) (structName fieldName : string)
         (m : gmap string value) (fuel : nat) (w : world Dev apdu),
    accepts exch ->
    endsWithBracket structName = false ->
    Types data !! structName
      = Some [mkType "a" "uint8"; mkType "b" "string"] ->
    Types data !! "uint8" = None ->
    Types data !! "string" = None ->
    m !! "a" = Some (VFloat 5) ->
    m !! "b" = Some (VString "hi") ->
    exists d',
      let sent :=
        [mkApdu ledgerOpEip712SendStructImpl ledgerP1CompleteSend
           ledgerP2StructField [0; 1; 5];
         mkApdu ledgerOpEip712SendStructImpl ledgerP1CompleteSend
           ledgerP2StructField [0; 2; 104; 105]] in
      sendValue exch data (S (S fuel)) structName fieldName (VMap m) w
        = (Ok tt, mkWorld d' (log w ++ sent)) /\
      Forall (fun a => p2 a <> ledgerP2Array) sent.
Proof.
  intros Dev exch data structName fieldName m fuel w Ha Hb Hs H8 Hstr Hma Hmb.
  rewrite (sendValue_struct exch data (S fuel) structName fieldName m _ Hb Hs).
  cbn [forEach Name Type']. rewrite Hma, Hmb. cbn [default from_option id].
  destruct (sendValue_leaf exch data fuel "uint8" "a" (VFloat 5) [5] w
              Ha eq_refl H8 eq_refl) as (d1 & E1).
  destruct (sendValue_leaf exch data fuel "string" "b" (VString "hi")
              [104; 105] (mkWorld d1
                 (log w ++ [mkApdu ledgerOpEip712SendStructImpl
                    ledgerP1CompleteSend ledgerP2StructField
                    (leafPayload [5])]))
              Ha eq_refl Hstr eq_refl) as (d2 & E2).
  exists d2. split.
  - unfold bind at 1. unfold wrapErr at 1. rewrite E1.
    unfold bind at 1. unfold wrapErr at 1. rewrite E2.
    cbn [log]. rewrite <- app_assoc. reflexivity.
  - repeat constructor; discriminate.
Qed.

Lemma ledger_pair_value_messages_witness :
  exists d',
    sendValue acceptingLedger pairData 2 "S" "message"
      (VMap (Message pairData)) (start tt)
    = (Ok tt,
       mkWorld d'
         [mkApdu 28 0 255 [0; 1; 5]; mkApdu 28 0 255 [0; 2; 104; 105]]).
Proof.
  destruct (ledger_pair_value_messages unit acceptingLedger pairData "S"
              "message" (Message pairData) 0%nat (start tt)) as (d' & H & _).
  - intros d a. exists [], d. reflexivity.
  - reflexivity.
  - reflexivity.
  - reflexivity.
  - reflexivity.
  - reflexivity.
  - reflexivity.
  - exists d'. exact H.
Defined.

(** ** The signature envelope *)

Lemma bind_Ok_inv {Dev Req A B} (m : M Dev Req A) (k : A -> M Dev Req B)
    (w w' : world Dev Req) (b : B) :
  bind m k w = (Ok b, w') ->
  exists a w1, m w = (Ok a, w1) /\ k a w1 = (Ok b, w').
Proof.
  unfold bind. destruct (m w) as [[a | e | p |] w1]; try discriminate.
  intros H. exists a, w1. split; [reflexivity | exact H].
Qed.

Lemma rotateSignature_shape (reply : list Z) :
  len reply = SignatureLength ->
  rotateSignature reply
    = take 32 (drop 1 reply) ++ take 32 (drop 33 reply) ++ take 1 reply /\
  length (rotateSignature reply) = 65%nat.
Proof.
  unfold len, SignatureLength. intros H.
  assert (Hl : length reply = 65%nat) by lia.
  destruct reply as [| v rs]; [discriminate |]. simpl in Hl.
  assert (Hrs : length rs = 64%nat) by lia.
  unfold rotateSignature. split.
  - change (drop 1 (v :: rs)) with rs.
    change (drop 33 (v :: rs)) with (drop 32 rs).
    change (take 1 (v :: rs)) with [v].
    rewrite app_assoc. f_equal.
    rewrite <- (take_drop 32 rs) at 1. f_equal.
    symmetry. apply take_ge. rewrite length_drop. lia.
  - rewrite length_app, Hrs. reflexivity.
Qed.


(** C2 (counterexample).  A Trezor that answers the signing request with the
    three bytes [1, 2, 3] makes [SignedTypedData] return those three bytes
    as the signature; and a 65-byte answer comes back as it was sent, not
    rotated. *)
Lemma trezor_signature_unchecked :
  let run signature :=
    (Trezor.SignedTypedData (signingTrezor signature) 99 zeroDigest
       noHashSigning (mkTrezorDriver true (2, 7, 0)) 1 [] mailData
       (start tt)).1 in
  run [1; 2; 3] = Ok [1; 2; 3] /\
  len [1; 2; 3] <> SignatureLength /\
  run (27 :: replicate 64 1) = Ok (27 :: replicate 64 1) /\
  rotateSignature (27 :: replicate 64 1) <> 27 :: replicate 64 1.
Proof. repeat split; try discriminate; vm_compute; reflexivity. Qed.

(** C2 (amended).  The Ledger driver checks and rotates: in both of its
    signing operations a reply [v, r, s] of 65 bytes is returned as
    [r, s, v], any other length is a protocol error, and the typed-data call
    returns a signature only from such a reply to its signing request.  The
    Trezor driver does neither: the signature bytes of the device are
    returned as they are, whatever their number. *)
Theorem signature_envelope :
  forall (DevL DevT : Type)
         (exchL : DevL -> apdu -> (transportError + list Z) * DevL)
         (opSign p1Init : Z)
         (exchT : DevT -> trezorRequest ->
                  (transportError + trezorReply) * DevT)
         (exchTM : DevT -> trezorRequest -> (transportError + list Z) * DevT)
         (firmwareError : Z),
    (forall path text (w : world DevL apdu) reply d',
        exchL (device w) (personalRequest p1Init path text) = (inr reply, d') ->
        (ledgerSignPersonalMessage exchL p1Init path text w).1
        = if len reply =? 65 then Ok (rotateSignature reply)
          else Err ErrReplyLacksSignature) /\
    (forall path (w : world DevL apdu) reply d',
        exchL (device w) (signRequest opSign path) = (inr reply, d') ->
        (requestSignature exchL opSign path w).1
        = if len reply =? 65 then Ok (rotateSignature reply)
          else Err (ErrInvalidSignatureLength (len reply))) /\
    (forall data path (w w' : world DevL apdu) signature,
        ledgerSignTypedData exchL opSign data path w = (Ok signature, w') ->
        exists d reply,
          exchL d (signRequest opSign path) = (inr reply, device w') /\
          len reply = 65 /\ signature = rotateSignature reply) /\
    (forall reply,
        len reply = 65 ->
        rotateSignature reply
        = take 32 (drop 1 reply) ++ take 32 (drop 33 reply) ++ take 1 reply) /\
    kindOf ErrReplyLacksSignature = ProtocolError /\
    (forall n, kindOf (ErrInvalidSignatureLength n) = ProtocolError) /\
    (forall data fuel req nestedArray (st : world DevT trezorRequest)
            signature d',
        exchT (device st) req
          = (inr (EthereumTypedDataSignature signature), d') ->
        interact exchT firmwareError data (S fuel) req nestedArray st
        = (Ok signature, mkWorld d' (log st ++ [req]))) /\
    (forall w path text (st : world DevT trezorRequest) signature d',
        hasDevice w = true ->
        exchTM (device st) (EthereumSignMessage path text)
          = (inr signature, d') ->
        Trezor.SignText exchTM w path text st
        = (Ok signature,
           mkWorld d' (log st ++ [EthereumSignMessage path text]))).
Proof.
  intros. repeat apply conj.
  - intros path text w reply d' E.
    unfold ledgerSignPersonalMessage, bind, exchange, flattenPath.
    unfold personalRequest in E. rewrite <- app_assoc. rewrite E.
    unfold SignatureLength. destruct (len reply =? 65); reflexivity.
  - intros path w reply d' E.
    unfold requestSignature, bind, exchange, flattenPath.
    unfold signRequest in E. rewrite E.
    unfold SignatureLength. destruct (len reply =? 65); reflexivity.
  - intros data path w w' signature H.
    unfold ledgerSignTypedData in H.
    destruct (Types data !! "EIP712Domain"); [| discriminate].
    destruct (Types data !! PrimaryType data); [| discriminate].
    apply bind_Ok_inv in H as (_ & w1 & _ & H).
    apply bind_Ok_inv in H as (_ & w2 & _ & H).
    unfold requestSignature in H.
    apply bind_Ok_inv in H as (reply & w3 & Hx & H).
    unfold exchange, flattenPath in Hx.
    destruct (exchL (device w2) _) as [[e | r] d] eqn:E in Hx;
      [discriminate |].
    injection Hx as -> <-.
    unfold SignatureLength in H.
    destruct (len reply =? 65) eqn:Hl; [| discriminate].
    injection H as <- <-.
    exists (device w2), reply. repeat split.
    + exact E.
    + apply Z.eqb_eq. exact Hl.
  - intros reply H. apply rotateSignature_shape. exact H.
  - reflexivity.
  - reflexivity.
  - intros data fuel req nestedArray st signature d' E.
    simpl. rewrite E. reflexivity.
  - intros w path text st signature d' Hd E.
    unfold Trezor.SignText. rewrite Hd. simpl. rewrite E. reflexivity.
Qed.

Lemma signature_envelope_witness :
  (ledgerSignPersonalMessage (constantLedger (27 :: replicate 64 1)) 0
     [44; 60] [104; 105] (start tt)).1
  = Ok (replicate 64 1 ++ [27]) /\
  (requestSignature (constantLedger [1; 2; 3]) 12 [44; 60] (start tt)).1
  = Err (ErrInvalidSignatureLength 3) /\
  interact (signingTrezor [1; 2; 3]) 99 mailData 1
    (EthereumSignTypedData [] "Mail" []) false (start tt)
  = (Ok [1; 2; 3], mkWorld tt [EthereumSignTypedData [] "Mail" []]).
Proof.
  pose proof (signature_envelope unit unit
                (constantLedger (27 :: replicate 64 1)) 12 0
                (signingTrezor [1; 2; 3]) (signingTrezorMessage []) 99)
    as (H1 & _).
  pose proof (signature_envelope unit unit (constantLedger [1; 2; 3]) 12 0
                (signingTrezor [1; 2; 3]) (signingTrezorMessage []) 99)
    as (_ & H2 & _ & _ & _ & _ & H3 & _).
  repeat apply conj.
  - exact (H1 [44; 60] [104; 105] (start tt) (27 :: replicate 64 1) tt
              eq_refl).
  - exact (H2 [44; 60] (start tt) [1; 2; 3] tt eq_refl).
  - exact (H3 mailData 0%nat (EthereumSignTypedData [] "Mail" []) false
              (start tt) [1; 2; 3] tt eq_refl).
Defined.

(** ** The type resolver *)

Lemma stringOf_bytesOf (s : string) : stringOf (bytesOf s) = s.
Proof.
  unfold stringOf, bytesOf, byteOf. rewrite map_map.
  rewrite (map_ext _ (fun c => c)).
  - rewrite map_id. apply string_of_list_ascii_of_string.
  - intros c. rewrite N2Z.id. apply ascii_N_embedding.
Qed.

Lemma bytesOf_app (s t : string) : bytesOf (s +:+ t) = bytesOf s ++ bytesOf t.
Proof.
  induction s as [| c s IH]; [reflexivity |].
  change (bytesOf (String c s +:+ t)) with (byteOf c :: bytesOf (s +:+ t)).
  rewrite IH. reflexivity.
Qed.


Lemma spaceAtHead_plain (a : Z) (l : list Z) :
  plainByte a = true -> spaceAtHead (a :: l) = 0%nat.
Proof.
  unfold plainByte. rewrite andb_true_iff, negb_true_iff, Z.ltb_lt.
  intros [Ha Hs]. unfold spaceAtHead. rewrite Hs.
  assert (E1 : (a =? 194) = false) by lia.
  assert (E2 : (a =? 225) = false) by lia.
  assert (E3 : (a =? 226) = false) by lia.
  assert (E4 : (a =? 227) = false) by lia.
  rewrite E1, E2, E3, E4. destruct l as [| b [| c l]]; reflexivity.
Qed.

Lemma spaceAtEnd_plain (c : Z) (l : list Z) :
  plainByte c = true -> spaceAtEnd (c :: l) = 0%nat.
Proof.
  unfold plainByte. rewrite andb_true_iff, negb_true_iff, Z.ltb_lt.
  intros [Hc Hs]. unfold spaceAtEnd. rewrite Hs.
  destruct l as [| b l]; [reflexivity |].
  assert (E2 : (spaceAtHead [b; c] =? 2)%nat = false).
  { unfold spaceAtHead. destruct (isAsciiSpace b); [reflexivity |].
    assert (E : (c =? 133) || (c =? 160) = false) by lia.
    rewrite E, andb_false_r. reflexivity. }
  rewrite E2. destruct l as [| a l]; [reflexivity |].
  assert (E3 : (spaceAtHead [a; b; c] =? 3)%nat = false).
  { unfold spaceAtHead. destruct (isAsciiSpace a); [reflexivity |].
    destruct ((a =? 194) && ((b =? 133) || (b =? 160))); [reflexivity |].
    assert (F1 : (c =? 128) = false) by lia.
    assert (F2 : (128 <=? c) = false) by lia.
    assert (F3 : (c =? 168) = false) by lia.
    assert (F4 : (c =? 169) = false) by lia.
    assert (F5 : (c =? 175) = false) by lia.
    assert (F6 : (c =? 159) = false) by lia.
    rewrite F1, F2, F3, F4, F5, F6. simpl. rewrite !andb_false_r.
    reflexivity. }
  rewrite E3. reflexivity.
Qed.

Lemma trimWith_stop (f : list Z -> nat) (n : nat) (l : list Z) :
  f l = 0%nat -> trimWith f n l = l.
Proof. intros H. destruct n; simpl; [| rewrite H]; reflexivity. Qed.

(** A string that starts and ends with plain bytes has nothing to trim. *)
Lemma TrimSpace_plain (s : string) (a c : Z) (l l' : list Z) :
  bytesOf s = a :: l -> rev (bytesOf s) = c :: l' ->
  plainByte a = true -> plainByte c = true ->
  TrimSpace s = s.
Proof.
  intros Hh Ht Ha Hc. unfold TrimSpace.
  rewrite (trimWith_stop spaceAtHead _ (bytesOf s))
    by (rewrite Hh; apply spaceAtHead_plain, Ha).
  rewrite (trimWith_stop spaceAtEnd _ (rev (bytesOf s)))
    by (rewrite Ht; apply spaceAtEnd_plain, Hc).
  rewrite rev_involutive. apply stringOf_bytesOf.
Qed.

Lemma isDigit_plain (c : ascii) :
  isDigit c = true -> plainByte (byteOf c) = true.
Proof.
  unfold isDigit, plainByte, isAsciiSpace. intros H.
  apply andb_true_iff in H as [H1 H2]. lia.
Qed.

Lemma digits_end_plain (d : string) :
  allDigits d = true -> d <> EmptyString ->
  exists c l, rev (bytesOf d) = c :: l /\ plainByte c = true.
Proof.
  induction d as [| x d IH]; [congruence |].
  intros H _. simpl in H. apply andb_true_iff in H as [Hx Hd].
  change (bytesOf (String x d)) with (byteOf x :: bytesOf d).
  cbn [rev].
  destruct d as [| y d'].
  - exists (byteOf x), []. split; [reflexivity | apply isDigit_plain, Hx].
  - destruct (IH Hd) as (c & l & E & Hc); [discriminate |].
    rewrite E. exists c, (l ++ [byteOf x]). split; [reflexivity | exact Hc].
Qed.


Lemma findArrayLengths_none (s : string) :
  noOpening s = true -> findArrayLengths s = [].
Proof.
  induction s as [| c s IH]; [reflexivity |].
  simpl. intros H. apply andb_true_iff in H as [Hc Hs].
  apply negb_true_iff in Hc. rewrite Hc. apply IH, Hs.
Qed.

Lemma noOpening_app (s t : string) :
  noOpening (s +:+ t) = noOpening s && noOpening t.
Proof.
  induction s as [| c s IH]; [reflexivity |].
  simpl. rewrite IH, andb_assoc. reflexivity.
Qed.

Lemma noOpening_digits (d : string) : allDigits d = true -> noOpening d = true.
Proof.
  induction d as [| c d IH]; [reflexivity |].
  simpl. intros H. apply andb_true_iff in H as [Hc Hd].
  rewrite (IH Hd), andb_true_r. apply negb_true_iff.
  destruct (Ascii.eqb_spec c "["); [subst; discriminate | reflexivity].
Qed.

Lemma stripArrays_plain (s : string) :
  noOpening s = true -> stripArrays s = (s, []).
Proof.
  intros H. unfold stripArrays. rewrite (findArrayLengths_none s H).
  reflexivity.
Qed.

Lemma digitsValue_nonneg (d : string) (acc : Z) :
  allDigits d = true -> 0 <= acc -> 0 <= digitsValue acc d.
Proof.
  revert acc. induction d as [| c d IH]; intros acc H Hacc; [exact Hacc |].
  simpl in H. apply andb_true_iff in H as [Hc Hd].
  simpl. apply IH; [exact Hd |]. unfold isDigit in Hc. lia.
Qed.

Lemma Atoi_nonneg (d : string) : allDigits d = true -> 0 <= Atoi d.
Proof.
  intros H. unfold Atoi, maxInt.
  pose proof (digitsValue_nonneg d 0 H). lia.
Qed.

Lemma lazyUntilDigits_stop (pre rest : string) :
  allDigits rest = true -> lazyUntilDigits pre rest = Some (pre, rest).
Proof.
  intros H. destruct rest; simpl; [| simpl in H; rewrite H]; reflexivity.
Qed.

(** The six elementary names, each followed by digits: nothing is trimmed,
    there is no array dimension, and the digits are split off whole. *)
Lemma elementary_name_split (base d : string) (dt : dataType) :
  nameToType base = Some dt ->
  allDigits d = true ->
  TrimSpace (base +:+ d) = base +:+ d /\
  stripArrays (base +:+ d) = (base +:+ d, []) /\
  splitDigits (base +:+ d) = Some (base, d).
Proof.
  intros Hn Hd.
  assert (Hb : In base ["int"; "uint"; "address"; "bool"; "string"; "bytes"]).
  { unfold nameToType in Hn.
    repeat match type of Hn with
           | (if String.eqb ?a ?b then _ else _) = _ =>
               destruct (String.eqb_spec a b);
               [subst; simpl; tauto |]
           end.
    discriminate. }
  split; [| split].
  - destruct d as [| x d'].
    + simpl in Hb.
      repeat destruct Hb as [<- | Hb]; try (vm_compute; reflexivity).
      destruct Hb.
    + destruct (digits_end_plain (String x d') Hd) as (c & l & E & Hc);
        [discriminate |].
      simpl in Hb.
      repeat destruct Hb as [<- | Hb]; try destruct Hb;
        (eapply TrimSpace_plain;
         [ rewrite bytesOf_app; reflexivity
         | rewrite bytesOf_app, rev_app_distr, E; reflexivity
         | reflexivity
         | exact Hc ]).
  - apply stripArrays_plain. rewrite noOpening_app, (noOpening_digits d Hd).
    simpl in Hb. repeat destruct Hb as [<- | Hb]; try destruct Hb; reflexivity.
  - simpl in Hb.
    repeat destruct Hb as [<- | Hb]; try destruct Hb;
      simpl; apply lazyUntilDigits_stop, Hd.
Qed.

Lemma parseType_elementary (data : TypedData) (fieldName base d : string)
    (dt : dataType) :
  nameToType base = Some dt ->
  allDigits d = true ->
  Types data !! (base +:+ d) = None ->
  parseType data (mkType fieldName (base +:+ d))
  = parseElementary (base +:+ d) (base +:+ d) [] /\
  splitDigits (base +:+ d) = Some (base, d).
Proof.
  intros Hn Hd Ht.
  destruct (elementary_name_split base d dt Hn Hd) as (E1 & E2 & E3).
  split; [| exact E3].
  unfold parseType. cbn [Type']. rewrite E1, E2, Ht. reflexivity.
Qed.

Lemma eqb_empty_false (d : string) :
  d <> EmptyString -> String.eqb d EmptyString = false.
Proof. intros H. destruct d; [congruence | reflexivity]. Qed.

(** Evaluates [parseType] on a type expression that is a literal, given that
    its base name is no declared struct. *)
Ltac parse_literal H :=
  unfold parseType; cbn [Type'];
  match goal with
  | |- context [stripArrays (TrimSpace ?s)] =>
      let v := eval vm_compute in (stripArrays (TrimSpace s)) in
      change (stripArrays (TrimSpace s)) with v
  end;
  cbv iota; rewrite H; vm_compute; reflexivity.

(** C3 (counterexample).  In a document that declares a struct named
    [uint], the type expression [uint] resolves to that struct, not to the
    32-byte unsigned integer. *)
Lemma declared_struct_shadows_uint :
  parseType shadowData (mkType "x" "uint")
  = Ok (mkParsed CustomType "uint" 0 [])
  /\ parseType shadowData (mkType "x" "uint")
     <> Ok (mkParsed UintType "uint" 32 []).
Proof. split; [vm_compute; reflexivity | vm_compute; discriminate]. Qed.

(** C3 (amended).  Whenever the base name of the type expression is not a
    declared struct of the document: [uint] is an unsigned integer of 32
    bytes, [uint8] one of 1 byte, [bytes32] fixed bytes of width 32, [bytes]
    dynamic bytes of width 0, [address] an address of 20 bytes, none with
    array dimensions; [uint256[3][]] is an unsigned integer of 32 bytes with
    dimensions fixed 3, then dynamic; [uint7] fails with an invalid-length
    error and [foo] with an unknown-type error.  With digits after the
    name, [int] and [uint] have the width digits/8 when the digits are a
    multiple of 8 and the width is in 1..32, [bytes] has the width of its
    digits when it is in 1..32, and both fail with an invalid-length error
    otherwise; [address], [bool] and [string] fail with an invalid-type
    error. *)
Theorem parseType_table :
  forall (data : TypedData) (fieldName : string),
    let resolve t := parseType data (mkType fieldName t) in
    let free t := Types data !! t = None in
    (free "uint" -> resolve "uint" = Ok (mkParsed UintType "uint" 32 [])) /\
    (free "uint8" -> resolve "uint8" = Ok (mkParsed UintType "uint" 1 [])) /\
    (free "bytes32" ->
     resolve "bytes32" = Ok (mkParsed FixedBytesType "bytes" 32 [])) /\
    (free "bytes" -> resolve "bytes" = Ok (mkParsed BytesType "bytes" 0 [])) /\
    (free "address" ->
     resolve "address" = Ok (mkParsed AddressType "address" 20 [])) /\
    (free "uint256" ->
     resolve "uint256[3][]"
     = Ok (mkParsed UintType "uint" 32 [Some 3; None])) /\
    (free "uint7" -> resolve "uint7" = Err (ErrInvalidLength "uint7" "7")) /\
    (free "foo" -> resolve "foo" = Err (ErrUnknownType "foo")) /\
    (forall base d dt,
        nameToType base = Some dt -> dt = IntType \/ dt = UintType ->
        allDigits d = true -> d <> EmptyString -> free (base +:+ d) ->
        resolve (base +:+ d)
        = if (Atoi d mod 8 =? 0) && (1 <=? Atoi d / 8) && (Atoi d / 8 <=? 32)
          then Ok (mkParsed dt base (Atoi d / 8) [])
          else Err (ErrInvalidLength (base +:+ d) d)) /\
    (forall d,
        allDigits d = true -> d <> EmptyString -> free ("bytes" +:+ d) ->
        resolve ("bytes" +:+ d)
        = if (1 <=? Atoi d) && (Atoi d <=? 32)
          then Ok (mkParsed FixedBytesType "bytes" (Atoi d) [])
          else Err (ErrInvalidLength ("bytes" +:+ d) d)) /\
    (forall base d,
        base = "address" \/ base = "bool" \/ base = "string" ->
        allDigits d = true -> d <> EmptyString -> free (base +:+ d) ->
        resolve (base +:+ d) = Err (ErrInvalidType (base +:+ d))) /\
    (forall t d, kindOf (ErrInvalidLength t d) = InvalidLength) /\
    (forall t, kindOf (ErrUnknownType t) = UnknownType) /\
    (forall t, kindOf (ErrInvalidType t) = InvalidType).
Proof.
  intros data fieldName resolve free. unfold resolve, free.
  split; [intros H; parse_literal H |].
  split; [intros H; parse_literal H |].
  split; [intros H; parse_literal H |].
  split; [intros H; parse_literal H |].
  split; [intros H; parse_literal H |].
  split; [intros H; parse_literal H |].
  split; [intros H; parse_literal H |].
  split; [intros H; parse_literal H |].
  repeat apply conj; try reflexivity.
  - intros base d dt Hn Hdt Hd Hne Hfree.
    destruct (parseType_elementary data fieldName base d dt Hn Hd Hfree)
      as [-> E].
    unfold parseElementary. rewrite E, Hn, (eqb_empty_false d Hne).
    pose proof (Atoi_nonneg d Hd) as Hpos.
    rewrite Z.rem_mod_nonneg, Z.quot_div_nonneg by lia.
    cbn [negb andb].
    destruct Hdt as [-> | ->];
      destruct (Atoi d mod 8 =? 0); cbn [negb andb]; try reflexivity;
      destruct (Atoi d / 8 <? 1) eqn:E1; destruct (32 <? Atoi d / 8) eqn:E2;
      destruct (1 <=? Atoi d / 8) eqn:E3; destruct (Atoi d / 8 <=? 32) eqn:E4;
      cbn [orb andb]; try reflexivity; lia.
  - intros d Hd Hne Hfree.
    destruct (parseType_elementary data fieldName "bytes" d BytesType
                eq_refl Hd Hfree) as [-> E].
    unfold parseElementary. rewrite E, (eqb_empty_false d Hne).
    cbn [nameToType String.eqb Ascii.eqb Bool.eqb negb andb].
    change (nameToType "bytes") with (Some BytesType). cbv iota.
    destruct (Atoi d <? 1) eqn:E1; destruct (32 <? Atoi d) eqn:E2;
      destruct (1 <=? Atoi d) eqn:E3; destruct (Atoi d <=? 32) eqn:E4;
      cbn [orb andb]; try reflexivity; lia.
  - intros base d Hb Hd Hne Hfree.
    destruct Hb as [-> | [-> | ->]].
    + destruct (parseType_elementary data fieldName "address" d AddressType
                  eq_refl Hd Hfree) as [-> E].
      unfold parseElementary. rewrite E, (eqb_empty_false d Hne). reflexivity.
    + destruct (parseType_elementary data fieldName "bool" d BoolType
                  eq_refl Hd Hfree) as [-> E].
      unfold parseElementary. rewrite E, (eqb_empty_false d Hne). reflexivity.
    + destruct (parseType_elementary data fieldName "string" d StringType
                  eq_refl Hd Hfree) as [-> E].
      unfold parseElementary. rewrite E, (eqb_empty_false d Hne). reflexivity.
Qed.

Lemma parseType_table_witness :
  parseType emptyData (mkType "x" "uint") = Ok (mkParsed UintType "uint" 32 [])
  /\ parseType emptyData (mkType "x" "uint264")
     = Err (ErrInvalidLength "uint264" "264")
  /\ parseType emptyData (mkType "x" "bytes33")
     = Err (ErrInvalidLength "bytes33" "33")
  /\ parseType emptyData (mkType "x" "bool8") = Err (ErrInvalidType "bool8").
Proof.
  pose proof (parseType_table emptyData "x")
    as (H1 & _ & _ & _ & _ & _ & _ & _ & H9 & H10 & H11 & _).
  repeat apply conj.
  - apply H1. reflexivity.
  - pose proof (H9 "uint" "264" UintType eq_refl (or_intror eq_refl) eq_refl
                  ltac:(discriminate) eq_refl) as H.
    vm_compute in H. vm_compute. exact H.
  - pose proof (H10 "33" eq_refl ltac:(discriminate) eq_refl) as H.
    vm_compute in H. vm_compute. exact H.
  - pose proof (H11 "bool" "8" (or_intror (or_introl eq_refl)) eq_refl
                  ltac:(discriminate) eq_refl) as H.
    vm_compute in H. vm_compute. exact H.
Defined.

(** ** Big-endian bytes *)

Lemma beBytes_digits (fuel : nat) :
  forall n acc, 0 <= n < 256 ^ Z.of_nat fuel ->
    exists ds, beBytes fuel n acc = ds ++ acc /\ beValue ds = n.
Proof.
  induction fuel as [| fuel IH]; intros n acc Hn.
  - exists []. split; [reflexivity |]. cbn in *. lia.
  - cbn [beBytes]. destruct (Z.eqb_spec n 0) as [-> | Hne].
    + exists []. split; reflexivity.
    + destruct (IH (n / 256) (n mod 256 :: acc)) as (ds & E & V).
      { rewrite Nat2Z.inj_succ, Z.pow_succ_r in Hn by lia.
        split; [apply Z.div_pos; lia |].
        apply Z.div_lt_upper_bound; lia. }
      exists (ds ++ [n mod 256]). split.
      * rewrite E, <- app_assoc. reflexivity.
      * unfold beValue in *. rewrite fold_left_app, V. cbn [fold_left].
        pose proof (Z.div_mod n 256). lia.
Qed.

(** The bytes of [bigBytes] denote the absolute value: the bound on the
    steps of [beBytes] is never reached. *)
Lemma beBytes_value (n : Z) : beValue (bigBytes n) = Z.abs n.
Proof.
  unfold bigBytes.
  destruct (beBytes_digits (S (Z.to_nat (Z.log2 (Z.abs n)))) (Z.abs n) [])
    as (ds & E & V).
  - split; [lia |].
    destruct (Z.eq_dec (Z.abs n) 0) as [-> | Hne]; [reflexivity |].
    pose proof (Z.log2_nonneg (Z.abs n)) as Hl.
    rewrite Nat2Z.inj_succ, Z2Nat.id by exact Hl.
    pose proof (Z.log2_spec (Z.abs n) ltac:(lia)) as [_ Hu].
    eapply Z.lt_le_trans; [exact Hu |].
    change 256 with (2 ^ 8). rewrite <- Z.pow_mul_r by lia.
    apply Z.pow_le_mono_r; lia.
  - rewrite E, app_nil_r. exact V.
Qed.

(** ** The two leaf encoders *)












(** ** The value query: the loop and the specification's navigation *)


Lemma finishFrom_nil data done pos nestedArray :
  withFlag nestedArray (finishFrom data [] done pos)
  = andThen (answer done pos) (fun v => Ok (v, nestedArray)).
Proof.
  unfold withFlag, finishFrom. cbn [reach andThen]. rewrite app_nil_r.
  destruct (answer done pos); cbn; rewrite ?orb_false_r; reflexivity.
Qed.

Lemma finishFrom_cons data p rest done pos nestedArray :
  withFlag nestedArray (finishFrom data (p :: rest) done pos)
  = andThen (select data done pos p) (fun '(pos', s) =>
      withFlag (nestedArray || stepNested s)
        (finishFrom data rest (done ++ [p]) pos')).
Proof.
  unfold withFlag, finishFrom. cbn [reach].
  destruct (select data done pos p) as [[pos' s] | | |]; cbn [andThen];
    try reflexivity.
  rewrite <- app_assoc. cbn [app].
  destruct (reach data rest (done ++ [p]) pos') as [[pos'' steps] | | |];
    cbn [andThen]; try reflexivity.
  destruct (answer (done ++ p :: rest) pos''); cbn [andThen];
    try reflexivity.
  cbn [declaresNested existsb]. fold (stepNested s).
  fold (declaresNested steps). rewrite orb_assoc. reflexivity.
Qed.

Section Refinement.
Variable data : TypedData.
Variable MemberPath : list nat.

Lemma descend_stop dims i v :
  beforeLast MemberPath i = false -> descend MemberPath dims i v = Ok (i, v).
Proof. intros H. destruct dims; cbn [descend]; [| rewrite H]; reflexivity. Qed.

Lemma walk_exit fuel i structType structValue value nestedArray :
  (length MemberPath <= i)%nat ->
  walk data MemberPath fuel i structType structValue value nestedArray
  = Ok (value, nestedArray).
Proof.
  intros H. assert (E : (i <? length MemberPath)%nat = false)
    by (apply Nat.ltb_ge; exact H).
  destruct fuel; cbn [walk]; rewrite E; reflexivity.
Qed.


Lemma walk_step fuel done p rest fields m value nestedArray :
  MemberPath = done ++ p :: rest ->
  walk data MemberPath (S fuel) (length done) fields m value nestedArray
  = match fields with
    | None => Err ErrNoStructType
    | Some fs =>
        match fs !! p with
        | None => Err (ErrInvalidFieldIndex p)
        | Some field =>
            andThen (parseType data field) (fun ps =>
              visit data MemberPath fuel (length (arrayLevels ps))
                (length done) ps
                (default VNil (m !! Name field)) fields m value
                (nestedArray || (1 <? len (arrayLevels ps))))
        end
    end.
Proof.
  intros E. cbn [walk].
  assert (Hlt : (length done <? length MemberPath)%nat = true).
  { apply Nat.ltb_lt. rewrite E, length_app. cbn [length]. lia. }
  rewrite Hlt. cbn [negb].
  assert (Hp : MemberPath !! length done = Some p).
  { rewrite E. rewrite lookup_app_r by lia. rewrite Nat.sub_diag. reflexivity. }
  rewrite Hp. destruct fields as [fs |]; [| reflexivity].
  destruct (fs !! p); reflexivity.
Qed.
Lemma last_index done rest :
  MemberPath = done ++ rest -> done <> [] ->
  S (length done - 1) = length done /\
  take (S (length done - 1)) MemberPath = done /\
  beforeLast MemberPath (length done - 1)
  = negb (length rest =? 0)%nat.
Proof.
  intros E Hd. destruct done as [| x done]; [congruence |].
  cbn [length]. replace (S (length done) - 1)%nat with (length done) by lia.
  split; [reflexivity |]. split.
  - rewrite E. change (S (length done)) with (length (x :: done)).
    apply take_app_length.
  - unfold beforeLast, len. rewrite E, length_app. cbn [length].
    destruct rest; cbn [length Nat.eqb negb];
      [apply Z.ltb_ge | apply Z.ltb_lt]; lia.
Qed.

(** The loop and the navigation agree, from any point of the path: on the
    value of a selected field with [dims] dimensions to go, and at the head
    of the loop with at least one index to go. *)
Lemma walk_refines_navigation (rest : list nat) :
  (forall done ps dims v fields m value nestedArray fuel,
      MemberPath = done ++ rest -> done <> [] -> (length rest <= fuel)%nat ->
      visit data MemberPath fuel dims (length done - 1) ps v fields m value
        nestedArray
      = withFlag nestedArray (finishFrom data rest done (AtValue ps dims v)))
  /\
  (forall done fields m value nestedArray fuel,
      MemberPath = done ++ rest -> rest <> [] -> (length rest <= fuel)%nat ->
      walk data MemberPath fuel (length done) fields m value nestedArray
      = withFlag nestedArray (finishFrom data rest done (AtStruct fields m))).
Proof.
  induction rest as [| p rest IH].
  - split; [| congruence].
    intros done ps dims v fields m value nestedArray fuel E Hd _.
    destruct (last_index done [] E Hd) as (HS & Ht & Hb).
    cbn [length Nat.eqb negb] in Hb.
    rewrite finishFrom_nil. unfold visit.
    rewrite (descend_stop _ _ _ Hb). cbn [andThen].
    unfold afterArrays. rewrite Hb, Ht, HS.
    assert (Hexit : (length MemberPath <= length done)%nat)
      by (rewrite E, app_nil_r; lia).
    destruct v; cbn [answer andThen]; rewrite ?walk_exit by exact Hexit;
      try reflexivity;
      (destruct (trezorLeaf ps _ done); cbn [andThen];
       rewrite ?walk_exit by exact Hexit; reflexivity).
  - destruct IH as [IHK _].
    assert (W : forall done fields m value nestedArray fuel,
      MemberPath = done ++ p :: rest -> (length (p :: rest) <= fuel)%nat ->
      walk data MemberPath fuel (length done) fields m value nestedArray
      = withFlag nestedArray
          (finishFrom data (p :: rest) done (AtStruct fields m))).
    { intros done fields m value nestedArray fuel E Hf.
      destruct fuel as [| fuel]; [cbn [length] in Hf; lia |].
      rewrite (walk_step fuel done p rest fields m value nestedArray E).
      rewrite finishFrom_cons. cbn [select]. unfold selectField.
      destruct fields as [fs |]; [| reflexivity].
      destruct (fs !! p) as [field |]; [| reflexivity].
      destruct (parseType data field) as [ps | | |]; cbn [andThen];
        try reflexivity.
      cbn [stepNested].
      pose proof (IHK (done ++ [p]) ps (length (arrayLevels ps))
                    (default VNil (m !! Name field)) (Some fs) m value
                    (nestedArray || (1 <? len (arrayLevels ps))) fuel) as H.
      rewrite length_app in H. cbn [length] in H.
      replace (length done + 1 - 1)%nat with (length done) in H by lia.
      apply H.
      - rewrite <- app_assoc. exact E.
      - destruct done; discriminate.
      - cbn [length] in Hf. lia. }
    split; [| intros done fields m value nestedArray fuel E _ Hf;
              apply W; assumption].
    intros done ps dims v fields m value nestedArray fuel E Hd Hf.
    destruct (last_index done (p :: rest) E Hd) as (HS & Ht & Hb).
    cbn [length Nat.eqb negb] in Hb.
    rewrite finishFrom_cons. unfold visit.
    assert (Hp : MemberPath !! length done = Some p).
    { rewrite E, lookup_app_r by lia. rewrite Nat.sub_diag. reflexivity. }
    destruct dims as [| dims].
    + cbn [descend andThen]. unfold afterArrays. rewrite Hb, Ht, HS.
      destruct v; cbn [select andThen]; try reflexivity.
      rewrite (W done (Types data !! name ps) m0 value nestedArray fuel E Hf).
      rewrite finishFrom_cons. reflexivity.
    + cbn [descend]. rewrite Hb, Ht, HS, Hp.
      destruct v; cbn [select andThen]; try reflexivity.
      destruct (a !! p) as [item |]; cbn [andThen]; [| reflexivity].
      cbn [stepNested]. rewrite orb_false_r.
      pose proof (IHK (done ++ [p]) ps dims item fields m value nestedArray
                    fuel) as H.
      rewrite length_app in H. cbn [length] in H.
      replace (length done + 1 - 1)%nat with (length done) in H by lia.
      unfold visit in H. apply H.
      * rewrite <- app_assoc. exact E.
      * destruct done; discriminate.
      * cbn [length] in Hf. lia.
Qed.

(** The answer of the loop to a non-empty member path is the one of the
    navigation, with the flag raised when a selected field is declared with
    more than one array dimension. *)
Lemma valueAck_resolve p0 rest :
  MemberPath = p0 :: rest ->
  valueAck data MemberPath = withFlag false (resolve data p0 rest).
Proof.
  intros E. unfold valueAck. rewrite E at 1. cbn [lookup list_lookup].
  change ((p0 :: rest) !! 0%nat) with (Some p0).
  unfold resolve. fold (finishFrom data rest [p0] (root data p0)).
  unfold root.
  destruct rest as [| p rest].
  - destruct (p0 =? 0)%nat; rewrite walk_exit by (rewrite E; cbn; lia);
      reflexivity.
  - destruct (walk_refines_navigation (p :: rest)) as [_ W].
    destruct (p0 =? 0)%nat;
      apply (W [p0]); try exact E; try discriminate;
      rewrite E; cbn [length]; lia.
Qed.
End Refinement.

Lemma reach_app data pre tail done pos :
  reach data (pre ++ tail) done pos
  = andThen (reach data pre done pos) (fun '(pos', s1) =>
      andThen (reach data tail (done ++ pre) pos') (fun '(pos'', s2) =>
        Ok (pos'', s1 ++ s2))).
Proof.
  revert done pos. induction pre as [| p pre IH]; intros done pos.
  - cbn [app reach andThen]. rewrite app_nil_r.
    destruct (reach data tail done pos) as [[pos' s] | | |]; reflexivity.
  - cbn [app reach].
    destruct (select data done pos p) as [[pos1 s] | | |]; cbn [andThen];
      try reflexivity.
    rewrite IH. rewrite <- app_assoc. cbn [app].
    destruct (reach data pre (done ++ [p]) pos1) as [[pos2 s1] | | |];
      cbn [andThen]; try reflexivity.
    destruct (reach data tail (done ++ p :: pre) pos2) as [[pos3 s2] | | |];
      reflexivity.
Qed.

(** A path that goes on with an index that [select] refuses fails with the
    error of [select]. *)
Lemma valueAck_select_error data p0 pre p tail pos steps e :
  reach data pre [p0] (root data p0) = Ok (pos, steps) ->
  select data (p0 :: pre) pos p = Err e ->
  valueAck data (p0 :: pre ++ p :: tail) = Err e.
Proof.
  intros Hr Hs.
  rewrite (valueAck_resolve data _ p0 (pre ++ p :: tail) eq_refl).
  unfold resolve. rewrite reach_app, Hr. cbn [andThen reach app].
  rewrite Hs. reflexivity.
Qed.


(** C5.  The answer of the walker to a member path [p0 :: rest] is the one
    of the navigation that the specification describes.  The first index
    selects the domain when it is 0 and the message otherwise.  A further
    index selects the field at that position of the current struct, or the
    element at that index of the current array.  An index at or beyond the
    number of fields or of elements makes the query fail with an error.  A
    path that ends at an array is answered with the two big-endian bytes of
    its number of elements.  On [Mail{from, to}] with [{from: "x", to: "y"}],
    the path [1, 0] gives the byte 0x78 and the path [1, 5] fails. *)
Theorem value_query_resolution :
  forall (data : TypedData) (p0 : nat) (rest : list nat),
    valueAck data (p0 :: rest) = withFlag false (resolve data p0 rest) /\
    root data 0 = AtStruct (Types data !! "EIP712Domain") (DomainMap data) /\
    (p0 <> 0%nat ->
     root data p0 = AtStruct (Types data !! PrimaryType data) (Message data)) /\
    (forall done fields members p field ps,
        fields !! p = Some field -> parseType data field = Ok ps ->
        select data done (AtStruct (Some fields) members) p
        = Ok (AtValue ps (length (arrayLevels ps))
                (default VNil (members !! Name field)), FieldStep ps)) /\
    (forall done ps dims a p item,
        a !! p = Some item ->
        select data done (AtValue ps (S dims) (VArray a)) p
        = Ok (AtValue ps dims item, ElementStep)) /\
    (forall pre p tail pos steps fields,
        reach data pre [p0] (root data p0) = Ok (pos, steps) ->
        currentStruct data pos = Some fields ->
        (length fields <= p)%nat ->
        valueAck data (p0 :: pre ++ p :: tail)
        = Err (ErrInvalidFieldIndex p)) /\
    (forall pre p tail ps dims a steps,
        reach data pre [p0] (root data p0)
          = Ok (AtValue ps (S dims) (VArray a), steps) ->
        (length a <= p)%nat ->
        valueAck data (p0 :: pre ++ p :: tail)
        = Err (ErrInvalidArrayIndex p (p0 :: pre))) /\
    (forall ps dims a steps,
        reach data rest [p0] (root data p0)
          = Ok (AtValue ps dims (VArray a), steps) ->
        valueAck data (p0 :: rest)
          = Ok (appendUint16 (len a), declaresNested steps) /\
        (len a < 65536 ->
         appendUint16 (len a) = [len a / 256; len a mod 256])) /\
    valueAck mailData [1; 0]%nat = Ok ([120], false) /\
    isErr (valueAck mailData [1; 5]%nat) = true.
Proof.
  intros data p0 rest. repeat apply conj.
  - apply valueAck_resolve. reflexivity.
  - reflexivity.
  - intros H. unfold root. destruct (Nat.eqb_spec p0 0); [contradiction |].
    reflexivity.
  - intros done fields members p field ps Hf Hp.
    cbn [select]. unfold selectField. rewrite Hf, Hp. reflexivity.
  - intros done ps dims a p item Ha. cbn [select]. rewrite Ha. reflexivity.
  - intros pre p tail pos steps fields Hr Hc Hlen.
    apply (valueAck_select_error data p0 pre p tail pos steps _ Hr).
    assert (Hnone : fields !! p = None) by (apply lookup_ge_None; exact Hlen).
    destruct pos as [fs members | ps dims v]; cbn [currentStruct] in Hc.
    + subst fs. cbn [select]. unfold selectField. rewrite Hnone. reflexivity.
    + destruct dims; [| discriminate]. destruct v; try discriminate.
      cbn [select]. unfold selectField. rewrite Hc, Hnone. reflexivity.
  - intros pre p tail ps dims a steps Hr Hlen.
    apply (valueAck_select_error data p0 pre p tail _ steps _ Hr).
    cbn [select].
    assert (Hnone : a !! p = None) by (apply lookup_ge_None; exact Hlen).
    rewrite Hnone. reflexivity.
  - intros ps dims a steps H. split.
    + rewrite (valueAck_resolve data _ p0 rest eq_refl).
      unfold resolve. rewrite H. reflexivity.
    + intros Hlen. unfold appendUint16.
      rewrite Z.mod_small; [reflexivity |]. unfold len in *. lia.
  - vm_compute. reflexivity.
  - vm_compute. reflexivity.
Qed.

Lemma value_query_resolution_witness :
  valueAck gridData [1; 0; 2]%nat = Err (ErrInvalidArrayIndex 2 [1; 0]%nat) /\
  valueAck gridData [1; 0; 1]%nat = Ok ([0; 2], true) /\
  valueAck mailData [1; 2; 7]%nat = Err (ErrInvalidFieldIndex 2).
Proof.
  pose proof (value_query_resolution gridData 1 [0; 1]%nat)
    as (_ & _ & _ & _ & _ & _ & Ha & Hn & _).
  pose proof (value_query_resolution mailData 1 [])
    as (_ & _ & _ & _ & _ & Hf & _).
  repeat apply conj.
  - apply (Ha [0]%nat 2%nat []
              (mkParsed UintType "uint" 1 [None; None]) 1%nat
              [VArray [VFloat 1]; VArray [VFloat 2; VFloat 3]]
              [FieldStep (mkParsed UintType "uint" 1 [None; None])]).
    + vm_compute. reflexivity.
    + cbn [length]. lia.
  - pose proof (Hn (mkParsed UintType "uint" 1 [None; None]) 1%nat
                   [VFloat 2; VFloat 3]
                   [FieldStep (mkParsed UintType "uint" 1 [None; None]);
                    ElementStep]
                   ltac:(vm_compute; reflexivity)) as [H _].
    exact H.
  - apply (Hf [] 2%nat [7]%nat
              (AtStruct (Some [mkType "from" "string"; mkType "to" "string"])
                 (Message mailData)) []
              [mkType "from" "string"; mkType "to" "string"]).
    + vm_compute. reflexivity.
    + reflexivity.
    + cbn [length]. lia.
Defined.

(** ** The nested-array flag *)







(** ** Bounds that are never reached

    The walker's loop and the recursion of [sendValue] are given a bound on
    their steps; with the bounds that the drivers use, no call ends on
    it. *)


Lemma andThen_exhausted {A B} (r : result A) (k : A -> result B) :
  exhausted r = false -> (forall a, exhausted (k a) = false) ->
  exhausted (andThen r k) = false.
Proof. destruct r; cbn; auto. Qed.

Lemma parseType_exhausted data field : exhausted (parseType data field) = false.
Proof.
  unfold parseType. destruct (stripArrays _) as [n levels].
  destruct (Types data !! n); [reflexivity |].
  unfold parseElementary. destruct (splitDigits n) as [[n' ls] |];
    [| reflexivity].
  destruct (nameToType n') as [d |]; [| reflexivity].
  destruct d;
    repeat match goal with
           | |- context [if ?c then _ else _] => destruct c
           end; reflexivity.
Qed.

Lemma trezorLeaf_exhausted ps v at_ : exhausted (trezorLeaf ps v at_) = false.
Proof.
  unfold trezorLeaf. destruct (dt ps), v;
    repeat match goal with
           | |- context [if ?c then _ else _] => destruct c
           end; reflexivity.
Qed.

Lemma select_exhausted data done pos p :
  exhausted (select data done pos p) = false.
Proof.
  assert (F : forall fields members,
             exhausted (selectField data fields members p) = false).
  { intros fields members. unfold selectField.
    destruct fields as [fs |]; [| reflexivity].
    destruct (fs !! p); [| reflexivity].
    apply andThen_exhausted; [apply parseType_exhausted | reflexivity]. }
  destruct pos as [fields members | ps dims v]; cbn [select]; [apply F |].
  destruct v, dims; try reflexivity; try apply F.
  destruct (a !! p); reflexivity.
Qed.

Lemma reach_exhausted data path :
  forall done pos, exhausted (reach data path done pos) = false.
Proof.
  induction path as [| p path IH]; intros done pos; [reflexivity |].
  cbn [reach]. apply andThen_exhausted; [apply select_exhausted |].
  intros [pos' s]. apply andThen_exhausted; [apply IH |].
  intros [pos'' steps]. reflexivity.
Qed.

(** The answer to a value query never ends on the bound of the loop. *)
Lemma valueAck_total data MemberPath :
  exhausted (valueAck data MemberPath) = false.
Proof.
  destruct MemberPath as [| p0 rest]; [reflexivity |].
  rewrite (valueAck_resolve data _ p0 rest eq_refl).
  unfold withFlag, resolve.
  apply andThen_exhausted; [| intros [v steps]; reflexivity].
  apply andThen_exhausted; [apply reach_exhausted |].
  intros [pos steps]. apply andThen_exhausted; [| reflexivity].
  destruct pos as [fields members | ps dims v]; [reflexivity |].
  destruct v; try reflexivity; apply trezorLeaf_exhausted.
Qed.

Lemma depth_elem (x : value) (a : list value) :
  x ∈ a -> (depth x < depth (VArray a))%nat.
Proof.
  cbn [depth]. induction a as [| y a IH]; intros H.
  - inversion H.
  - cbn [foldr]. apply elem_of_cons in H as [-> | H]; [lia |].
    specialize (IH H). lia.
Qed.

Lemma depth_lookup (m : gmap string value) (k : string) (x : value) :
  m !! k = Some x -> (depth x < depth (VMap m))%nat.
Proof.
  intros H. cbn [depth]. rewrite map_fold_foldr.
  apply elem_of_map_to_list in H.
  induction (map_to_list m) as [| [k' y] l IH]; [inversion H |].
  cbn [foldr uncurry]. apply elem_of_cons in H as [H | H].
  - injection H as <- <-. cbn. lia.
  - specialize (IH H). cbn in *. lia.
Qed.

Section Totality.
Context {Dev : Type}.
Variable exch : Dev -> apdu -> (transportError + list Z) * Dev.
Variable data : TypedData.


Lemma bind_total {A B} (m : M Dev apdu A) (k : A -> M Dev apdu B) :
  total m -> (forall a, total (k a)) -> total (bind m k).
Proof.
  intros Hm Hk w. unfold bind. specialize (Hm w).
  destruct (m w) as [[a | e | p |] w']; cbn in *;
    [apply Hk | reflexivity | reflexivity | discriminate].
Qed.

Lemma wrapErr_total {A} context (m : M Dev apdu A) :
  total m -> total (wrapErr context m).
Proof.
  intros Hm w. unfold wrapErr. specialize (Hm w).
  destruct (m w) as [[a | e | p |] w']; cbn in *; congruence.
Qed.

Lemma exchange_total op p1 p2 payload : total (exchange exch op p1 p2 payload).
Proof.
  intros w. unfold exchange.
  destruct (exch (device w) _) as [[e | r] d]; reflexivity.
Qed.

Lemma forEach_total {A} (l : list A) (f : A -> M Dev apdu unit) :
  (forall x, x ∈ l -> total (f x)) -> total (forEach l f).
Proof.
  induction l as [| x l IH]; intros H; [intros w; reflexivity |].
  cbn [forEach]. apply bind_total.
  - apply H. left.
  - intros _. apply IH. intros y Hy. apply H. right. exact Hy.
Qed.

(** With more steps than the value is deep, [sendValue] does not end on
    its bound. *)
Lemma sendValue_total (fuel : nat) :
  forall v t name, (depth v < fuel)%nat ->
    total (sendValue exch data fuel t name v).
Proof.
  induction fuel as [| fuel IH]; intros v t name Hd; [lia |].
  assert (Hleaf : forall v', total
    (let* enc := lift (ledgerLeaf t name v') in
     do wrapErr ("failed to send domain field " +:+ name)
          (exchange exch ledgerOpEip712SendStructImpl ledgerP1CompleteSend
             ledgerP2StructField (leafPayload enc)) then
     ret tt)).
  { intros v'. apply bind_total.
    - intros w. unfold lift, ledgerLeaf. cbn [fst].
      destruct v' as [| s | b | i | [h |] | a | m];
        repeat match goal with
               | |- context [if ?c then _ else _] => destruct c
               | |- context [let (_, _) := ?c in _] => destruct c
               end; reflexivity.
    - intros enc. apply bind_total; [| intros _ w; reflexivity].
      apply wrapErr_total, exchange_total. }
  assert (Hplain : forall v',
    total (if endsWithBracket t then fail (ErrExpectedArray name)
           else match Types data !! t with
                | Some _ => fail (ErrExpectedStruct name)
                | None =>
                    let* enc := lift (ledgerLeaf t name v') in
                    do wrapErr ("failed to send domain field " +:+ name)
                         (exchange exch ledgerOpEip712SendStructImpl
                            ledgerP1CompleteSend ledgerP2StructField
                            (leafPayload enc)) then
                    ret tt
                end)).
  { intros v'. destruct (endsWithBracket t); [intros w; reflexivity |].
    destruct (Types data !! t); [intros w; reflexivity | apply Hleaf]. }
  destruct v as [| s | b | i | h | a | m]; cbn [sendValue];
    try apply Hplain.
  - intros w. reflexivity.
  - (* an array *)
    destruct (endsWithBracket t).
    + apply bind_total; [apply wrapErr_total, exchange_total |].
      intros _. destruct (beforeLastBracket t); [| intros w; reflexivity].
      apply forEach_total. intros item Hi. apply wrapErr_total, IH.
      pose proof (depth_elem item a Hi). lia.
    + destruct (Types data !! t); [intros w; reflexivity | apply Hleaf].
  - (* a struct *)
    destruct (endsWithBracket t); [intros w; reflexivity |].
    destruct (Types data !! t) as [fields |]; [| apply Hleaf].
    apply forEach_total. intros field _. apply wrapErr_total, IH.
    destruct (m !! Name field) as [x |] eqn:Hx; cbn.
    + pose proof (depth_lookup m _ x Hx). lia.
    + cbn [depth] in Hd. lia.
Qed.

(** The typed-data call of the Ledger driver does not end on a bound. *)
Lemma ledgerSignTypedData_total (opSign : Z) (path : list Z) :
  total (ledgerSignTypedData exch opSign data path).
Proof.
  unfold ledgerSignTypedData.
  destruct (Types data !! "EIP712Domain"); [| intros w; reflexivity].
  destruct (Types data !! PrimaryType data); [| intros w; reflexivity].
  apply bind_total.
  { unfold sendStructDefs. apply forEach_total. intros [n fields] _.
    apply bind_total; [apply wrapErr_total, exchange_total |].
    intros _. apply forEach_total. intros field _. apply wrapErr_total.
    unfold sendField. apply bind_total.
    - intros w. unfold lift. cbn [fst]. apply parseType_exhausted.
    - intros ps. apply bind_total; [apply exchange_total |].
      intros _ w. reflexivity. }
  intros _. apply bind_total.
  { unfold sendStructImpls.
    apply bind_total; [apply wrapErr_total, exchange_total |]. intros _.
    apply bind_total;
      [apply wrapErr_total, sendValue_total; lia |]. intros _.
    apply bind_total; [apply wrapErr_total, exchange_total |]. intros _.
    apply wrapErr_total, sendValue_total. lia. }
  intros _. unfold requestSignature.
  apply bind_total; [apply exchange_total |].
  intros reply w. destruct (negb (len reply =? SignatureLength)); reflexivity.
Qed.
End Totality.

(** * Further properties of the code *)

(** ** The outcomes of the type resolver *)

Lemma nameToType_inv (n : string) (d : dataType) :
  nameToType n = Some d ->
  (n = "int" /\ d = IntType) \/ (n = "uint" /\ d = UintType) \/
  (n = "address" /\ d = AddressType) \/ (n = "bool" /\ d = BoolType) \/
  (n = "string" /\ d = StringType) \/ (n = "bytes" /\ d = BytesType).
Proof.
  unfold nameToType.
  repeat match goal with
         | |- (if String.eqb ?a ?b then _ else _) = _ -> _ =>
             destruct (String.eqb_spec a b);
             [intros H; injection H as <-; subst; tauto |]
         end.
  discriminate.
Qed.

(** What [parseElementary] can return. *)
Lemma parseElementary_outcome (fieldType n : string) (levels : list (option Z)) :
  match parseElementary fieldType n levels with
  | Ok ps =>
      arrayLevels ps = levels /\
      match dt ps with
      | CustomType => False
      | IntType => name ps = "int" /\ 1 <= byteLength ps <= 32
      | UintType => name ps = "uint" /\ 1 <= byteLength ps <= 32
      | FixedBytesType => name ps = "bytes" /\ 1 <= byteLength ps <= 32
      | AddressType => name ps = "address" /\ byteLength ps = 20
      | BoolType => name ps = "bool" /\ byteLength ps = 0
      | StringType => name ps = "string" /\ byteLength ps = 0
      | BytesType => name ps = "bytes" /\ byteLength ps = 0
      end
  | Err e =>
      e = ErrUnknownType fieldType \/ e = ErrInvalidType fieldType \/
      exists lengthStr, e = ErrInvalidLength fieldType lengthStr
  | Panic p => p = IndexOutOfRange
  | Exhausted => False
  end.
Proof.
  unfold parseElementary.
  destruct (splitDigits n) as [[n' ls] |]; [| reflexivity].
  destruct (nameToType n') as [d |] eqn:Hn; [| left; reflexivity].
  apply nameToType_inv in Hn.
  destruct (String.eqb_spec ls EmptyString) as [-> | Hne]; cbn [negb andb].
  - change (Atoi EmptyString) with 0.
    destruct Hn as [[-> ->] | [[-> ->] | [[-> ->] | [[-> ->] | [[-> ->] | [-> ->]]]]]];
      cbn; repeat split; lia.
  - destruct Hn as [[-> ->] | [[-> ->] | [[-> ->] | [[-> ->] | [[-> ->] | [-> ->]]]]]];
      cbn [negb andb];
      repeat match goal with
             | |- context [if ?c then _ else _] => destruct c eqn:?
             end;
      cbn; eauto; repeat split; try reflexivity; lia.
Qed.

(** X1.  The outcomes of [parseType].  A resolved type has its array
    dimensions and a width that fits its kind: 1 to 32 bytes for int, uint
    and fixed bytes, 20 for an address, none for bool, string and dynamic
    bytes; a custom type names a declared struct.  An error is one of the
    three parse errors and carries the type expression as it was written.
    The only panic is the index out of range. *)
Theorem parseType_outcome :
  forall (data : TypedData) (field : Type_),
    match parseType data field with
    | Ok ps =>
        match dt ps with
        | CustomType => byteLength ps = 0 /\ is_Some (Types data !! name ps)
        | IntType => name ps = "int" /\ 1 <= byteLength ps <= 32
        | UintType => name ps = "uint" /\ 1 <= byteLength ps <= 32
        | FixedBytesType => name ps = "bytes" /\ 1 <= byteLength ps <= 32
        | AddressType => name ps = "address" /\ byteLength ps = 20
        | BoolType => name ps = "bool" /\ byteLength ps = 0
        | StringType => name ps = "string" /\ byteLength ps = 0
        | BytesType => name ps = "bytes" /\ byteLength ps = 0
        end
    | Err e =>
        e = ErrUnknownType (Type' field) \/ e = ErrInvalidType (Type' field) \/
        exists lengthStr, e = ErrInvalidLength (Type' field) lengthStr
    | Panic p => p = IndexOutOfRange
    | Exhausted => False
    end.
Proof.
  intros data field. unfold parseType.
  destruct (stripArrays (TrimSpace (Type' field))) as [n levels].
  destruct (Types data !! n) as [fs |] eqn:Ht.
  - cbn. split; [reflexivity | rewrite Ht; eauto].
  - pose proof (parseElementary_outcome (Type' field) n levels) as H.
    destruct (parseElementary (Type' field) n levels) as [ps | e | p |];
      try exact H.
    destruct H as [_ H]. destruct (dt ps); try exact H. destruct H.
Qed.

(** ** Where the type resolver panics *)

Lemma allDigits_no_line_feed (s : string) :
  allDigits s = true -> hasLineFeed s = false.
Proof.
  induction s as [| c r IH]; [reflexivity |].
  cbn [allDigits hasLineFeed]. intros [Hc Hr]%andb_true_iff.
  rewrite (IH Hr), orb_false_r.
  destruct (Ascii.eqb_spec c "010") as [-> |]; [discriminate | reflexivity].
Qed.

Lemma lazyUntilDigits_none (rest pre : string) :
  lazyUntilDigits pre rest = None <-> hasLineFeed rest = true.
Proof.
  revert pre. induction rest as [| c r IH]; intros pre.
  - cbn. split; discriminate.
  - cbn [lazyUntilDigits].
    destruct (allDigits (String c r)) eqn:Hd.
    + rewrite (allDigits_no_line_feed _ Hd). split; discriminate.
    + cbn [hasLineFeed].
      destruct (Ascii.eqb c "010"); [cbn; tauto |].
      rewrite IH. reflexivity.
Qed.

Lemma splitDigits_none (n : string) :
  splitDigits n = None <-> n = EmptyString \/ hasLineFeed n = true.
Proof.
  destruct n as [| c r].
  - cbn. tauto.
  - cbn [splitDigits hasLineFeed].
    destruct (Ascii.eqb c "010").
    + cbn. tauto.
    + rewrite lazyUntilDigits_none. cbn.
      split; [tauto | intros [H | H]; [discriminate | exact H]].
Qed.

Lemma parseElementary_panics (fieldType n : string) (levels : list (option Z)) :
  parseElementary fieldType n levels = Panic IndexOutOfRange
  <-> splitDigits n = None.
Proof.
  unfold parseElementary.
  destruct (splitDigits n) as [[n' ls] |]; [| tauto].
  split; [| discriminate].
  destruct (nameToType n') as [[] |];
    repeat match goal with
           | |- context [if ?c then _ else _] => destruct c
           end; discriminate.
Qed.

(** X2.  [parseType] panics exactly when the name left after trimming and
    cutting the array suffixes is no declared struct and is empty or holds a
    line feed: the anchored pattern then has no match and its first group is
    read from a nil slice.  So an empty type expression, or one made of an
    array suffix only, panics unless a struct with the empty name is
    declared. *)
Theorem parseType_panics_iff :
  forall (data : TypedData) (field : Type_),
    let n := (stripArrays (TrimSpace (Type' field))).1 in
    (parseType data field = Panic IndexOutOfRange <->
     Types data !! n = None /\ (n = EmptyString \/ hasLineFeed n = true)) /\
    (forall fieldName,
        parseType data (mkType fieldName EmptyString) = Panic IndexOutOfRange
        <-> Types data !! EmptyString = None) /\
    (forall fieldName,
        parseType data (mkType fieldName "[]") = Panic IndexOutOfRange
        <-> Types data !! EmptyString = None).
Proof.
  intros data field n.
  assert (Hgen : forall f,
             parseType data f = Panic IndexOutOfRange <->
             Types data !! (stripArrays (TrimSpace (Type' f))).1 = None /\
             ((stripArrays (TrimSpace (Type' f))).1 = EmptyString \/
              hasLineFeed (stripArrays (TrimSpace (Type' f))).1 = true)).
  { intros f. unfold parseType.
    destruct (stripArrays (TrimSpace (Type' f))) as [m levels]. cbn [fst].
    destruct (Types data !! m) as [fs |].
    - split; [discriminate | intros [H _]; discriminate].
    - rewrite <- splitDigits_none, parseElementary_panics. tauto. }
  split; [apply Hgen |].
  split; intros fieldName; rewrite Hgen;
    (replace (stripArrays _).1 with EmptyString by (vm_compute; reflexivity));
    cbn; tauto.
Qed.

(** ** Array suffixes and surrounding white space *)

Lemma TrimSpace_plainEnds (s : string) : plainEnds s = true -> TrimSpace s = s.
Proof.
  unfold plainEnds.
  destruct (bytesOf s) as [| a l] eqn:Ha; [discriminate |].
  destruct (rev (a :: l)) as [| c l'] eqn:Hc; [discriminate |].
  intros [H1 H2]%andb_true_iff.
  eapply TrimSpace_plain; eauto. rewrite Ha. exact Hc.
Qed.

(** The part of [parseElementary]'s result that depends on the name alone. *)
Lemma parseElementary_Ok_indep (ft ft' n : string) (lv lv' : list (option Z))
    (ps : parsed) :
  parseElementary ft n lv = Ok ps ->
  parseElementary ft' n lv' = Ok (withLevels ps lv').
Proof.
  unfold parseElementary.
  destruct (splitDigits n) as [[n' ls] |]; [| discriminate].
  destruct (nameToType n') as [[] |];
    repeat match goal with
           | |- context [if ?c then _ else _] => destruct c
           end;
    try discriminate; intros H; injection H as <-; reflexivity.
Qed.

Lemma string_app_cons (c : ascii) (r t : string) :
  String c r +:+ t = String c (r +:+ t).
Proof. reflexivity. Qed.

Lemma string_app_empty (t : string) : EmptyString +:+ t = t.
Proof. reflexivity. Qed.

Lemma string_app_nil (s : string) : s +:+ EmptyString = s.
Proof.
  induction s as [| c r IH]; [reflexivity |].
  rewrite string_app_cons, IH. reflexivity.
Qed.

Lemma findArrayLengths_app (s t : string) :
  noOpening s = true -> findArrayLengths (s +:+ t) = findArrayLengths t.
Proof.
  induction s as [| c r IH]; [reflexivity |].
  cbn [noOpening]. intros [Hc Hr]%andb_true_iff.
  rewrite string_app_cons. cbn [findArrayLengths].
  destruct (Ascii.eqb c "["); [discriminate | auto].
Qed.

Lemma spanDigits_app (d : string) (c : ascii) (t : string) :
  allDigits d = true -> isDigit c = false ->
  spanDigits (d +:+ String c t) = (d, String c t).
Proof.
  intros Hd Hc. induction d as [| a r IH].
  - rewrite string_app_empty. cbn [spanDigits]. rewrite Hc. reflexivity.
  - cbn [allDigits] in Hd. apply andb_true_iff in Hd as [Ha Hr].
    rewrite string_app_cons. cbn [spanDigits]. rewrite Ha, (IH Hr).
    reflexivity.
Qed.

Lemma findArrayLengths_brackets (ds : list string) :
  Forall (fun d => allDigits d = true) ds ->
  findArrayLengths (brackets ds) = ds.
Proof.
  induction 1 as [| d r Hd _ IH]; [reflexivity |].
  cbn [brackets findArrayLengths].
  change (Ascii.eqb "[" "[") with true. cbv iota.
  rewrite (spanDigits_app d "]" (brackets r) Hd eq_refl).
  change (Ascii.eqb "]" "]") with true. cbv iota.
  rewrite (findArrayLengths_app d _ (noOpening_digits d Hd)).
  cbn [findArrayLengths]. change (Ascii.eqb "]" "[") with false. cbv iota.
  rewrite IH. reflexivity.
Qed.

Lemma beforeFirstBracket_app (s t : string) :
  noOpening s = true -> beforeFirstBracket (s +:+ String "[" t) = Some s.
Proof.
  induction s as [| c r IH].
  - reflexivity.
  - cbn [noOpening]. intros [Hc Hr]%andb_true_iff.
    rewrite string_app_cons. cbn [beforeFirstBracket].
    destruct (Ascii.eqb c "["); [discriminate |].
    rewrite (IH Hr). reflexivity.
Qed.

Lemma brackets_last (d : string) (r : list string) :
  exists l, rev (bytesOf (brackets (d :: r))) = 93 :: l.
Proof.
  revert d. induction r as [| d' r IH]; intros d.
  - cbn [brackets]. change (String "[" (d +:+ "]")) with ("[" +:+ (d +:+ "]")).
    rewrite !bytesOf_app, !rev_app_distr. cbn. eauto.
  - destruct (IH d') as [l Hl].
    change (brackets (d :: d' :: r))
      with ("[" +:+ (d +:+ ("]" +:+ brackets (d' :: r)))).
    rewrite !bytesOf_app, !rev_app_distr, Hl. cbn. eauto.
Qed.

Lemma stripArrays_brackets (base d : string) (r : list string) :
  noOpening base = true ->
  Forall (fun d => allDigits d = true) (d :: r) ->
  stripArrays (base +:+ brackets (d :: r)) = (base, arrayLevel <$> d :: r).
Proof.
  intros Hb Hds. unfold stripArrays.
  rewrite (findArrayLengths_app _ _ Hb), (findArrayLengths_brackets _ Hds).
  cbn [brackets]. rewrite (beforeFirstBracket_app _ _ Hb). reflexivity.
Qed.

Lemma plainEnds_brackets (base d : string) (r : list string) :
  plainEnds base = true -> plainEnds (base +:+ brackets (d :: r)) = true.
Proof.
  unfold plainEnds. rewrite bytesOf_app, rev_app_distr.
  destruct (bytesOf base) as [| a l]; [discriminate |].
  destruct (brackets_last d r) as [l' ->].
  destruct (rev (a :: l)); [discriminate |].
  cbn [app]. intros [-> _]%andb_true_iff. reflexivity.
Qed.

(** X3.  Array suffixes compose with the element type.  When a type
    expression without brackets and without surrounding white space
    resolves, the same expression followed by array suffixes resolves to the
    same kind, name and width, with one dimension per suffix from left to
    right: the number between the brackets, or none for an empty pair. *)
Theorem parseType_array_suffixes :
  forall (data : TypedData) (fieldName base : string) (ds : list string)
         (ps : parsed),
    plainEnds base = true ->
    noOpening base = true ->
    Forall (fun d => allDigits d = true) ds ->
    parseType data (mkType fieldName base) = Ok ps ->
    parseType data (mkType fieldName (base +:+ brackets ds))
    = Ok (withLevels ps (arrayLevel <$> ds)).
Proof.
  intros data fieldName base ds ps Hp Hb Hds.
  unfold parseType. cbn [Type'].
  rewrite (TrimSpace_plainEnds _ Hp), (stripArrays_plain _ Hb).
  destruct ds as [| d r].
  - cbn [brackets]. rewrite string_app_nil, (TrimSpace_plainEnds _ Hp),
      (stripArrays_plain _ Hb).
    destruct (Types data !! base).
    + intros H. injection H as <-. reflexivity.
    + apply parseElementary_Ok_indep.
  - rewrite (TrimSpace_plainEnds _ (plainEnds_brackets base d r Hp)),
      (stripArrays_brackets _ _ _ Hb Hds).
    destruct (Types data !! base).
    + intros H. injection H as <-. reflexivity.
    + apply parseElementary_Ok_indep.
Qed.

Lemma parseType_array_suffixes_witness :
  parseType emptyData (mkType "x" ("bytes4" +:+ brackets ["2"; ""; "10"]))
  = Ok (mkParsed FixedBytesType "bytes" 4 [Some 2; None; Some 10]).
Proof.
  apply (parseType_array_suffixes emptyData "x" "bytes4" ["2"; ""; "10"]
           (mkParsed FixedBytesType "bytes" 4 [])).
  - vm_compute. reflexivity.
  - vm_compute. reflexivity.
  - repeat constructor.
  - vm_compute. reflexivity.
Defined.

Lemma trimWith_spaces (f : list Z -> nat) (sp l : list Z) (fuel : nat) :
  (forall s r, isAsciiSpace s = true -> f (s :: r) = 1%nat) ->
  f l = 0%nat ->
  Forall (fun s => isAsciiSpace s = true) sp ->
  (length sp <= fuel)%nat ->
  trimWith f fuel (sp ++ l) = l.
Proof.
  intros Hf Hl Hsp. revert fuel.
  induction Hsp as [| s sp Hs _ IH]; intros fuel Hlen.
  - apply trimWith_stop, Hl.
  - destruct fuel as [| fuel]; [cbn in Hlen; lia |].
    cbn [app trimWith]. rewrite (Hf s _ Hs). cbn [drop].
    apply IH. cbn in Hlen. lia.
Qed.

Lemma allSpaces_bytes (s : string) :
  allSpaces s = true -> Forall (fun b => isAsciiSpace b = true) (bytesOf s).
Proof.
  induction s as [| c r IH]; [constructor |].
  cbn [allSpaces]. intros [Hc Hr]%andb_true_iff.
  constructor; auto.
Qed.

Lemma TrimSpace_padded (pre t post : string) :
  allSpaces pre = true -> allSpaces post = true -> plainEnds t = true ->
  TrimSpace (pre +:+ t +:+ post) = t.
Proof.
  intros Hpre Hpost Ht. unfold plainEnds in Ht.
  destruct (bytesOf t) as [| a l] eqn:Ha; [discriminate |].
  destruct (rev (a :: l)) as [| c l'] eqn:Hc; [discriminate |].
  apply andb_true_iff in Ht as [Hpa Hpc].
  unfold TrimSpace. rewrite !bytesOf_app, Ha.
  rewrite <- (app_comm_cons l (bytesOf post) a).
  rewrite (trimWith_spaces spaceAtHead (bytesOf pre) (a :: l ++ bytesOf post)).
  - rewrite (app_comm_cons l (bytesOf post) a), rev_app_distr, Hc.
    rewrite (trimWith_spaces spaceAtEnd (rev (bytesOf post)) (c :: l')).
    + rewrite <- Hc, rev_involutive, <- Ha. apply stringOf_bytesOf.
    + intros s r Hs. cbn [spaceAtEnd]. rewrite Hs. reflexivity.
    + apply spaceAtEnd_plain, Hpc.
    + apply Forall_rev, allSpaces_bytes, Hpost.
    + rewrite !length_app, !length_rev. cbn [length]. lia.
  - intros s r Hs. cbn [spaceAtHead]. rewrite Hs. reflexivity.
  - apply spaceAtHead_plain, Hpa.
  - apply allSpaces_bytes, Hpre.
  - rewrite !length_app. lia.
Qed.

(** X4.  White space around a type expression is ignored: ASCII white
    space before and after an expression resolves to what the expression
    alone resolves to, whatever the field is called. *)
Theorem parseType_ignores_outer_space :
  forall (data : TypedData) (fieldName fieldName' pre t post : string)
         (ps : parsed),
    allSpaces pre = true -> allSpaces post = true -> plainEnds t = true ->
    parseType data (mkType fieldName t) = Ok ps ->
    parseType data (mkType fieldName' (pre +:+ t +:+ post)) = Ok ps.
Proof.
  intros data fieldName fieldName' pre t post ps Hpre Hpost Ht.
  unfold parseType. cbn [Type'].
  rewrite (TrimSpace_padded _ _ _ Hpre Hpost Ht), (TrimSpace_plainEnds _ Ht).
  destruct (stripArrays t) as [n levels].
  destruct (Types data !! n); [trivial |].
  intros H.
  rewrite (parseElementary_Ok_indep _ (pre +:+ t +:+ post) _ _ levels _ H).
  pose proof (parseElementary_outcome t n levels) as Ho.
  rewrite H in Ho. destruct Ho as [Hl _].
  destruct ps. cbn in Hl. subst. reflexivity.
Qed.

Lemma parseType_ignores_outer_space_witness :
  parseType emptyData (mkType "y" (" " +:+ "uint16[]" +:+ String "010" " "))
  = Ok (mkParsed UintType "uint" 2 [None]).
Proof.
  apply (parseType_ignores_outer_space emptyData "x" "y" " " "uint16[]"
           (String "010" " ")); vm_compute; reflexivity.
Defined.

(** ** What the Ledger driver sends for a leaf *)

Lemma beBytes_shape (fuel : nat) :
  forall n acc, 0 <= n < 256 ^ Z.of_nat fuel ->
    exists ds, beBytes fuel n acc = ds ++ acc /\
      Forall isByte ds /\
      (n = 0 -> ds = []) /\
      (0 < n -> exists b r, ds = b :: r /\ 0 < b).
Proof.
  induction fuel as [| fuel IH]; intros n acc Hn.
  - exists []. repeat split; [constructor | cbn in Hn; lia].
  - cbn [beBytes]. destruct (Z.eqb_spec n 0) as [-> | Hne].
    + exists []. repeat split; [constructor | lia].
    + destruct (IH (n / 256) (n mod 256 :: acc)) as (ds & E & F & Z0 & Zp).
      { rewrite Nat2Z.inj_succ, Z.pow_succ_r in Hn by lia.
        split; [apply Z.div_pos; lia |].
        apply Z.div_lt_upper_bound; lia. }
      exists (ds ++ [n mod 256]). split; [| split; [| split]].
      * rewrite E, <- app_assoc. reflexivity.
      * apply Forall_app. split; [exact F |].
        constructor; [| constructor]. unfold isByte.
        apply Z.mod_pos_bound. lia.
      * lia.
      * intros _. destruct (Z.eq_dec (n / 256) 0) as [Hq | Hq].
        -- rewrite (Z0 Hq). exists (n mod 256), []. split; [reflexivity |].
           pose proof (Z.div_mod n 256). lia.
        -- destruct Zp as (b & r & -> & Hb).
           { pose proof (Z.div_pos n 256). lia. }
           exists b, (r ++ [n mod 256]). split; [reflexivity | exact Hb].
Qed.

Lemma bigBytes_shape (n : Z) :
  Forall isByte (bigBytes n) /\
  (n = 0 -> bigBytes n = []) /\
  (n <> 0 -> exists b r, bigBytes n = b :: r /\ 0 < b).
Proof.
  unfold bigBytes.
  destruct (beBytes_shape (S (Z.to_nat (Z.log2 (Z.abs n)))) (Z.abs n) [])
    as (ds & E & F & Z0 & Zp).
  - split; [lia |].
    destruct (Z.eq_dec (Z.abs n) 0) as [-> | Hne]; [reflexivity |].
    pose proof (Z.log2_nonneg (Z.abs n)) as Hl.
    rewrite Nat2Z.inj_succ, Z2Nat.id by exact Hl.
    pose proof (Z.log2_spec (Z.abs n) ltac:(lia)) as [_ Hu].
    eapply Z.lt_le_trans; [exact Hu |].
    change 256 with (2 ^ 8). rewrite <- Z.pow_mul_r by lia.
    apply Z.pow_le_mono_r; lia.
  - rewrite E, app_nil_r. repeat split.
    + exact F.
    + intros ->. apply Z0. reflexivity.
    + intros Hn. apply Zp. lia.
Qed.

Lemma int64_in_range (v : float) (n : Z) :
  truncate v = Some n -> minInt <= n <= maxInt -> int64 v = n.
Proof.
  intros Ht Hn. unfold int64. rewrite Ht.
  destruct (Z.leb_spec minInt n); [| lia].
  destruct (Z.leb_spec n maxInt); [| lia]. reflexivity.
Qed.

(** What [sendValue] does with a value of a type that is neither an array
    type nor a declared struct: the message of the leaf, or its error. *)
Lemma sendValue_leaf_log {Dev : Type}
    (exch : Dev -> apdu -> (transportError + list Z) * Dev)
    (data : TypedData) (fuel : nat) (t name : string) (v : value)
    (enc : list Z) (w : world Dev apdu) :
  endsWithBracket t = false ->
  Types data !! t = None ->
  ledgerLeaf t name v = Ok enc ->
  log (sendValue exch data (S fuel) t name v w).2
  = log w ++ [mkApdu 0x1c 0 0xff (leafPayload enc)].
Proof.
  intros Hend Ht Hleaf.
  assert (Hgo : log ((let* enc := lift (ledgerLeaf t name v) in
                      do wrapErr ("failed to send domain field " +:+ name)
                           (exchange exch ledgerOpEip712SendStructImpl
                              ledgerP1CompleteSend ledgerP2StructField
                              (leafPayload enc)) then
                      ret tt) w).2
                = log w ++ [mkApdu 0x1c 0 0xff (leafPayload enc)]).
  { rewrite Hleaf. unfold bind, lift, wrapErr, exchange, ret.
    destruct (exch _ _) as [[e | reply] d]; reflexivity. }
  destruct v; try discriminate; cbn [sendValue]; rewrite Hend, Ht; exact Hgo.
Qed.

Lemma sendValue_leaf_error {Dev : Type}
    (exch : Dev -> apdu -> (transportError + list Z) * Dev)
    (data : TypedData) (fuel : nat) (t name : string) (v : value)
    (e : error) (w : world Dev apdu) :
  endsWithBracket t = false ->
  Types data !! t = None ->
  ledgerLeaf t name v = Err e ->
  exists e', sendValue exch data (S fuel) t name v w = (Err e', w).
Proof.
  intros Hend Ht Hleaf.
  destruct v; cbn [sendValue]; [eexists; reflexivity | ..];
    rewrite Hend, Ht; unfold bind, lift; rewrite Hleaf; eauto.
Qed.

(** X5.  For a field whose type is neither an array type nor a declared
    struct, [sendValue] sends one message for a number, whatever elementary
    type the field declares: for a [float64] the bytes of its integer part
    (when that fits an [int64]), for a [*math.HexOrDecimal256] the bytes of
    the integer it holds.  The bytes are the shortest big-endian form of the
    absolute value: none for zero, no leading zero byte, and the sign is
    lost. *)
Theorem ledger_number_bytes :
  forall (Dev : Type) (exch : Dev -> apdu -> (transportError + list Z) * Dev)
         (data : TypedData) (fuel : nat) (t name : string)
         (w : world Dev apdu),
    endsWithBracket t = false ->
    Types data !! t = None ->
    (forall v n,
        truncate v = Some n -> minInt <= n <= maxInt ->
        log (sendValue exch data (S fuel) t name (VFloat v) w).2
        = log w ++ [mkApdu 0x1c 0 0xff (leafPayload (bigBytes n))]) /\
    (forall h,
        log (sendValue exch data (S fuel) t name (VHexOrDecimal (Some h)) w).2
        = log w ++ [mkApdu 0x1c 0 0xff (leafPayload (bigBytes h))]) /\
    (forall n,
        beValue (bigBytes n) = Z.abs n /\
        Forall isByte (bigBytes n) /\
        (bigBytes n = [] <-> n = 0) /\
        head (bigBytes n) <> Some 0 /\
        bigBytes (- n) = bigBytes n).
Proof.
  intros Dev exch data fuel t name w Hend Ht. split; [| split].
  - intros v n Hv Hn. apply sendValue_leaf_log; try assumption.
    cbn [ledgerLeaf]. rewrite (int64_in_range v n Hv Hn). reflexivity.
  - intros h. apply sendValue_leaf_log; try assumption. reflexivity.
  - intros n. destruct (bigBytes_shape n) as (F & Z0 & Zp).
    split; [apply beBytes_value |]. split; [exact F |].
    split; [| split].
    + split; [| exact Z0].
      intros E. destruct (Z.eq_dec n 0) as [| Hne]; [assumption |].
      destruct (Zp Hne) as (b & r & E' & _). congruence.
    + destruct (Z.eq_dec n 0) as [-> | Hne].
      * rewrite Z0 by reflexivity. discriminate.
      * destruct (Zp Hne) as (b & r & -> & Hb). cbn. intros [= ->]. lia.
    + unfold bigBytes. rewrite Z.abs_opp. reflexivity.
Qed.

Lemma ledger_number_bytes_witness :
  log (sendValue acceptingLedger emptyData 1 "int8" "n" (VFloat (-3.5))
         (start tt)).2
  = [mkApdu 28 0 255 [0; 1; 3]].
Proof.
  destruct (ledger_number_bytes unit acceptingLedger emptyData 0 "int8" "n"
              (start tt) eq_refl eq_refl) as (H & _ & _).
  apply (H (-3.5)%float (-3)).
  - vm_compute. reflexivity.
  - unfold minInt, maxInt. lia.
Defined.

Lemma fromHexChar_range (c : ascii) (a : Z) :
  fromHexChar c = Some a -> 0 <= a < 16.
Proof.
  unfold fromHexChar.
  repeat match goal with
         | |- context [if ?c then _ else _] => destruct c eqn:?
         end; intros [= <-]; lia.
Qed.

Lemma hexDecodeString_spec (n : nat) :
  forall s, (String.length s <= n)%nat ->
    ((hexDecodeString s).2 = true
     <-> allHex s = true /\ Nat.even (String.length s) = true) /\
    ((hexDecodeString s).2 = true ->
     String.length s = (2 * length (hexDecodeString s).1)%nat) /\
    Forall isByte (hexDecodeString s).1.
Proof.
  induction n as [| n IH]; intros s Hn.
  - destruct s; [| cbn [String.length] in Hn; lia].
    cbn. repeat split; auto.
  - destruct s as [| p [| q r]].
    + cbn. repeat split; auto.
    + cbn [hexDecodeString snd fst String.length].
      repeat split; try discriminate; [| constructor].
      intros [_ H]. discriminate.
    + destruct (IH r) as (Hiff & Hlen & Hb);
        [cbn [String.length] in Hn; lia |].
      cbn [hexDecodeString allHex].
      change (String.length (String p (String q r)))
        with (S (S (String.length r))).
      rewrite Nat.even_succ_succ.
      destruct (fromHexChar p) as [a |] eqn:Hp.
      2:{ cbn [snd fst]. repeat split; try discriminate; [| constructor].
          intros [H _]. apply andb_true_iff in H as [H _].
          apply bool_decide_eq_true in H. destruct H; discriminate. }
      destruct (fromHexChar q) as [b |] eqn:Hq.
      2:{ cbn [snd fst]. repeat split; try discriminate; [| constructor].
          intros [H _]. apply andb_true_iff in H as [_ H].
          apply andb_true_iff in H as [H _].
          apply bool_decide_eq_true in H. destruct H; discriminate. }
      destruct (hexDecodeString r) as [l ok]. cbn [snd fst] in *.
      rewrite !bool_decide_eq_true_2 by eauto. cbn [andb].
      split; [exact Hiff |]. split.
      * intros H. rewrite (Hlen H). cbn [length]. lia.
      * constructor; [| exact Hb].
        apply fromHexChar_range in Hp, Hq. unfold isByte. lia.
Qed.

Lemma prefix_0x (s : string) :
  String.prefix "0x" s = true <-> exists r, s = String "0" (String "x" r).
Proof.
  destruct s as [| a [| b r]]; cbn [String.prefix].
  - split; [discriminate | intros [r H]; discriminate].
  - destruct (Ascii.ascii_dec "0" a);
      (split; [discriminate | intros [r H]; discriminate]).
  - destruct (Ascii.ascii_dec "0" a) as [<- | Ha].
    + destruct (Ascii.ascii_dec "x" b) as [<- | Hb].
      * split; [eauto | intros _; destruct r; reflexivity].
      * split; [discriminate | intros [r' H]; congruence].
    + split; [discriminate | intros [r' H]; congruence].
Qed.

(** X6.  For a field whose type is not [string], no array type and no
    declared struct, [sendValue] sends a string value exactly when it is
    [0x] in lower case followed by an even number of hexadecimal digits:
    it then sends one message with half as many bytes as there are digits,
    and otherwise it returns an error and sends nothing. *)
Theorem ledger_hex_string_accepted :
  forall (Dev : Type) (exch : Dev -> apdu -> (transportError + list Z) * Dev)
         (data : TypedData) (fuel : nat) (t name s : string)
         (w : world Dev apdu),
    t <> "string" ->
    endsWithBracket t = false ->
    Types data !! t = None ->
    let wellFormed :=
      exists r, s = String "0" (String "x" r) /\ allHex r = true /\
                Nat.even (String.length r) = true in
    (wellFormed ->
     exists enc,
       log (sendValue exch data (S fuel) t name (VString s) w).2
       = log w ++ [mkApdu 0x1c 0 0xff (leafPayload enc)] /\
       String.length s = (2 + 2 * length enc)%nat /\
       Forall isByte enc) /\
    (~ wellFormed ->
     exists e, sendValue exch data (S fuel) t name (VString s) w = (Err e, w)).
Proof.
  intros Dev exch data fuel t name s w Ht Hend Hty wellFormed.
  assert (Hleaf :
            (wellFormed ->
             exists enc, ledgerLeaf t name (VString s) = Ok enc /\
                         String.length s = (2 + 2 * length enc)%nat /\
                         Forall isByte enc) /\
            (~ wellFormed -> exists e, ledgerLeaf t name (VString s) = Err e)).
  { subst wellFormed. unfold ledgerLeaf.
    destruct (String.eqb_spec t "string"); [contradiction |].
    destruct (String.prefix "0x" s) eqn:Hp.
    - apply prefix_0x in Hp as [r ->]. cbn [dropPrefix2].
      destruct (hexDecodeString_spec (String.length r) r (le_n _))
        as (Hiff & Hlen & Hb).
      destruct (hexDecodeString r) as [l ok]. cbn [fst snd] in *.
      destruct ok.
      + split; [| intros Hn; exfalso; apply Hn; exists r;
                  split; [reflexivity | apply Hiff; reflexivity]].
        intros _. exists l. split; [reflexivity |]. split; [| exact Hb].
        change (String.length (String "0" (String "x" r)))
          with (S (S (String.length r))).
        rewrite Hlen by reflexivity. lia.
      + split; [| eauto].
        intros (r' & [= <-] & H). apply Hiff in H. discriminate.
    - split; [| eauto].
      intros (r & -> & _).
      assert (String.prefix "0x" (String "0" (String "x" r)) = true) as H
        by (apply prefix_0x; eauto).
      congruence. }
  destruct Hleaf as [Hyes Hno]. split.
  - intros Hw. destruct (Hyes Hw) as (enc & Hl & Hlen & Hb).
    exists enc. split; [| split; assumption].
    apply sendValue_leaf_log; assumption.
  - intros Hw. destruct (Hno Hw) as (e & He).
    eapply sendValue_leaf_error; eassumption.
Qed.

Lemma ledger_hex_string_accepted_witness :
  exists enc,
    log (sendValue acceptingLedger emptyData 1 "uint16" "n" (VString "0x00ff")
           (start tt)).2
    = [mkApdu 28 0 255 (leafPayload enc)] /\
    String.length "0x00ff" = (2 + 2 * length enc)%nat /\
    Forall isByte enc.
Proof.
  refine (proj1 (ledger_hex_string_accepted unit acceptingLedger emptyData 0
                   "uint16" "n" "0x00ff" (start tt) _ eq_refl eq_refl) _).
  - discriminate.
  - exists "00ff". repeat split; reflexivity.
Defined.

(** ** The derivation path in the signing requests *)

Lemma putUint32_cons (n : Z) :
  exists b0 b1 b2 b3, putUint32 n = [b0; b1; b2; b3].
Proof. unfold putUint32. cbv zeta. eauto. Qed.

Lemma components_length (path : list Z) :
  length (concat (putUint32 <$> path)) = (4 * length path)%nat.
Proof.
  induction path as [| c path IH]; [reflexivity |].
  cbn [fmap list_fmap concat]. rewrite length_app, IH.
  destruct (putUint32_cons c) as (b0 & b1 & b2 & b3 & ->). cbn [length]. lia.
Qed.

Lemma components_lookup (path : list Z) :
  forall (i : nat) (c : Z) (rest : list Z),
    path !! i = Some c ->
    take 4 (drop (4 * i) (concat (putUint32 <$> path) ++ rest)) = putUint32 c.
Proof.
  induction path as [| a path IH]; intros i c rest H; [discriminate |].
  cbn [fmap list_fmap concat].
  destruct (putUint32_cons a) as (b0 & b1 & b2 & b3 & E).
  destruct i as [| i].
  - cbn in H. injection H as <-. rewrite E. reflexivity.
  - cbn in H. rewrite E.
    replace (4 * S i)%nat with (S (S (S (S (4 * i))))) by lia.
    cbn [app drop]. apply IH, H.
Qed.

Lemma putUint32_value (n : Z) :
  beValue (putUint32 n) = n mod 4294967296 /\ Forall isByte (putUint32 n).
Proof.
  unfold putUint32, beValue, isByte. cbv zeta. cbn [fold_left].
  pose proof (Z.mod_pos_bound n 4294967296 eq_refl) as Hu.
  set (u := n mod 4294967296) in *.
  pose proof (Z.div_mod u 256 ltac:(lia)).
  pose proof (Z.div_mod (u / 256) 256 ltac:(lia)).
  pose proof (Z.div_mod (u / 65536) 256 ltac:(lia)).
  pose proof (Z.mod_pos_bound u 256 eq_refl).
  pose proof (Z.mod_pos_bound (u / 256) 256 eq_refl).
  pose proof (Z.mod_pos_bound (u / 65536) 256 eq_refl).
  assert (u / 65536 = u / 256 / 256) as E1
    by (rewrite Z.div_div by lia; reflexivity).
  assert (u / 16777216 = u / 65536 / 256) as E2
    by (rewrite Z.div_div by lia; reflexivity).
  assert (0 <= u / 16777216 < 256) as Htop.
  { split; [apply Z.div_pos; lia |].
    apply Z.div_lt_upper_bound; lia. }
  split; [lia |].
  repeat constructor; lia.
Qed.

Lemma flattenPath_layout (path rest : list Z) :
  let p := flattenPath path ++ rest in
  length p = (1 + 4 * length path + length rest)%nat /\
  p !! 0%nat = Some (len path mod 256) /\
  (forall i c, path !! i = Some c ->
     take 4 (drop (1 + 4 * i) p) = putUint32 c) /\
  drop (1 + 4 * length path) p = rest.
Proof.
  unfold flattenPath. cbn [app]. repeat split.
  - cbn [length]. rewrite length_app, components_length. lia.
  - intros i c H. cbn [Nat.add drop]. apply components_lookup, H.
  - cbn [Nat.add drop]. rewrite <- components_length.
    apply drop_app_length.
Qed.

(** X7.  The derivation path in the two signing requests of the Ledger
    driver.  Each call sends one request whose data starts with the number
    of components reduced to a byte, followed by every component as four
    big-endian bytes in order; the personal-message request goes on with the
    length of the text as four big-endian bytes and the text itself.  No
    bound on the number of components is enforced: beyond 255 components
    the count byte wraps. *)
Theorem ledger_path_layout :
  forall (Dev : Type) (exch : Dev -> apdu -> (transportError + list Z) * Dev)
         (opSign p1Init : Z) (path text : list Z) (w : world Dev apdu),
    (exists a,
        log (ledgerSignPersonalMessage exch p1Init path text w).2
          = log w ++ [a] /\
        opcode a = 8 /\ p1 a = p1Init /\ p2 a = 0 /\
        length (payload a) = (5 + 4 * length path + length text)%nat /\
        payload a !! 0%nat = Some (len path mod 256) /\
        (forall i c, path !! i = Some c ->
           take 4 (drop (1 + 4 * i) (payload a)) = putUint32 c) /\
        take 4 (drop (1 + 4 * length path) (payload a))
          = putUint32 (len text) /\
        drop (5 + 4 * length path) (payload a) = text) /\
    (exists a,
        log (requestSignature exch opSign path w).2 = log w ++ [a] /\
        opcode a = opSign /\ p1 a = 0 /\ p2 a = 1 /\
        length (payload a) = (1 + 4 * length path)%nat /\
        payload a !! 0%nat = Some (len path mod 256) /\
        (forall i c, path !! i = Some c ->
           take 4 (drop (1 + 4 * i) (payload a)) = putUint32 c)) /\
    (forall n,
        beValue (putUint32 n) = n mod 4294967296 /\
        Forall isByte (putUint32 n)).
Proof.
  intros Dev exch opSign p1Init path text w.
  split; [| split; [| apply putUint32_value]].
  - eexists. split.
    { unfold ledgerSignPersonalMessage, bind, exchange.
      destruct (exch _ _) as [[e | reply] d]; cbn [log snd]; [reflexivity |].
      destruct (negb _); reflexivity. }
    cbn [opcode p1 p2 payload].
    destruct (flattenPath_layout path (putUint32 (len text) ++ text))
      as (Hlen & H0 & Hc & Hd).
    cbv zeta in *. rewrite <- !app_assoc.
    destruct (putUint32_cons (len text)) as (b0 & b1 & b2 & b3 & E).
    split; [reflexivity |]. split; [reflexivity |]. split; [reflexivity |].
    split; [| split; [| split; [| split]]].
    + rewrite Hlen, length_app, E. cbn [length]. lia.
    + exact H0.
    + exact Hc.
    + rewrite Hd, E. reflexivity.
    + replace (5 + 4 * length path)%nat with (1 + 4 * length path + 4)%nat
        by lia.
      rewrite <- drop_drop, Hd, E. reflexivity.
  - eexists. split.
    { unfold requestSignature, bind, exchange.
      destruct (exch _ _) as [[e | reply] d]; cbn [log snd]; [reflexivity |].
      destruct (negb _); reflexivity. }
    cbn [opcode p1 p2 payload].
    destruct (flattenPath_layout path []) as (Hlen & H0 & Hc & _).
    cbv zeta in *. rewrite app_nil_r in *. cbn [length] in Hlen.
    split; [reflexivity |]. split; [reflexivity |]. split; [reflexivity |].
    split; [lia |]. split; assumption.
Qed.

(** ** The struct-field definitions sent to a Ledger *)

Lemma bytesOf_length (s : string) : length (bytesOf s) = String.length s.
Proof.
  unfold bytesOf. rewrite length_map.
  induction s as [| c r IH]; [reflexivity |]. cbn. rewrite IH. reflexivity.
Qed.

Lemma readString_app (s : string) (rest : list Z) :
  slen s < 256 ->
  readString (toByte (slen s) :: bytesOf s ++ rest) = Some (s, rest).
Proof.
  intros Hs. unfold readString, toByte, slen in *.
  rewrite Z.mod_small by lia. rewrite Nat2Z.id.
  rewrite <- bytesOf_length.
  destruct (Nat.leb_spec (length (bytesOf s)) (length (bytesOf s ++ rest)))
    as [_ | H]; [| rewrite length_app in H; lia].
  rewrite take_app_length, drop_app_length, stringOf_bytesOf. reflexivity.
Qed.

Lemma readLevels_app (ls : list (option Z)) (rest : list Z) :
  readLevels (length ls)
    (concat ((fun l => match l with
                       | None => [0]
                       | Some n => [1; toByte n]
                       end) <$> ls) ++ rest)
  = Some ((fun l : option Z => toByte <$> l) <$> ls, rest).
Proof.
  induction ls as [| [n |] ls IH]; [reflexivity | |];
    cbn [length fmap list_fmap concat app readLevels Z.eqb option_fmap
         option_map];
    rewrite IH; reflexivity.
Qed.

Lemma readString_end (s : string) :
  slen s < 256 -> readString (toByte (slen s) :: bytesOf s) = Some (s, []).
Proof.
  intros Hs. rewrite <- (app_nil_r (bytesOf s)). apply readString_app, Hs.
Qed.

Ltac read_def :=
  repeat first
    [ rewrite readString_end by assumption
    | rewrite readString_app by assumption
    | rewrite readLevels_app
    | match goal with H : Z.to_nat (toByte _) = _ |- _ => rewrite H end
    | progress cbn [app readFieldDef dataTypeByte fmap list_fmap]
    | progress (simpl Z.lor; simpl Z.land; simpl Z.testbit; simpl Z.eqb) ];
  reflexivity.

(** X8.  A struct-field definition can be read back from the payload that
    [sendField] builds: the kind, the name of a custom type, the width of
    an int, uint or fixed-bytes type, the array dimensions in order and the
    field's name.  Names must be shorter than 256 bytes and there must be
    fewer than 256 dimensions; a fixed dimension is sent reduced to a byte,
    so a dimension of 256 or more is not sent as declared. *)
Theorem field_definition_round_trip :
  forall (p : parsed) (fieldName : string),
    slen (name p) < 256 ->
    slen fieldName < 256 ->
    len (arrayLevels p) < 256 ->
    readFieldDef (fieldPayload p fieldName) = Some (fieldDefOf p fieldName).
Proof.
  intros [d n bl lv] fieldName Hn Hf Hl. cbn [name arrayLevels] in *.
  unfold fieldPayload, fieldDefOf. cbn [dt name byteLength arrayLevels].
  assert (Hlv : Z.to_nat (toByte (len lv)) = length lv).
  { unfold toByte, len in *. rewrite Z.mod_small by lia. apply Nat2Z.id. }
  destruct lv as [| l lv].
  - change (0 <? len (@nil (option Z))) with false.
    destruct d; read_def.
  - set (levels := l :: lv) in *.
    assert (Hpos : (0 <? len levels) = true)
      by (apply Z.ltb_lt; unfold len, levels; cbn [length]; lia).
    rewrite Hpos.
    destruct d; read_def.
Qed.

Lemma field_definition_round_trip_witness :
  readFieldDef
    (fieldPayload (mkParsed UintType "uint" 32 [Some 3; None]) "amounts")
  = Some (mkFieldDef 2 None (Some 32) [Some 3; None] "amounts").
Proof.
  apply (field_definition_round_trip
           (mkParsed UintType "uint" 32 [Some 3; None]) "amounts");
    vm_compute; reflexivity.
Defined.

(** ** The order of the messages sent to a Ledger *)

Section LedgerMessages.
Context {Dev : Type}.
Variable exch : Dev -> apdu -> (transportError + list Z) * Dev.

Lemma emits_ret {A} (P : apdu -> Prop) (a : A) : emits (Dev := Dev) P (ret a).
Proof. intros w. exists []. rewrite app_nil_r. split; [reflexivity | constructor]. Qed.

Lemma emits_fail {A} (P : apdu -> Prop) (e : error) :
  emits (Dev := Dev) (A := A) P (fail e).
Proof. intros w. exists []. rewrite app_nil_r. split; [reflexivity | constructor]. Qed.

Lemma emits_lift {A} (P : apdu -> Prop) (r : result A) :
  emits (Dev := Dev) P (lift r).
Proof. intros w. exists []. rewrite app_nil_r. split; [reflexivity | constructor]. Qed.

Lemma exchange_log op p1 p2 payload (w : world Dev apdu) :
  log (exchange exch op p1 p2 payload w).2
  = log w ++ [mkApdu op p1 p2 payload].
Proof. unfold exchange. destruct (exch _ _) as [[e | reply] d]; reflexivity. Qed.

Lemma emits_exchange (P : apdu -> Prop) op p1 p2 payload :
  P (mkApdu op p1 p2 payload) -> emits P (exchange exch op p1 p2 payload).
Proof.
  intros HP w. eexists. split; [apply exchange_log |].
  constructor; [exact HP | constructor].
Qed.

Lemma emits_bind {A B} (P : apdu -> Prop) (m : M Dev apdu A)
    (k : A -> M Dev apdu B) :
  emits P m -> (forall a, emits P (k a)) -> emits P (bind m k).
Proof.
  intros Hm Hk w. unfold bind.
  destruct (Hm w) as (l1 & E1 & F1).
  destruct (m w) as [[a | e | p |] w1]; cbn [snd] in *; eauto.
  destruct (Hk a w1) as (l2 & E2 & F2).
  exists (l1 ++ l2). rewrite E2, E1, app_assoc. split; [reflexivity |].
  apply Forall_app; auto.
Qed.

Lemma emits_wrapErr {A} (P : apdu -> Prop) (context : string)
    (m : M Dev apdu A) :
  emits P m -> emits P (wrapErr context m).
Proof.
  intros Hm w. unfold wrapErr. destruct (Hm w) as (l1 & E1 & F1).
  destruct (m w) as [[a | e | p |] w1]; cbn [snd] in *; eauto.
Qed.

Lemma emits_forEach {A} (P : apdu -> Prop) (l : list A)
    (f : A -> M Dev apdu unit) :
  (forall x, emits P (f x)) -> emits P (forEach l f).
Proof.
  intros Hf. induction l as [| x l IH]; cbn [forEach].
  - apply emits_ret.
  - apply emits_bind; auto.
Qed.

Lemma emits_sendValue (data : TypedData) (fuel : nat) :
  forall t name v, emits isImplementation (sendValue exch data fuel t name v).
Proof.
  assert (Himpl : forall p2 payload,
             p2 = 0x00 \/ p2 = 0x0f \/ p2 = 0xff ->
             isImplementation (mkApdu ledgerOpEip712SendStructImpl
                                 ledgerP1CompleteSend p2 payload)).
  { intros p2 payload H. repeat split; assumption. }
  induction fuel as [| fuel IH]; intros t name v; cbn [sendValue].
  - apply emits_lift.
  - assert (Harr : forall a : list value,
               emits isImplementation
                 (do wrapErr "failed to send array length"
                       (exchange exch ledgerOpEip712SendStructImpl
                          ledgerP1CompleteSend ledgerP2Array
                          [toByte (len a)]) then
                  match beforeLastBracket t with
                  | None => lift (Panic SliceOutOfRange)
                  | Some t' =>
                      forEach a (fun item =>
                        wrapErr "failed to send array item"
                          (sendValue exch data fuel t' name item))
                  end)).
    { intros a. apply emits_bind.
      - apply emits_wrapErr, emits_exchange, Himpl. auto.
      - intros _. destruct (beforeLastBracket t).
        + apply emits_forEach. intros x. apply emits_wrapErr, IH.
        + apply emits_lift. }
    assert (Hleaf : emits isImplementation
               (let* enc := lift (ledgerLeaf t name v) in
                do wrapErr ("failed to send domain field " +:+ name)
                     (exchange exch ledgerOpEip712SendStructImpl
                        ledgerP1CompleteSend ledgerP2StructField
                        (leafPayload enc)) then
                ret tt)).
    { apply emits_bind; [apply emits_lift |]. intros enc.
      apply emits_bind; [| intros _; apply emits_ret].
      apply emits_wrapErr, emits_exchange, Himpl. auto. }
    destruct v; try apply emits_fail;
      (destruct (endsWithBracket t);
       [first [apply emits_fail | apply Harr] |]);
      (destruct (Types data !! t);
       [first [apply emits_fail
              | apply emits_forEach; intros x; apply emits_wrapErr, IH]
       | exact Hleaf]).
Qed.

Lemma emits_sendStructDefs (data : TypedData) :
  emits isDefinition (sendStructDefs exch data).
Proof.
  unfold sendStructDefs. apply emits_forEach. intros [name fields].
  apply emits_bind.
  - apply emits_wrapErr, emits_exchange. repeat split. left. reflexivity.
  - intros _. apply emits_forEach. intros field. apply emits_wrapErr.
    unfold sendField. apply emits_bind; [apply emits_lift |]. intros p.
    apply emits_bind; [| intros _; apply emits_ret].
    apply emits_exchange. repeat split. right. reflexivity.
Qed.

Lemma wrapErr_Ok_inv {A} (context : string) (m : M Dev apdu A)
    (w w' : world Dev apdu) (a : A) :
  wrapErr context m w = (Ok a, w') -> m w = (Ok a, w').
Proof.
  unfold wrapErr. destruct (m w) as [[x | e | p |] w1]; congruence.
Qed.

Lemma emits_sendStructImpls (data : TypedData) :
  emits isImplementation (sendStructImpls exch data).
Proof.
  assert (Hname : forall payload,
             isImplementation (mkApdu ledgerOpEip712SendStructImpl
                                 ledgerP1CompleteSend ledgerP2RootStruct
                                 payload)).
  { intros payload. repeat split. left. reflexivity. }
  unfold sendStructImpls, sendValueOf.
  apply emits_bind; [apply emits_wrapErr, emits_exchange, Hname |]. intros _.
  apply emits_bind; [apply emits_wrapErr, emits_sendValue |]. intros _.
  apply emits_bind; [apply emits_wrapErr, emits_exchange, Hname |]. intros _.
  apply emits_wrapErr, emits_sendValue.
Qed.

(** What the second phase has sent when it succeeds: the name of the
    domain struct first, the name of the primary type later. *)
Lemma sendStructImpls_Ok (data : TypedData) (w w' : world Dev apdu) :
  sendStructImpls exch data w = (Ok tt, w') ->
  exists rest,
    log w' = log w ++
      mkApdu ledgerOpEip712SendStructImpl ledgerP1CompleteSend
        ledgerP2RootStruct (bytesOf "EIP712Domain") :: rest /\
    mkApdu ledgerOpEip712SendStructImpl ledgerP1CompleteSend
      ledgerP2RootStruct (bytesOf (PrimaryType data)) ∈ rest.
Proof.
  unfold sendStructImpls. intros H.
  apply bind_Ok_inv in H as (r1 & w1 & H1 & H).
  apply bind_Ok_inv in H as ([] & w2 & H2 & H).
  apply bind_Ok_inv in H as (r3 & w3 & H3 & H4).
  apply wrapErr_Ok_inv in H1, H2, H3, H4.
  pose proof (exchange_log ledgerOpEip712SendStructImpl ledgerP1CompleteSend
                ledgerP2RootStruct (bytesOf "EIP712Domain") w) as L1.
  rewrite H1 in L1. cbn [snd] in L1.
  unfold sendValueOf in H2, H4.
  destruct (emits_sendValue data (S (depth (VMap (DomainMap data))))
              "EIP712Domain" "domain" (VMap (DomainMap data)) w1)
    as (l2 & L2 & _).
  rewrite H2 in L2. cbn [snd] in L2.
  pose proof (exchange_log ledgerOpEip712SendStructImpl ledgerP1CompleteSend
                ledgerP2RootStruct (bytesOf (PrimaryType data)) w2) as L3.
  rewrite H3 in L3. cbn [snd] in L3.
  destruct (emits_sendValue data (S (depth (VMap (Message data))))
              (PrimaryType data) "message" (VMap (Message data)) w3)
    as (l4 & L4 & _).
  rewrite H4 in L4. cbn [snd] in L4.
  exists (l2 ++ mkApdu ledgerOpEip712SendStructImpl ledgerP1CompleteSend
                  ledgerP2RootStruct (bytesOf (PrimaryType data)) :: l4).
  split.
  - rewrite L4, L3, L2, L1, <- !app_assoc. reflexivity.
  - apply elem_of_app. right. left.
Qed.
End LedgerMessages.

(** X9.  The messages of one typed-data signing on a Ledger come in three
    runs: struct definitions (opcode 0x1a), then struct values (opcode
    0x1c), then at most one signing request, which is the last message.
    When the call returns a signature the signing request was sent, the
    values started with the name of the domain struct and the name of the
    primary type was sent after it. *)
Theorem ledger_typed_data_phases :
  forall (Dev : Type) (exch : Dev -> apdu -> (transportError + list Z) * Dev)
         (opSign : Z) (data : TypedData) (path : list Z) (w : world Dev apdu),
    let out := ledgerSignTypedData exch opSign data path w in
    exists defs impls sign,
      log out.2 = log w ++ defs ++ impls ++ sign /\
      Forall isDefinition defs /\
      Forall isImplementation impls /\
      (sign = [] \/ sign = [signRequest opSign path]) /\
      (forall signature,
          out.1 = Ok signature ->
          sign = [signRequest opSign path] /\
          exists rest,
            impls = mkApdu 0x1c 0 0 (bytesOf "EIP712Domain") :: rest /\
            mkApdu 0x1c 0 0 (bytesOf (PrimaryType data)) ∈ rest).
Proof.
  intros Dev exch opSign data path w out. subst out.
  unfold ledgerSignTypedData.
  assert (Hnone : forall e,
             exists defs impls sign,
               log (fail (A := list Z) e w).2 = log w ++ defs ++ impls ++ sign /\
               Forall isDefinition defs /\ Forall isImplementation impls /\
               (sign = [] \/ sign = [signRequest opSign path]) /\
               (forall signature,
                   (fail (A := list Z) e w).1 = Ok signature ->
                   sign = [signRequest opSign path] /\
                   exists rest,
                     impls = mkApdu 0x1c 0 0 (bytesOf "EIP712Domain") :: rest /\
                     mkApdu 0x1c 0 0 (bytesOf (PrimaryType data)) ∈ rest)).
  { intros e. exists [], [], []. cbn. rewrite app_nil_r.
    repeat split; auto; discriminate. }
  destruct (Types data !! "EIP712Domain"); [| apply Hnone].
  destruct (Types data !! PrimaryType data); [| apply Hnone].
  clear Hnone. unfold bind. cbv beta.
  destruct (emits_sendStructDefs exch data w) as (defs & E1 & F1).
  destruct (sendStructDefs exch data w) as [[[] | e | p |] w1] eqn:H1;
    cbn [fst snd] in *;
    try (exists defs, [], []; rewrite !app_nil_r;
         repeat split; auto; discriminate).
  destruct (emits_sendStructImpls exch data w1) as (impls & E2 & F2).
  destruct (sendStructImpls exch data w1) as [[[] | e | p |] w2] eqn:H2;
    cbn [fst snd] in *;
    try (exists defs, impls, []; rewrite !app_nil_r, E2, E1, <- app_assoc;
         repeat split; auto; discriminate).
  exists defs, impls, [signRequest opSign path].
  assert (L3 : log (requestSignature exch opSign path w2).2
               = log w2 ++ [signRequest opSign path]).
  { unfold requestSignature, bind.
    pose proof (exchange_log exch opSign 0 ledgerP2FullImplementation
                  (flattenPath path) w2) as L.
    destruct (exchange exch opSign 0 ledgerP2FullImplementation
                (flattenPath path) w2) as [[reply | e | p |] w3];
      cbn [snd] in *; try exact L.
    destruct (negb _); exact L. }
  rewrite L3, E2, E1, <- !app_assoc.
  repeat split; auto.
  destruct (sendStructImpls_Ok exch data w1 w2 H2) as (rest & L & Hin).
  exists rest. split; [| exact Hin].
  rewrite E2 in L. apply app_inv_head in L. exact L.
Qed.

Lemma ledger_typed_data_phases_witness :
  let out :=
    ledgerSignTypedData (constantLedger (27 :: replicate 64 1)) 12
      pairDomainData [44] (start tt) in
  out.1 = Ok (replicate 64 1 ++ [27]) /\
  exists defs impls,
    log out.2 = defs ++ impls ++ [signRequest 12 [44]] /\
    Forall isDefinition defs /\ Forall isImplementation impls.
Proof.
  intros out.
  assert (Hout : out.1 = Ok (replicate 64 1 ++ [27]))
    by (vm_compute; reflexivity).
  split; [exact Hout |].
  destruct (ledger_typed_data_phases unit (constantLedger (27 :: replicate 64 1))
              12 pairDomainData [44] (start tt))
    as (defs & impls & sign & Hlog & F1 & F2 & _ & Hok).
  destruct (Hok _ Hout) as [-> _].
  exists defs, impls. split; [exact Hlog | split; assumption].
Defined.

Lemma ledger_path_layout_witness :
  exists a,
    log (ledgerSignPersonalMessage acceptingLedger 0 [44; 60] [104; 105]
           (start tt)).2 = [a] /\
    take 4 (drop 5 (payload a)) = [0; 0; 0; 60].
Proof.
  destruct (ledger_path_layout unit acceptingLedger 12 0 [44; 60] [104; 105]
              (start tt))
    as [(a & Hlog & _ & _ & _ & _ & _ & Hc & _) _].
  exists a. split; [exact Hlog |].
  apply (Hc 1%nat 60). reflexivity.
Defined.

(** ** An array type without an opening bracket *)

Lemma beforeLastBracket_none (t : string) :
  noOpening t = true -> beforeLastBracket t = None.
Proof.
  induction t as [| c r IH]; [reflexivity |].
  cbn [noOpening beforeLastBracket]. intros [Hc Hr]%andb_true_iff.
  rewrite (IH Hr). destruct (Ascii.eqb c "["); [discriminate | reflexivity].
Qed.

(** X10.  When the type of a value ends with a closing bracket and holds no
    opening bracket, and the value is an array, [sendValue] sends the
    array-length message and then panics: the type is cut at the index of
    its last opening bracket, which is -1.  The length is sent reduced to a
    byte. *)
Theorem ledger_unopened_array_type_panics :
  forall (Dev : Type) (exch : Dev -> apdu -> (transportError + list Z) * Dev)
         (data : TypedData) (fuel : nat) (t name : string) (a : list value)
         (w : world Dev apdu) (reply : list Z) (d' : Dev),
    endsWithBracket t = true ->
    noOpening t = true ->
    exch (device w) (mkApdu 0x1c 0 0x0f [len a mod 256]) = (inr reply, d') ->
    sendValue exch data (S fuel) t name (VArray a) w
    = (Panic SliceOutOfRange,
       mkWorld d' (log w ++ [mkApdu 0x1c 0 0x0f [len a mod 256]])).
Proof.
  intros Dev exch data fuel t name a w reply d' Hend Hno Hx.
  cbn [sendValue]. rewrite Hend, (beforeLastBracket_none _ Hno).
  unfold bind, wrapErr, exchange, lift.
  change (mkApdu ledgerOpEip712SendStructImpl ledgerP1CompleteSend
            ledgerP2Array [toByte (len a)])
    with (mkApdu 0x1c 0 0x0f [len a mod 256]).
  rewrite Hx. reflexivity.
Qed.

Lemma ledger_unopened_array_type_panics_witness :
  sendValue acceptingLedger bracketData 1 "T]" "f" (VArray []) (start tt)
  = (Panic SliceOutOfRange, mkWorld tt [mkApdu 28 0 15 [0]]).
Proof.
  apply (ledger_unopened_array_type_panics unit acceptingLedger bracketData 0
           "T]" "f" [] (start tt) [] tt); reflexivity.
Defined.

(** ** The answers of the Trezor driver to struct queries *)

Lemma mapResult_Ok {A B} (f : A -> result B) (l : list A) (ys : list B) :
  mapResult f l = Ok ys -> Forall2 (fun x y => f x = Ok y) l ys.
Proof.
  revert ys. induction l as [| x l IH]; intros ys; cbn [mapResult].
  - intros [= <-]. constructor.
  - destruct (f x) as [y | | |] eqn:Hx; try discriminate. cbn [andThen].
    destruct (mapResult f l) as [ys' | | |]; try discriminate.
    cbn [andThen]. intros [= <-]. constructor; auto.
Qed.

Lemma mapResult_Err {A B} (f : A -> result B) (l : list A) (e : error) :
  mapResult f l = Err e -> exists x, x ∈ l /\ f x = Err e.
Proof.
  induction l as [| x l IH]; cbn [mapResult]; [discriminate |].
  destruct (f x) as [y | e' | |] eqn:Hx; try discriminate; cbn [andThen].
  - destruct (mapResult f l) as [ys' | e' | |]; try discriminate.
    cbn [andThen]. intros [= ->].
    destruct (IH eq_refl) as (x' & Hin & Hx').
    exists x'. split; [right; exact Hin | exact Hx'].
  - intros [= ->]. exists x. split; [left | exact Hx].
Qed.

(** X11.  The answer to a struct query lists the declared fields of the
    struct, one member per field, in the declared order and under the
    declared names, each with the type that its type expression resolves
    to.  The query fails when the struct is not declared or has no field,
    and otherwise only with the error of a field whose type does not
    resolve. *)
Theorem trezor_struct_ack_members :
  forall (data : TypedData) (structName : string),
    (forall ack,
        structAck data structName = Ok ack ->
        exists fields members,
          Types data !! structName = Some fields /\ fields <> [] /\
          ack = EthereumTypedDataStructAck members /\
          Forall2 (fun field m =>
                     memberName m = Name field /\
                     exists ps, parseType data field = Ok ps /\
                                memberType m = fieldTypeOf data ps)
                  fields members) /\
    (forall e,
        structAck data structName = Err e ->
        e = ErrNoFields structName \/
        exists fields field,
          Types data !! structName = Some fields /\ field ∈ fields /\
          parseType data field = Err e) /\
    (Types data !! structName = None \/ Types data !! structName = Some [] ->
     structAck data structName = Err (ErrNoFields structName)).
Proof.
  intros data structName. unfold structAck.
  destruct (Types data !! structName) as [fields |] eqn:Ht;
    cbn [from_option id].
  2:{ change (len (@nil Type_) =? 0) with true. cbv iota.
      split; [discriminate |]. split; [| reflexivity].
      intros e [= <-]. left. reflexivity. }
  destruct fields as [| f fs].
  { change (len (@nil Type_) =? 0) with true. cbv iota.
    split; [discriminate |]. split; [| reflexivity].
    intros e [= <-]. left. reflexivity. }
  set (fields := f :: fs) in *.
  assert (Hlen : (len fields =? 0) = false)
    by (apply Z.eqb_neq; unfold len, fields; cbn [length]; lia).
  rewrite Hlen. repeat split.
  - intros ack H.
    destruct (mapResult _ fields) as [members | | |] eqn:Hm; try discriminate.
    cbn [andThen] in H. injection H as <-.
    exists fields, members. repeat split; [discriminate |].
    apply mapResult_Ok in Hm.
    eapply Forall2_impl; [exact Hm |].
    intros field m Hf. cbv beta in Hf.
    destruct (parseType data field) as [ps | | |]; try discriminate.
    cbn [andThen] in Hf. injection Hf as <-. cbn. eauto.
  - intros e H.
    destruct (mapResult _ fields) as [members | e' | |] eqn:Hm;
      try discriminate.
    cbn [andThen] in H. injection H as ->.
    apply mapResult_Err in Hm as (field & Hin & Hf). right.
    exists fields, field. repeat split; [exact Hin |].
    destruct (parseType data field) as [ps | e' | |]; try discriminate.
    cbn [andThen] in Hf. injection Hf as ->. reflexivity.
  - intros [H | H]; discriminate.
Qed.

Lemma trezor_struct_ack_members_witness :
  exists fields members,
    Types mailData !! "Mail" = Some fields /\ fields <> [] /\
    EthereumTypedDataStructAck
      [mkMember "from" (FieldType Ack_STRING None None None);
       mkMember "to" (FieldType Ack_STRING None None None)]
    = EthereumTypedDataStructAck members /\
    Forall2 (fun field m =>
               memberName m = Name field /\
               exists ps, parseType mailData field = Ok ps /\
                          memberType m = fieldTypeOf mailData ps)
            fields members.
Proof.
  apply (proj1 (trezor_struct_ack_members mailData "Mail")).
  vm_compute. reflexivity.
Defined.

Lemma arrayDims_wrapArrays (dims : list (option Z)) (inner : EthereumFieldType) :
  (forall size entry name, inner <> FieldType Ack_ARRAY size (Some entry) name) ->
  arrayDims (wrapArrays dims inner)
  = ((fun d : option Z => uint32 <$> d) <$> dims, inner).
Proof.
  intros Hinner. induction dims as [| d r IH].
  - cbn [wrapArrays fmap list_fmap].
    destruct inner as [[] size [entry |] name]; try reflexivity.
    exfalso. eapply Hinner. reflexivity.
  - cbn [wrapArrays arrayDims]. rewrite IH. reflexivity.
Qed.

(** X12.  The type that a struct answer gives for a field nests its array
    dimensions with the last declared one outermost, so that [T[2][]] is a
    dynamic array of arrays of two [T]; inside them is the element type,
    which is no array.  A fixed dimension and the width are sent as
    [uint32]. *)
Theorem trezor_field_type_nesting :
  forall (data : TypedData) (ps : parsed),
    let element := fieldTypeOf data (withLevels ps []) in
    arrayDims (fieldTypeOf data ps)
    = ((fun d : option Z => uint32 <$> d) <$> rev (arrayLevels ps), element) /\
    arrayDims element = ([], element) /\
    match element with
    | FieldType kind size entry structName =>
        kind <> Ack_ARRAY /\ entry = None /\
        (structName = None <-> dt ps <> CustomType) /\
        (hasWidth (dt ps) = true -> dt ps <> AddressType ->
         size = Some (uint32 (byteLength ps)))
    end.
Proof.
  intros data [d n bl lv] element. subst element.
  unfold fieldTypeOf, withLevels.
  cbn [dt name byteLength arrayLevels rev wrapArrays].
  split; [| split].
  - apply arrayDims_wrapArrays. destruct d; discriminate.
  - destruct d; reflexivity.
  - destruct d; repeat split; try discriminate; try reflexivity;
      try (intros; congruence).
Qed.

Lemma trezor_field_type_nesting_witness :
  let ps := mkParsed UintType "uint" 32 [Some 2; None] in
  arrayDims (fieldTypeOf emptyData ps)
  = ([None; Some 2], FieldType Ack_UINT (Some 32) None None).
Proof.
  intros ps.
  destruct (trezor_field_type_nesting emptyData ps) as (H & _ & _).
  exact H.
Defined.

(** ** The values that the Trezor driver answers with *)

Lemma parseType_width (data : TypedData) (field : Type_) (ps : parsed) :
  parseType data field = Ok ps -> 0 <= byteLength ps <= 32.
Proof.
  unfold parseType.
  destruct (stripArrays (TrimSpace (Type' field))) as [n levels].
  destruct (Types data !! n).
  - intros [= <-]. cbn. lia.
  - intros H. pose proof (parseElementary_outcome (Type' field) n levels) as Ho.
    rewrite H in Ho. destruct Ho as [_ Ho]. destruct (dt ps); lia.
Qed.

Lemma beValue_zeros (k : nat) (v : list Z) :
  beValue (replicate k 0 ++ v) = beValue v.
Proof.
  unfold beValue. rewrite fold_left_app.
  replace (fold_left (fun acc b => 256 * acc + b) (replicate k 0) 0) with 0;
    [reflexivity |].
  induction k as [| k IH]; [reflexivity |]. cbn. exact IH.
Qed.

Lemma padLeft_length (byteLength : Z) (v : list Z) :
  len v <= byteLength -> len (padLeft byteLength v) = byteLength.
Proof.
  intros H. unfold padLeft, len in *. rewrite length_app, length_replicate. lia.
Qed.

(** The encoding of a leaf of a kind that has a width. *)
Lemma trezorLeaf_width (ps : parsed) (v : value) (at_ : list nat) :
  0 <= byteLength ps ->
  hasWidth (dt ps) = true ->
  match trezorLeaf ps v at_ with
  | Ok enc =>
      len enc = byteLength ps /\
      match v with
      | VFloat f => beValue enc = Z.abs (int64 f)
      | VString s => beValue enc = beValue (FromHex s)
      | _ => enc = replicate (Z.to_nat (byteLength ps)) 0
      end
  | Err e =>
      exists n, e = ErrValueTooLong at_ n (byteLength ps) /\
                byteLength ps < n /\
                match v with
                | VFloat f => n = len (bigBytes (int64 f))
                | VString s => n = len (FromHex s)
                | _ => False
                end
  | _ => False
  end.
Proof.
  intros Hp Hw. unfold trezorLeaf.
  set (value := match v with
                | VString str => FromHex str
                | VFloat f => bigBytes (int64 f)
                | _ => []
                end).
  replace (match dt ps with
           | CustomType => _ | IntType => _ | UintType => _
           | AddressType => _ | BoolType => _ | StringType => _
           | FixedBytesType => _ | BytesType => _ end)
    with (if byteLength ps <? len value
          then Err (ErrValueTooLong at_ (len value) (byteLength ps))
          else Ok (padLeft (byteLength ps) value))
    by (destruct (dt ps); try discriminate; reflexivity).
  destruct (Z.ltb_spec (byteLength ps) (len value)) as [Hlt | Hge].
  - exists (len value). split; [reflexivity |]. split; [exact Hlt |].
    subst value.
    destruct v; try reflexivity; change (len (@nil Z)) with 0 in Hlt; lia.
  - split; [apply padLeft_length, Hge |].
    subst value. unfold padLeft.
    destruct v; try apply beValue_zeros;
      try (cbn [len length Z.of_nat]; rewrite app_nil_r, Z.sub_0_r;
           reflexivity).
    rewrite beValue_zeros. apply beBytes_value.
Qed.

Lemma select_widthBound (data : TypedData) (done : list nat) (pos : position)
    (p : nat) (pos' : position) (s : step) :
  widthBound pos -> select data done pos p = Ok (pos', s) -> widthBound pos'.
Proof.
  assert (Hfield : forall fields members,
             selectField data fields members p = Ok (pos', s) ->
             widthBound pos').
  { intros fields members. unfold selectField.
    destruct fields as [fs |]; [| discriminate].
    destruct (fs !! p) as [field |]; [| discriminate].
    destruct (parseType data field) as [ps | | |] eqn:Hp; try discriminate.
    cbn [andThen]. intros [= <- <-]. exact (parseType_width _ _ _ Hp). }
  intros Hw. destruct pos as [fields members | ps dims v]; cbn [select].
  - apply Hfield.
  - destruct v; destruct dims; try discriminate; try apply Hfield.
    destruct (a !! p); [| discriminate]. intros [= <- <-]. exact Hw.
Qed.

Lemma reach_widthBound (data : TypedData) (path : list nat) :
  forall done pos pos' steps,
    widthBound pos -> reach data path done pos = Ok (pos', steps) ->
    widthBound pos'.
Proof.
  induction path as [| p rest IH]; intros done pos pos' steps Hw; cbn [reach].
  - intros [= <- <-]. exact Hw.
  - destruct (select data done pos p) as [[pos1 s] | | |] eqn:Hs;
      try discriminate. cbn [andThen].
    destruct (reach data rest (done ++ [p]) pos1) as [[pos2 steps'] | | |]
      eqn:Hr; try discriminate. cbn [andThen]. intros [= <- <-].
    exact (IH _ _ _ _ (select_widthBound _ _ _ _ _ _ Hw Hs) Hr).
Qed.

(** X13.  The answer of the Trezor driver to a value query that ends at a
    value [v], neither nil nor an array, of a field whose kind has a width
    (int, uint, address, fixed bytes).  The answer has exactly as many bytes
    as the width: a string or a [float64] padded with zero bytes on the
    left, which denotes the same number as the unpadded bytes (for a
    [float64] the absolute value of [int64(v)]); any other value, such as a
    [*math.HexOrDecimal256], as zero bytes only.  The query fails only when
    a string or a [float64] gives more bytes than the width. *)
Theorem trezor_sized_value_width :
  forall (data : TypedData) (p0 : nat) (rest : list nat) (ps : parsed)
         (dims : nat) (v : value) (steps : list step),
    reach data rest [p0] (root data p0) = Ok (AtValue ps dims v, steps) ->
    hasWidth (dt ps) = true ->
    isNilOrArray v = false ->
    match valueAck data (p0 :: rest) with
    | Ok (enc, nestedArray) =>
        nestedArray = declaresNested steps /\
        len enc = byteLength ps /\
        match v with
        | VFloat f => beValue enc = Z.abs (int64 f)
        | VString s => beValue enc = beValue (FromHex s)
        | _ => enc = replicate (Z.to_nat (byteLength ps)) 0
        end
    | Err e =>
        exists n, e = ErrValueTooLong (p0 :: rest) n (byteLength ps) /\
                  byteLength ps < n /\
                  match v with
                  | VFloat f => n = len (bigBytes (int64 f))
                  | VString s => n = len (FromHex s)
                  | _ => False
                  end
    | _ => False
    end.
Proof.
  intros data p0 rest ps dims v steps Hr Hw Hv.
  assert (Hb : widthBound (AtValue ps dims v)).
  { apply (reach_widthBound data rest [p0] (root data p0) _ steps); [| exact Hr].
    unfold root. destruct (p0 =? 0)%nat; exact I. }
  cbn [widthBound] in Hb.
  rewrite (valueAck_resolve data _ p0 rest eq_refl). unfold resolve.
  rewrite Hr. cbn [andThen answer].
  pose proof (trezorLeaf_width ps v (p0 :: rest) (proj1 Hb) Hw) as Hleaf.
  destruct v; try discriminate;
    (destruct (trezorLeaf ps _ (p0 :: rest)) as [enc | e | |];
     [split; [reflexivity | exact Hleaf] | exact Hleaf | exact Hleaf
     | exact Hleaf]).
Qed.

Lemma trezor_sized_value_width_witness :
  len [5] = 1 /\ beValue [5] = Z.abs (int64 5).
Proof.
  pose proof (trezor_sized_value_width pairData 1 [0]%nat
                (mkParsed UintType "uint" 1 []) 0 (VFloat 5)
                [FieldStep (mkParsed UintType "uint" 1 [])]
                ltac:(vm_compute; reflexivity) eq_refl eq_refl) as H.
  vm_compute in H. vm_compute. exact (proj2 H).
Defined.

Lemma trezorLeaf_unread (ps : parsed) (h : option Z) (at_ : list nat) :
  hasWidth (dt ps) = true -> 0 <= byteLength ps ->
  trezorLeaf ps (VHexOrDecimal h) at_
  = Ok (replicate (Z.to_nat (byteLength ps)) 0).
Proof.
  intros Hw Hb. unfold trezorLeaf, padLeft.
  change (len (@nil Z)) with 0. rewrite Z.sub_0_r, app_nil_r.
  destruct (Z.ltb_spec (byteLength ps) 0) as [| _]; [lia |].
  destruct (dt ps); try discriminate; reflexivity.
Qed.

Section TrezorAnswers.
Variable data : TypedData.

Lemma reach_one (p0 p : nat) (rest : list nat) (fields : list Type_)
    (members : gmap string value) (field : Type_) (ps : parsed) :
  root data p0 = AtStruct (Some fields) members ->
  fields !! p = Some field ->
  parseType data field = Ok ps ->
  reach data (p :: rest) [p0] (root data p0)
  = andThen
      (reach data rest [p0; p]
         (AtValue ps (length (arrayLevels ps))
            (default VNil (members !! Name field))))
      (fun '(pos, steps) => Ok (pos, FieldStep ps :: steps)).
Proof.
  intros -> Hf Hp. cbn [reach select]. unfold selectField.
  rewrite Hf, Hp. reflexivity.
Qed.
End TrezorAnswers.

(** X14.  A value kept as a [*math.HexOrDecimal256], as the chain id of
    the domain is, is answered by the Trezor driver with zero bytes only
    when its field has a kind with a width: the number it holds is not
    read.  The Ledger driver sends the bytes of the number. *)
Theorem trezor_hex_or_decimal_sent_as_zeros :
  forall (data : TypedData) (p0 p : nat) (fields : list Type_)
         (members : gmap string value) (field : Type_) (ps : parsed)
         (h : option Z),
    root data p0 = AtStruct (Some fields) members ->
    fields !! p = Some field ->
    parseType data field = Ok ps ->
    hasWidth (dt ps) = true ->
    arrayLevels ps = [] ->
    members !! Name field = Some (VHexOrDecimal h) ->
    valueAck data [p0; p]
      = Ok (replicate (Z.to_nat (byteLength ps)) 0, false) /\
    (forall i,
        h = Some i ->
        ledgerLeaf (Type' field) (Name field) (VHexOrDecimal h)
        = Ok (bigBytes i)).
Proof.
  intros data p0 p fields members field ps h Hroot Hf Hp Hw Hl Hm.
  split; [| intros i ->; reflexivity].
  rewrite (valueAck_resolve data _ p0 [p] eq_refl). unfold resolve.
  rewrite (reach_one data p0 p [] fields members field ps Hroot Hf Hp).
  rewrite Hm, Hl. cbn [reach andThen answer from_option id length].
  apply parseType_width in Hp.
  rewrite (trezorLeaf_unread ps h _ Hw) by lia.
  unfold withFlag, declaresNested. cbn [andThen existsb orb].
  rewrite Hl. reflexivity.
Qed.

Lemma trezor_hex_or_decimal_sent_as_zeros_witness :
  valueAck chainData [0; 1]%nat = Ok (replicate 32 0, false) /\
  ledgerLeaf "uint256" "chainId" (VHexOrDecimal (Some 8453)) = Ok [33; 5].
Proof.
  destruct (trezor_hex_or_decimal_sent_as_zeros chainData 0 1
              [mkType "name" "string"; mkType "chainId" "uint256"]
              (DomainMap chainData) (mkType "chainId" "uint256")
              (mkParsed UintType "uint" 32 []) (Some 8453))
    as [H1 H2]; try (vm_compute; reflexivity).
  split; [exact H1 | exact (H2 8453 eq_refl)].
Defined.

(** ** A member that is missing from the message *)

Section MissingMember.
Context {Dev : Type}.
Variable exch : Dev -> apdu -> (transportError + list Z) * Dev.
Variable data : TypedData.

Lemma bind_not_Ok {A B} (m : M Dev apdu A) (k : A -> M Dev apdu B)
    (w : world Dev apdu) (b : B) :
  (forall a w', m w = (Ok a, w') -> (k a w').1 <> Ok b) ->
  (bind m k w).1 <> Ok b.
Proof.
  intros H. unfold bind.
  destruct (m w) as [[a | e | p |] w'] eqn:Hm; try discriminate.
  apply (H a w' eq_refl).
Qed.

Lemma wrapErr_not_Ok {A} (context : string) (m : M Dev apdu A)
    (w : world Dev apdu) (a : A) :
  (m w).1 <> Ok a -> (wrapErr context m w).1 <> Ok a.
Proof.
  unfold wrapErr. destruct (m w) as [[x | e | p |] w']; cbn; congruence.
Qed.

Lemma forEach_not_Ok {A} (l : list A) (f : A -> M Dev apdu unit) (x : A) :
  x ∈ l -> (forall w, (f x w).1 <> Ok tt) ->
  forall w, (forEach l f w).1 <> Ok tt.
Proof.
  intros Hin Hx. induction l as [| y l IH]; [inversion Hin |].
  intros w. cbn [forEach]. apply bind_not_Ok. intros [] w' Hy.
  apply elem_of_cons in Hin as [<- | Hin].
  - specialize (Hx w). rewrite Hy in Hx. contradiction.
  - apply IH, Hin.
Qed.

Lemma sendValue_missing (t name : string) (m : gmap string value) :
  missingMember data t m ->
  forall fuel w, (sendValue exch data fuel t name (VMap m) w).1 <> Ok tt.
Proof.
  intros (fields & field & Ht & Hin & Hm) fuel w.
  destruct fuel as [| fuel]; [discriminate |].
  cbn [sendValue]. destruct (endsWithBracket t); [discriminate |].
  rewrite Ht. apply (forEach_not_Ok fields _ field Hin).
  intros w'. apply wrapErr_not_Ok. rewrite Hm. cbn [from_option].
  destruct fuel; discriminate.
Qed.

Lemma sendStructImpls_missing :
  missingMember data "EIP712Domain" (DomainMap data) \/
  missingMember data (PrimaryType data) (Message data) ->
  forall w, (sendStructImpls exch data w).1 <> Ok tt.
Proof.
  intros Hmiss w. unfold sendStructImpls, sendValueOf.
  apply bind_not_Ok. intros r1 w1 _.
  apply bind_not_Ok. intros [] w2 H2.
  destruct Hmiss as [Hd | Hp].
  { apply wrapErr_Ok_inv in H2.
    pose proof (sendValue_missing "EIP712Domain" "domain" (DomainMap data) Hd
                  (S (depth (VMap (DomainMap data)))) w1) as Hno.
    rewrite H2 in Hno. contradiction. }
  apply bind_not_Ok. intros r3 w3 _.
  apply wrapErr_not_Ok, sendValue_missing, Hp.
Qed.
End MissingMember.

(** X15.  When a field that the domain struct or the primary type declares
    has no entry in the domain or in the message, the Ledger driver does
    not return a signature and never sends the signing request.  It finds
    the missing value only while sending the values: what it has sent by
    then are struct definitions and struct values. *)
Theorem ledger_missing_member_not_signed :
  forall (Dev : Type) (exch : Dev -> apdu -> (transportError + list Z) * Dev)
         (opSign : Z) (data : TypedData) (path : list Z) (w : world Dev apdu),
    missingMember data "EIP712Domain" (DomainMap data) \/
    missingMember data (PrimaryType data) (Message data) ->
    let out := ledgerSignTypedData exch opSign data path w in
    (forall signature, out.1 <> Ok signature) /\
    exists sent,
      log out.2 = log w ++ sent /\
      Forall (fun a => isDefinition a \/ isImplementation a) sent /\
      signRequest opSign path ∉ sent.
Proof.
  intros Dev exch opSign data path w Hmiss out.
  assert (Hphases : forall sent,
             Forall (fun a => isDefinition a \/ isImplementation a) sent ->
             signRequest opSign path ∉ sent).
  { intros sent F Hin. rewrite Forall_forall in F.
    destruct (F _ Hin) as [(_ & _ & [H | H]) | (_ & _ & [H | [H | H]])];
      discriminate. }
  assert (Hout :
            (forall signature, out.1 <> Ok signature) /\
            exists sent,
              log out.2 = log w ++ sent /\
              Forall (fun a => isDefinition a \/ isImplementation a) sent).
  { subst out. unfold ledgerSignTypedData.
    assert (Hfail : forall e,
               (forall signature,
                   (fail (A := list Z) e w).1 <> Ok signature) /\
               exists sent,
                 log (fail (A := list Z) e w).2 = log w ++ sent /\
                 Forall (fun a => isDefinition a \/ isImplementation a) sent).
    { intros e. split; [discriminate |]. exists [].
      cbn. rewrite app_nil_r. split; [reflexivity | constructor]. }
    destruct (Types data !! "EIP712Domain"); [| apply Hfail].
    destruct (Types data !! PrimaryType data); [| apply Hfail].
    clear Hfail. unfold bind. cbv beta.
    destruct (emits_sendStructDefs exch data w) as (defs & E1 & F1).
    assert (F1' : Forall (fun a => isDefinition a \/ isImplementation a) defs)
      by (eapply Forall_impl; [exact F1 | intros a Ha; left; exact Ha]).
    destruct (sendStructDefs exch data w) as [[[] | e | p |] w1];
      cbn [fst snd] in *;
      try (split; [discriminate | exists defs; split; assumption]).
    destruct (emits_sendStructImpls exch data w1) as (impls & E2 & F2).
    pose proof (sendStructImpls_missing exch data Hmiss w1) as Hno.
    assert (F2' : Forall (fun a => isDefinition a \/ isImplementation a)
                    (defs ++ impls)).
    { apply Forall_app. split; [exact F1' |].
      eapply Forall_impl; [exact F2 | intros a Ha; right; exact Ha]. }
    destruct (sendStructImpls exch data w1) as [[[] | e | p |] w2];
      cbn [fst snd] in *; [contradiction | ..];
      (split; [discriminate |]; exists (defs ++ impls);
       rewrite E2, E1, app_assoc; split; [reflexivity | exact F2']). }
  destruct Hout as [Hno (sent & Hlog & F)].
  split; [exact Hno |]. exists sent. auto.
Qed.

Lemma ledger_missing_member_not_signed_witness :
  let out :=
    ledgerSignTypedData (constantLedger (27 :: replicate 64 1)) 12
      partialData [44] (start tt) in
  (forall signature, out.1 <> Ok signature) /\
  exists sent,
    log out.2 = sent /\
    Forall (fun a => isDefinition a \/ isImplementation a) sent /\
    signRequest 12 [44] ∉ sent.
Proof.
  apply (ledger_missing_member_not_signed unit
           (constantLedger (27 :: replicate 64 1)) 12 partialData [44]
           (start tt)).
  right. exists [mkType "a" "uint8"; mkType "b" "string"], (mkType "b" "string").
  split; [vm_compute; reflexivity |].
  split; [right; left | vm_compute; reflexivity].
Defined.

(** ** The conversation with a Trezor *)

Lemma structAck_isAck (data : TypedData) (structName : string)
    (ack : trezorRequest) :
  structAck data structName = Ok ack -> isAck ack.
Proof.
  unfold structAck. destruct (_ =? 0); [discriminate |].
  destruct (mapResult _ _); try discriminate.
  cbn [andThen]. intros [= <-]. exact I.
Qed.

Lemma interact_sends {Dev : Type}
    (exch : Dev -> trezorRequest -> (transportError + trezorReply) * Dev)
    (firmwareError : Z) (data : TypedData) (fuel : nat) :
  forall req nestedArray (st : world Dev trezorRequest),
    exists acks,
      log (interact exch firmwareError data fuel req nestedArray st).2
      = log st ++ match fuel with O => [] | S _ => req :: acks end /\
      Forall isAck acks.
Proof.
  induction fuel as [| fuel IH]; intros req nestedArray st.
  - exists []. cbn. rewrite app_nil_r. split; [reflexivity | constructor].
  - cbn [interact].
    destruct (exch (device st) req) as [[e | [signature | structName | path]] d].
    + exists []. split; [| constructor].
      destruct (nestedArray && _); reflexivity.
    + exists []. split; [reflexivity | constructor].
    + destruct (structAck data structName) as [ack | | |] eqn:Ha;
        try (exists []; split; [reflexivity | constructor]).
      destruct (IH ack false (mkWorld d (log st ++ [req]))) as (acks & E & F).
      exists (match fuel with O => [] | S _ => ack :: acks end).
      rewrite E. cbn [log]. rewrite <- app_assoc. split; [reflexivity |].
      destruct fuel; constructor; [eapply structAck_isAck; eauto | exact F].
    + destruct (valueAck data path) as [[v flag] | | |];
        try (exists []; split; [reflexivity | constructor]).
      destruct (IH (EthereumTypedDataValueAck v) flag
                  (mkWorld d (log st ++ [req]))) as (acks & E & F).
      exists (match fuel with
              | O => []
              | S _ => EthereumTypedDataValueAck v :: acks
              end).
      rewrite E. cbn [log]. rewrite <- app_assoc. split; [reflexivity |].
      destruct fuel; constructor; [exact I | exact F].
Qed.

(** X16.  What the Trezor driver sends.  With no device, or when the
    document cannot be hashed, a typed-data signing sends nothing; on a
    device that is not a legacy one it sends the signing request first and
    after it only answers to the device's struct and value queries.
    Signing a text sends the one signing message, or nothing when there
    is no device. *)
Theorem trezor_conversation :
  forall (Dev : Type)
         (exch : Dev -> trezorRequest -> (transportError + trezorReply) * Dev)
         (exchTM : Dev -> trezorRequest -> (transportError + list Z) * Dev)
         (firmwareError : Z) (hash : TypedData -> error + list Z)
         (signHash : list Z -> list Z -> list Z -> M Dev trezorRequest (list Z))
         (w : trezorDriver) (fuel : nat) (path : list Z) (data : TypedData)
         (st : world Dev trezorRequest),
    (hasDevice w = false ->
     Trezor.SignedTypedData exch firmwareError hash signHash w fuel path data st
     = (Err ErrWalletClosed, st)) /\
    (forall e,
        hasDevice w = true -> hash data = inl e ->
        Trezor.SignedTypedData exch firmwareError hash signHash w fuel path
          data st
        = (Err (Wrapf "trezor: error hashing typed data" e), st)) /\
    (forall D,
        hasDevice w = true -> hash data = inr D -> length D = 66%nat ->
        (trezorVersion w).1.1 <> 1 ->
        exists acks,
          log (Trezor.SignedTypedData exch firmwareError hash signHash w
                 (S fuel) path data st).2
          = log st ++
            EthereumSignTypedData path (PrimaryType data)
              (take 32 (drop 34 D)) :: acks /\
          Forall isAck acks) /\
    (forall text,
        log (Trezor.SignText exchTM w path text st).2
        = log st ++
          (if hasDevice w then [EthereumSignMessage path text] else [])).
Proof.
  intros Dev exch exchTM firmwareError hash signHash w fuel path data st.
  unfold Trezor.SignedTypedData, Trezor.SignText.
  repeat split.
  - intros ->. reflexivity.
  - intros e -> ->. reflexivity.
  - intros D -> -> Hlen Hv.
    unfold bind, lift, slice. rewrite Hlen.
    destruct (Z.eqb_spec (trezorVersion w).1.1 1); [contradiction |].
    cbn [negb Nat.leb Nat.sub].
    apply (interact_sends exch firmwareError data (S fuel)).
  - intros text. destruct (hasDevice w); cbn [negb].
    + destruct (exchTM _ _) as [[e | signature] d]; reflexivity.
    + cbn. rewrite app_nil_r. reflexivity.
Qed.

Lemma trezor_conversation_witness :
  exists acks,
    log (Trezor.SignedTypedData scriptedTrezor 99 zeroDigest noHashSigning
           (mkTrezorDriver true (2, 7, 0)) 3 [] mailData
           (start [inr (EthereumTypedDataStructRequest "Mail");
                   inr (EthereumTypedDataValueRequest [1; 0]%nat);
                   inr (EthereumTypedDataSignature [7])])).2
    = EthereumSignTypedData [] "Mail" (replicate 32 0) :: acks /\
    Forall isAck acks.
Proof.
  destruct (trezor_conversation _ scriptedTrezor
              (fun d _ => (inr [], d)) 99 zeroDigest noHashSigning
              (mkTrezorDriver true (2, 7, 0)) 2 [] mailData
              (start [inr (EthereumTypedDataStructRequest "Mail");
                      inr (EthereumTypedDataValueRequest [1; 0]%nat);
                      inr (EthereumTypedDataSignature [7])]))
    as (_ & _ & H & _).
  apply (H (replicate 66 0)); [reflexivity .. | discriminate].
Defined.

(** ** The device enumerators *)

Lemma scanProducts_spec (e : Hid.hidEnumerator) (info : Hid.DeviceInfo)
    (ids : list Z) (infos : list Hid.DeviceInfo) :
  Hid.scanProducts e info ids infos
  = if existsb (fun id =>
                  (Hid.ProductID info =? id) ||
                  (Z.land (Hid.ProductID info) 0xff00 =? id)) ids &&
       ((Hid.UsagePage info =? Hid.usageID e) ||
        (Hid.Interface info =? Hid.endpointID e))
    then infos ++ [info] else infos.
Proof.
  induction ids as [| id rest IH]; [reflexivity |].
  cbn [Hid.scanProducts existsb]. rewrite IH.
  destruct ((Hid.ProductID info =? id)
            || (Z.land (Hid.ProductID info) 65280 =? id));
    destruct ((Hid.UsagePage info =? Hid.usageID e)
              || (Hid.Interface info =? Hid.endpointID e));
    cbn [andb orb]; try reflexivity.
  rewrite andb_false_r. reflexivity.
Qed.

Lemma scanDevices_filter (e : Hid.hidEnumerator) (i : list Hid.DeviceInfo) :
  forall infos,
    Hid.scanDevices e i infos = infos ++ List.filter (wanted e) i.
Proof.
  induction i as [| info rest IH]; intros infos; cbn [Hid.scanDevices List.filter].
  - rewrite app_nil_r. reflexivity.
  - rewrite IH, scanProducts_spec. fold (wanted e info).
    destruct (wanted e info); [rewrite <- app_assoc |]; reflexivity.
Qed.

(** X17.  [Infos] of hid.go and usb.go lists the enumerated devices that
    are wanted, each one once and in the order of the enumeration: a device
    is wanted when one of the enumerator's product identifiers is its
    product identifier or the model part of it (the upper byte), and its
    usage page or its interface is the enumerator's.  On an unsupported
    platform, or when the enumeration fails, it returns the error and no
    device. *)
Theorem hid_infos_lists_wanted_devices :
  forall (Supported : bool)
         (Enumerate : Z -> Z -> Hid.enumError + list Hid.DeviceInfo)
         (e : Hid.hidEnumerator),
    (Supported = false ->
     Hid.Infos Supported Enumerate e = inl Hid.UnsupportedPlatform) /\
    (forall err,
        Supported = true -> Enumerate (Hid.vendorID e) 0 = inl err ->
        Hid.Infos Supported Enumerate e = inl err) /\
    (forall i,
        Supported = true -> Enumerate (Hid.vendorID e) 0 = inr i ->
        Hid.Infos Supported Enumerate e = inr (List.filter (wanted e) i)) /\
    (forall info,
        wanted e info = true <->
        (exists id, In id (Hid.productIDs e) /\
                    (Hid.ProductID info = id \/
                     Z.land (Hid.ProductID info) 0xff00 = id)) /\
        (Hid.UsagePage info = Hid.usageID e \/
         Hid.Interface info = Hid.endpointID e)).
Proof.
  intros Supported Enumerate e. unfold Hid.Infos.
  split; [| split; [| split]].
  - intros ->. reflexivity.
  - intros err -> ->. reflexivity.
  - intros i -> ->. cbn [negb]. rewrite scanDevices_filter. reflexivity.
  - intros info. unfold wanted. rewrite andb_true_iff, orb_true_iff.
    rewrite !Z.eqb_eq. apply and_iff_compat_r.
    rewrite existsb_exists. split.
    + intros (id & Hin & H). exists id. split; [exact Hin |].
      apply orb_true_iff in H as [H | H]; apply Z.eqb_eq in H; auto.
    + intros (id & Hin & H). exists id. split; [exact Hin |].
      apply orb_true_iff. rewrite !Z.eqb_eq. exact H.
Qed.

Lemma hid_infos_lists_wanted_devices_witness :
  let e := Hid.mkHidEnumerator 0x2c97 [0x4011; 0x4000] 0xffa0 0 in
  let nano := Hid.mkDeviceInfo "1" 0x4011 0xffa0 2 in
  let other := Hid.mkDeviceInfo "2" 0x0001 0xffa0 0 in
  Hid.Infos true (fun _ _ => inr [other; nano; other]) e = inr [nano].
Proof.
  intros e nano other.
  destruct (hid_infos_lists_wanted_devices true
              (fun _ _ => inr [other; nano; other]) e) as (_ & _ & H & _).
  exact (H [other; nano; other] eq_refl eq_refl).
Defined.

Lemma anyProduct_spec (desc : Gousb.DeviceDesc) (ids : list Z) :
  Gousb.anyProduct desc ids = true <-> In (Gousb.Product desc) ids.
Proof.
  induction ids as [| id rest IH]; cbn [Gousb.anyProduct In].
  - split; [discriminate | tauto].
  - destruct (Z.eqb_spec (Gousb.Product desc) id) as [-> | Hne].
    + tauto.
    + rewrite IH. split; [tauto | intros [H | H]; congruence || exact H].
Qed.

(** X18.  The enumerator over gousb opens a device exactly when its
    vendor is the enumerator's and its product identifier is one of the
    enumerator's; here the model part of the identifier alone does not
    match. *)
Theorem gousb_opener_selects :
  forall (e : Gousb.usbEnumerator) (desc : Gousb.DeviceDesc),
    Gousb.opener e desc = true <->
    Gousb.Vendor desc = Gousb.vendorID e /\
    In (Gousb.Product desc) (Gousb.productIDs e).
Proof.
  intros e desc. unfold Gousb.opener.
  destruct (Z.eqb_spec (Gousb.Vendor desc) (Gousb.vendorID e)) as [Hv | Hv].
  - rewrite <- anyProduct_spec.
    destruct (Gousb.anyProduct desc (Gousb.productIDs e)); intuition congruence.
  - split; [discriminate | tauto].
Qed.
